(** * Workspace object store: a shallow embedding of the engine

    The development follows [apps/web/lib/workspace.ts] (path resolver,
    database locator, query/exec bridge), the object route with its
    client-side EAV pivot, and the two mutation routes (enum rename, bulk
    delete).  JavaScript strings are Rocq strings (sequences of 8-bit code
    units), JavaScript objects used as records are finite maps from keys
    to values, arrays are lists. *)

From Stdlib Require Import Ascii String DecimalString DecimalPos.
From stdpp Require Import base option list gmap strings.

(** ** JavaScript strings and values *)

Module Js.

(** [String.prototype.startsWith]. *)
Fixpoint startsWith (s p : string) : bool :=
  match p, s with
  | EmptyString, _ => true
  | String _ _, EmptyString => false
  | String a p', String b s' => if Ascii.eqb a b then startsWith s' p' else false
  end.

(** [String.prototype.includes]. *)
Fixpoint includes (s p : string) : bool :=
  if startsWith s p then true
  else match s with
       | EmptyString => false
       | String _ s' => includes s' p
       end.

(** [String.prototype.endsWith] for a one-character suffix, as
    [path.charCodeAt(path.length - 1) === c]. *)
Fixpoint lastCharIs (c : ascii) (s : string) : bool :=
  match s with
  | EmptyString => false
  | String a EmptyString => Ascii.eqb a c
  | String _ s' => lastCharIs c s'
  end.

(** [Array.prototype.join] on strings. *)
Fixpoint join (sep : string) (l : list string) : string :=
  match l with
  | [] => ""
  | [x] => x
  | x :: l' => x +:+ sep +:+ join sep l'
  end.

(** [String.prototype.split] with a one-character separator: the result
    always has at least one piece. *)
Fixpoint split (sep : ascii) (s : string) : list string :=
  match s with
  | EmptyString => [""]
  | String c s' =>
      if Ascii.eqb c sep then "" :: split sep s'
      else match split sep s' with
           | seg :: rest => String c seg :: rest
           | [] => [String c ""]
           end
  end.

(** White space and line terminators removed by [String.prototype.trim],
    among the code units a Rocq string can hold: TAB, LF, VT, FF, CR,
    SPACE and NBSP. *)
Definition isWhiteSpace (c : ascii) : bool :=
  match c with
  | "009" | "010" | "011" | "012" | "013" | " " | "160" => true
  | _ => false
  end%char.

Fixpoint trimStart (s : string) : string :=
  match s with
  | EmptyString => ""
  | String c s' => if isWhiteSpace c then trimStart s' else s
  end.

Fixpoint trimEnd (s : string) : string :=
  match s with
  | EmptyString => ""
  | String c s' =>
      match trimEnd s' with
      | EmptyString => if isWhiteSpace c then "" else String c ""
      | t => String c t
      end
  end.

(** [String.prototype.trim]. *)
Definition trim (s : string) : string := trimEnd (trimStart s).

(** [s.replace(/'/g, r)]: every single quote replaced by [r]. *)
Fixpoint replaceQuotes (r : string) (s : string) : string :=
  match s with
  | EmptyString => ""
  | String c s' =>
      if Ascii.eqb c "'" then r +:+ replaceQuotes r s'
      else String c (replaceQuotes r s')
  end.

(** The JSON values that travel through the bridge and the responses;
    an object or an array is kept as its text. *)
Inductive value : Type :=
| Null
| Bool (b : bool)
| Num (n : Z)
| Str (s : string)
| Composite (json : string).

(** Truthiness of a string: only the empty string is falsy. *)
Definition truthy (s : string) : bool := negb (String.eqb s "").

(** SameValueZero on the result of a property read ([None] is
    [undefined]).  Primitives compare by value.  Objects and arrays
    compare by identity, and the two sides of every comparison made by
    the code below come out of different rows of a [JSON.parse] result,
    hence are different objects. *)
Definition sameValueZero (a b : option value) : bool :=
  match a, b with
  | None, None => true
  | Some Null, Some Null => true
  | Some (Bool x), Some (Bool y) => Bool.eqb x y
  | Some (Num x), Some (Num y) => Z.eqb x y
  | Some (Str x), Some (Str y) => String.eqb x y
  | _, _ => false
  end.

(** [Array.prototype.indexOf] on an array of strings; [None] is [-1]. *)
Fixpoint indexOf (l : list string) (x : string) : option nat :=
  match l with
  | [] => None
  | y :: l' => if String.eqb y x then Some 0 else S <$> indexOf l' x
  end.

(** [Array.prototype.includes] on an array of strings. *)
Definition arrayIncludes (l : list string) (x : string) : bool :=
  existsb (fun y => String.eqb y x) l.

(** [String.prototype.endsWith]. *)
Fixpoint endsWith (s p : string) : bool :=
  if String.eqb s p then true
  else match s with
       | EmptyString => false
       | String _ s' => endsWith s' p
       end.

(** The character classes of the regular expressions: [[a-zA-Z]], [\d]
    and [\w]. *)
Definition isAsciiLetter (c : ascii) : bool :=
  let n := nat_of_ascii c in
  (65 <=? n) && (n <=? 90) || (97 <=? n) && (n <=? 122).

Definition isDigit (c : ascii) : bool :=
  let n := nat_of_ascii c in (48 <=? n) && (n <=? 57).

Definition isWordChar (c : ascii) : bool :=
  isAsciiLetter c || isDigit c || Ascii.eqb c "_".

(** [String.prototype.toLowerCase] on one code unit: the capital letters
    among the code units a Rocq string can hold are A-Z and those of
    Latin-1, 192-222 without the multiplication sign 215; each has its
    small letter 32 places further. *)
Definition lowerChar (c : ascii) : ascii :=
  let n := nat_of_ascii c in
  if (65 <=? n) && (n <=? 90)
     || (192 <=? n) && (n <=? 222) && negb (n =? 215)
  then ascii_of_nat (n + 32) else c.

Fixpoint toLowerCase (s : string) : string :=
  match s with
  | EmptyString => ""
  | String c s' => String (lowerChar c) (toLowerCase s')
  end.

(** The values [JSON.parse] returns.  A number is kept as the text
    [String] gives for it. *)
#[warnings="-register-all"]
Inductive Json : Type :=
| JNull
| JBool (b : bool)
| JNumber (text : string)
| JString (s : string)
| JArray (items : list Json)
| JObject (members : list (string * Json)).


End Js.

(** ** [node:path], POSIX flavour *)

Module NodePath.

(** One step of [normalizeString]: [stack] holds the segments kept so
    far, the last one first. *)
Definition pushSegment (allowAboveRoot : bool) (stack : list string)
    (seg : string) : list string :=
  if String.eqb seg "" || String.eqb seg "." then stack
  else if String.eqb seg ".." then
    match stack with
    | top :: below =>
        if String.eqb top ".." then
          (if allowAboveRoot then ".." :: stack else stack)
        else below
    | [] => if allowAboveRoot then [".."] else []
    end
  else seg :: stack.

Definition normalizeSegments (allowAboveRoot : bool) (stack : list string)
    (segs : list string) : list string :=
  fold_left (pushSegment allowAboveRoot) segs stack.

(** [normalizeString(path, allowAboveRoot, "/", isPosixPathSeparator)]. *)
Definition normalizeString (path : string) (allowAboveRoot : bool) : string :=
  Js.join "/" (reverse (normalizeSegments allowAboveRoot [] (Js.split "/" path))).

(** [path.normalize]. *)
Definition normalize (path : string) : string :=
  if String.eqb path "" then "."
  else
    let isAbsolute := Js.startsWith path "/" in
    let trailingSeparator := Js.lastCharIs "/" path in
    let p := normalizeString path (negb isAbsolute) in
    if String.eqb p "" then
      (if isAbsolute then "/" else if trailingSeparator then "./" else ".")
    else
      let p := if trailingSeparator then p +:+ "/" else p in
      if isAbsolute then "/" +:+ p else p.

(** The loop of [path.resolve], from the last argument to the first and
    then the working directory, until an absolute piece is met. *)
Fixpoint resolveLoop (pieces : list string) (resolvedPath : string)
    : string * bool :=
  match pieces with
  | [] => (resolvedPath, false)
  | p :: rest =>
      if String.eqb p "" then resolveLoop rest resolvedPath
      else
        let resolvedPath := p +:+ "/" +:+ resolvedPath in
        if Js.startsWith p "/" then (resolvedPath, true)
        else resolveLoop rest resolvedPath
  end.

(** [path.resolve(...args)] in a process whose working directory is
    [cwd]. *)
Definition resolve (cwd : string) (args : list string) : string :=
  let '(resolvedPath, resolvedAbsolute) := resolveLoop (reverse args ++ [cwd]) "" in
  let n := normalizeString resolvedPath (negb resolvedAbsolute) in
  if resolvedAbsolute then "/" +:+ n
  else if String.eqb n "" then "." else n.

(** [path.join(...args)]. *)
Definition join (args : list string) : string :=
  let joined := Js.join "/" (filter (fun a => a ≠ "") args) in
  if String.eqb joined "" then "." else normalize joined.

(** The list without its longest prefix of elements that satisfy [p]. *)
Fixpoint dropWhile {A} (p : A → bool) (l : list A) : list A :=
  match l with
  | [] => []
  | x :: l' => if p x then dropWhile p l' else l
  end.

(** [path.dirname]: the loop runs from the last character down to the
    second one, over the separators that end the path, then over its last
    segment, and stops on the separator before it. *)
Definition dirname (path : string) : string :=
  match path with
  | EmptyString => "."
  | String first rest =>
      let hasRoot := Ascii.eqb first "/" in
      let isSep := λ c, Ascii.eqb c "/" in
      match dropWhile (λ c, negb (isSep c))
              (dropWhile isSep (reverse (list_ascii_of_string rest))) with
      | [] => if hasRoot then "/" else "."
      | _ :: before =>
          match before with
          | [] => if hasRoot then "//" else String first ""
          | _ => String first (string_of_list_ascii (reverse before))
          end
      end
  end.

(** The segments of a resolved path: [/a/b] has [a] and [b], and [/]
    has none. *)
Definition segments (resolved : string) : list string :=
  filter (λ seg, seg ≠ "") (Js.split "/" resolved).

(** Two lists of segments without their longest common prefix. *)
Fixpoint dropCommon (from to : list string) : list string * list string :=
  match from, to with
  | f :: from', t :: to' =>
      if String.eqb f t then dropCommon from' to' else (from, to)
  | _, _ => (from, to)
  end.

(** [path.relative(from, to)]: both paths are resolved; the result goes
    up by one [..] for each segment of [from] below the directory the two
    paths share, and then down the segments of [to] below it. *)
Definition relative (cwd from to : string) : string :=
  if String.eqb from to then ""
  else
    let from := resolve cwd [from] in
    let to := resolve cwd [to] in
    if String.eqb from to then ""
    else
      let '(up, down) := dropCommon (segments from) (segments to) in
      Js.join "/" (replicate (length up) ".." ++ down).

End NodePath.

(** ** [/bin/sh]: the words of a command line

    The part of the shell grammar the commands of the bridge use: words
    are separated by spaces; text between single quotes is taken as it
    is; outside quotes a backslash takes the next character as it is (a
    backslash and a line feed vanish), and letters, digits, [_] and [-]
    stand for themselves.  [None] is a command line that ends inside
    quotes or after a backslash, or has any other character outside
    quotes. *)

Module Sh.

Definition plain (c : ascii) : bool := Js.isWordChar c || Ascii.eqb c "-".

(** The word in progress, one character longer. *)
Definition put (cur : option string) (c : ascii) : option string :=
  Some (default "" cur +:+ String c "").

Fixpoint words (cur : option string) (quoted : bool) (s : string)
    : option (list string) :=
  match s with
  | EmptyString => if quoted then None else Some (option_list cur)
  | String c s' =>
      if quoted then
        if Ascii.eqb c "'" then words cur false s'
        else words (put cur c) true s'
      else if Ascii.eqb c "'" then words (Some (default "" cur)) true s'
      else if Ascii.eqb c " " then (λ ws, option_list cur ++ ws) <$> words None false s'
      else if Ascii.eqb c "\" then
        match s' with
        | EmptyString => None
        | String d s'' =>
            if Ascii.eqb d "010" then words cur false s''
            else words (put cur d) false s''
        end
      else if plain c then words (put cur c) false s'
      else None
  end.

(** The arguments [/bin/sh -c command] starts the program with, the
    name of the program first. *)
Definition argv (command : string) : option (list string) :=
  words None false command.

End Sh.

(** ** SQL text

    A statement is embedded as the function on tables it denotes.  The
    string literals the routes interpolate are passed as the routes
    build them, escaped, and read back the way the engine's lexer reads a
    quoted literal.  The second escaping of the bridge, of the whole
    statement for the shell, is undone by the shell before the engine
    reads the statement. *)

Module Sql.

(** [sqlEscape] of the routes: [s.replace(/'/g, "''")]. *)
Definition sqlEscape (s : string) : string := Js.replaceQuotes "''" s.

(** The string a quoted literal denotes: a doubled quote stands for one. *)
Fixpoint literal (s : string) : string :=
  match s with
  | String a (String b rest as tl) =>
      if Ascii.eqb a "'" && Ascii.eqb b "'" then String "'" (literal rest)
      else String a (literal tl)
  | _ => s
  end.

(** The lexer of the engine on a quoted literal, read from the character
    behind the opening quote: the string the literal denotes, and the
    text behind its closing quote.  A doubled quote stands for one quote;
    [None] is a literal that is not closed. *)
Fixpoint lexLiteral (s : string) : option (string * string) :=
  match s with
  | EmptyString => None
  | String c rest =>
      if Ascii.eqb c "'" then
        match rest with
        | String c' rest' =>
            if Ascii.eqb c' "'"
            then (λ r : string * string, (String "'" r.1, r.2)) <$> lexLiteral rest'
            else Some ("", rest)
        | EmptyString => Some ("", "")
        end
      else (λ r : string * string, (String c r.1, r.2)) <$> lexLiteral rest
  end.

End Sql.

(** ** [lib/workspace.ts]: the process environment, the store, the bridge *)

Module Workspace.
Import Sql.

(** The entries [readdirSync(dir, { withFileTypes: true })] reports, with
    what lies below each.  A listing of [None] is a directory that
    cannot be read (the call throws). *)
#[warnings="-register-all"]
Inductive Dirent : Type :=
| File (name : string)
| Directory (name : string) (listing : option (list Dirent)).

(** What the process sees of its surroundings; none of it changes while
    a request is served. *)
Record Env : Type := {
  OPENCLAW_WORKSPACE : option string;
  homedir : string;
  cwdTail : string;
  existsSync : string → bool;
  workspaceTree : Dirent;
  whichDuckdb : bool
}.

(** [process.cwd()] is an absolute path. *)
Definition cwd (env : Env) : string := "/" +:+ cwdTail env.

(** *** Tables of one database file *)

Record ObjectRow : Type := {
  obj_id : string;
  obj_name : string
}.

(** The text of a JSON column.  [JSON.parse] succeeds on [ArrayText] and
    throws on [InvalidText]; [JSON.stringify] of an array of strings
    produces the [ArrayText] it parses back to. *)
Inductive JsonText : Type :=
| EmptyText
| ArrayText (items : list string)
| InvalidText (raw : string).

Record FieldRow : Type := {
  fld_id : string;
  fld_object_id : string;
  fld_name : string;
  enum_values : option JsonText;
  enum_colors : option JsonText
}.

Record EntryRow : Type := {
  ent_id : string;
  ent_object_id : string;
  ent_created_at : string;
  ent_updated_at : string
}.

Record EntryFieldRow : Type := {
  ef_entry_id : string;
  ef_field_id : string;
  ef_value : option string
}.

Record Database : Type := {
  objects : list ObjectRow;
  fields : list FieldRow;
  entries : list EntryRow;
  entry_fields : list EntryFieldRow
}.

(** *** The store and the external engine

    Every call of the engine is a separate process.  [faults] schedules
    the outcome of the coming invocations ([true]: the process fails or
    times out); once the schedule is used up every invocation
    completes.  [trace] records the invocations made so far. *)
Inductive Call : Type :=
| QueryCall (db : string)
| ExecCall (db : string).

Record Store : Type := {
  files : gmap string Database;
  faults : list bool;
  trace : list Call
}.

Definition M (A : Type) : Type := Store → A * Store.

Definition ret {A} (a : A) : M A := λ st, (a, st).

Definition bind {A B} (m : M A) (k : A → M B) : M B :=
  λ st, let '(a, st') := m st in k a st'.

Notation "'let*' x := m 'in' k" := (bind m (λ x, k))
  (at level 10, x name, m at level 100, k at level 200).

(** The next invocation is scheduled to fail. *)
Definition nextFails (st : Store) : bool :=
  match faults st with
  | f :: _ => f
  | [] => false
  end.

(** The store once the invocation [c] has been made. *)
Definition logCall (c : Call) (st : Store) : Store :=
  {| files := files st; faults := tail (faults st); trace := trace st ++ [c] |}.

(** The store after the invocations [cs]. *)
Definition logCalls (cs : list Call) (st : Store) : Store :=
  fold_left (λ st c, logCall c st) cs st.

(** The query [sql] finds a row in the file [db]. *)
Definition hit {T} (st : Store) (sql : Database → list T) (db : string) : Prop :=
  ∃ d, files st !! db = Some d ∧ sql d ≠ [].

(** Spawn one engine process; [false] when it fails. *)
Definition spawn (c : Call) : M bool :=
  λ st, (negb (nextFails st), logCall c st).

(** [execSync] of a query with JSON output: [None] when the call throws
    (process failure, or a file that holds no tables). *)
Definition execSyncJson {T} (db : string) (sql : Database → list T)
    : M (option (list T)) :=
  let* ok := spawn (QueryCall db) in
  λ st, (if ok then sql <$> files st !! db else None, st).

(** The store once the statement [sql] has run on the file [db]. *)
Definition runOn (db : string) (sql : Database → Database) (st : Store) : Store :=
  {| files := alter sql db (files st); faults := faults st; trace := trace st |}.

(** [execSync] of a statement without output: [false] when it throws. *)
Definition execSyncStmt (db : string) (sql : Database → Database) : M bool :=
  let* ok := spawn (ExecCall db) in
  λ st,
    match files st !! db with
    | Some _ => if ok then (true, runOn db sql st) else (false, st)
    | None => (false, st)
    end.

(** *** Path resolver *)

Definition resolveWorkspaceRoot (env : Env) : option string :=
  let candidates :=
    match OPENCLAW_WORKSPACE env with
    | Some dir => if Js.truthy dir then [dir] else []
    | None => []
    end ++ [NodePath.join [homedir env; ".openclaw"; "workspace"]] in
  head (filter (λ dir, existsSync env dir = true) candidates).

Definition safeResolvePath (env : Env) (relativePath : string) : option string :=
  match resolveWorkspaceRoot env with
  | None => None
  | Some root =>
      let normalized := NodePath.normalize relativePath in
      if Js.startsWith normalized ".." || Js.includes normalized "/../" then None
      else
        let absolute := NodePath.resolve (cwd env) [root; normalized] in
        if negb (Js.startsWith absolute (NodePath.resolve (cwd env) [root])) then None
        else if negb (existsSync env absolute) then None
        else Some absolute
  end.

(** The path of [relativePath] below the directory [dir], for a
    [relativePath] free of [.] and [..] segments. *)
Definition childPath (dir relativePath : string) : string :=
  if String.eqb dir "/" then "/" +:+ relativePath
  else dir +:+ "/" +:+ relativePath.

(** A path has a parent-directory traversal segment. *)
Definition hasTraversal (p : string) : Prop := ".." ∈ Js.split "/" p.

(** The file [db] holds an object named [objectName]. *)
Definition ownsObject (st : Store) (objectName db : string) : Prop :=
  ∃ d o, files st !! db = Some d ∧ o ∈ objects d ∧ obj_name o = objectName.

(** *** Database locator *)

Record Found : Type := { path : string; depth : nat }.

Definition skipped (name : string) : bool :=
  Js.startsWith name "."
  || String.eqb name "tmp" || String.eqb name "exports"
  || String.eqb name "node_modules".

(** The inner [walk] of [discoverDuckDBPaths]; the result is what the
    call pushes on [results]. *)
Fixpoint walk (env : Env) (dir : string) (depth : nat) (node : Dirent)
    {struct node} : list Found :=
  let dbFile := NodePath.join [dir; "workspace.duckdb"] in
  (if existsSync env dbFile then [{| path := dbFile; depth := depth |}] else [])
  ++ match node with
     | File _ => []
     | Directory _ None => []
     | Directory _ (Some entries) =>
         (fix each (es : list Dirent) : list Found :=
            match es with
            | [] => []
            | entry :: es' =>
                match entry with
                | File _ => []
                | Directory name _ =>
                    if skipped name then []
                    else walk env (NodePath.join [dir; name]) (S depth) entry
                end ++ each es'
            end) entries
     end.

(** [results.sort((a, b) => a.depth - b.depth)]: the sort is stable. *)
Fixpoint insertByDepth (x : Found) (l : list Found) : list Found :=
  match l with
  | [] => [x]
  | y :: l' =>
      if depth x <=? depth y then x :: l else y :: insertByDepth x l'
  end.

Definition sortByDepth (l : list Found) : list Found :=
  foldr insertByDepth [] l.

Definition discovered (env : Env) : list Found :=
  match resolveWorkspaceRoot env with
  | None => []
  | Some wsRoot => sortByDepth (walk env wsRoot 0 (workspaceTree env))
  end.

Definition discoverDuckDBPaths (env : Env) : list string :=
  path <$> discovered env.

Definition resolveDuckdbBin (env : Env) : option string :=
  let home := homedir env in
  let candidates :=
    [ NodePath.join [home; ".duckdb"; "cli"; "latest"; "duckdb"];
      NodePath.join [home; ".local"; "bin"; "duckdb"];
      "/opt/homebrew/bin/duckdb";
      "/usr/local/bin/duckdb";
      "/usr/bin/duckdb" ] in
  match filter (λ bin, existsSync env bin = true) candidates with
  | bin :: _ => Some bin
  | [] => if whichDuckdb env then Some "duckdb" else None
  end.

(** [SELECT id FROM objects WHERE name = '<name>' LIMIT 1]. *)
Definition selectObjectId (name : string) (d : Database) : list string :=
  take 1 (obj_id <$> filter (λ o, obj_name o = literal name) (objects d)).

(** The loop of [findDuckDBForObject] over the files, with the query
    [sql] it runs on each. *)
Fixpoint scanFor (sql : Database → list string) (dbPaths : list string)
    : M (option string) :=
  match dbPaths with
  | [] => ret None
  | db :: rest =>
      let* result := execSyncJson db sql in
      match result with
      | Some (_ :: _) => ret (Some db)
      | _ => scanFor sql rest
      end
  end.

Definition findDuckDBForObject (env : Env) (objectName : string)
    : M (option string) :=
  let dbPaths := discoverDuckDBPaths env in
  match dbPaths with
  | [] => ret None
  | _ =>
      match resolveDuckdbBin env with
      | None => ret None
      | Some _ =>
          let sql := selectObjectId (Js.replaceQuotes "''" objectName) in
          scanFor sql dbPaths
      end
  end.

(** *** Query/exec bridge *)

Definition duckdbQueryOnFile {T} (env : Env) (dbFilePath : string)
    (sql : Database → list T) : M (list T) :=
  match resolveDuckdbBin env with
  | None => ret []
  | Some _ =>
      let* result := execSyncJson dbFilePath sql in
      ret (default [] result)
  end.

Definition duckdbExecOnFile (env : Env) (dbFilePath : string)
    (sql : Database → Database) : M bool :=
  match resolveDuckdbBin env with
  | None => ret false
  | Some _ => execSyncStmt dbFilePath sql
  end.

(** A result row of an arbitrary query: a record of JSON values. *)
Abbreviation Row := (gmap string Js.value).

(** The [seen] set of [duckdbQueryAll]. *)
Definition seenHas (seen : list (option Js.value)) (key : option Js.value) : bool :=
  existsb (Js.sameValueZero key) seen.

(** One turn of the inner loop over the rows of a file. *)
Definition mergeRow (dedupeKey : option string)
    (acc : list (option Js.value) * list Row) (row : Row)
    : list (option Js.value) * list Row :=
  let '(seen, merged) := acc in
  match dedupeKey with
  | Some k =>
      if Js.truthy k then
        let key := row !! k in
        if seenHas seen key then acc
        else (seen ++ [key], merged ++ [row])
      else (seen, merged ++ [row])
  | None => (seen, merged ++ [row])
  end.

(** The outer loop over the discovered files. *)
Fixpoint mergeFiles (sql : Database → list Row) (dedupeKey : option string)
    (dbPaths : list string) (acc : list (option Js.value) * list Row)
    : M (list (option Js.value) * list Row) :=
  match dbPaths with
  | [] => ret acc
  | db :: rest =>
      let* result := execSyncJson db sql in
      mergeFiles sql dedupeKey rest
        (fold_left (mergeRow dedupeKey) (default [] result) acc)
  end.

(** The rows the query [sql] returns on the file [db] when the engine
    runs: none for a file without tables. *)
Definition fileRows {T} (st : Store) (sql : Database → list T) (db : string)
    : list T :=
  default [] (sql <$> files st !! db).

(** The rows of the files [dbPaths], one file after the other. *)
Definition rowsIn {T} (st : Store) (sql : Database → list T)
    (dbPaths : list string) : list T :=
  concat (fileRows st sql <$> dbPaths).

(** The values the rows [rows] carry under the key [k]. *)
Definition keysOf (k : string) (rows : list Row) : list (option Js.value) :=
  (λ row : Row, row !! k) <$> rows.

(** Shadowing, as the specification words it: of the rows [rows], taken in
    order after the rows [merged] already kept, those whose value under
    [k] was not seen before. *)
Fixpoint unseen (k : string) (merged rows : list Row) : list Row :=
  match rows with
  | [] => []
  | row :: rest =>
      if seenHas (keysOf k merged) (row !! k) then unseen k merged rest
      else row :: unseen k (merged ++ [row]) rest
  end.

Definition duckdbQueryAll (env : Env) (sql : Database → list Row)
    (dedupeKey : option string) : M (list Row) :=
  let dbPaths := discoverDuckDBPaths env in
  match dbPaths with
  | [] => ret []
  | _ =>
      match resolveDuckdbBin env with
      | None => ret []
      | Some _ =>
          let* acc := mergeFiles sql dedupeKey dbPaths ([], []) in
          ret acc.2
      end
  end.

(** The rows the files [dbPaths] answer with, one file after the other,
    when the coming invocations fail as [schedule] tells: a file whose
    invocation fails answers nothing. *)
Fixpoint answered {T} (st : Store) (sql : Database → list T)
    (schedule : list bool) (dbPaths : list string) : list T :=
  match dbPaths with
  | [] => []
  | db :: rest =>
      (if default false (head schedule) then [] else fileRows st sql db)
      ++ answered st sql (tail schedule) rest
  end.

(** *** The primary database *)

(** [duckdbPath]: the database of the root, else the first one that
    [discoverDuckDBPaths(root)] reports. *)
Definition duckdbPath (env : Env) : option string :=
  match resolveWorkspaceRoot env with
  | None => None
  | Some root =>
      let rootDb := NodePath.join [root; "workspace.duckdb"] in
      if existsSync env rootDb then Some rootDb
      else
        let all := path <$> sortByDepth (walk env root 0 (workspaceTree env)) in
        head all
  end.

Definition duckdbQuery {T} (env : Env) (sql : Database → list T) : M (list T) :=
  match duckdbPath env with
  | None => ret []
  | Some db =>
      match resolveDuckdbBin env with
      | None => ret []
      | Some _ =>
          let* result := execSyncJson db sql in
          ret (default [] result)
      end
  end.

Definition duckdbExec (env : Env) (sql : Database → Database) : M bool :=
  match duckdbPath env with
  | None => ret false
  | Some db => duckdbExecOnFile env db sql
  end.

(** *** Paths told to the agent and scopes of the databases *)

Definition resolveAgentWorkspacePrefix (env : Env) : option string :=
  match resolveWorkspaceRoot env with
  | None => None
  | Some root =>
      if negb (Js.truthy root) then None
      else if Js.startsWith root "/" then
        let cwd := cwd env in
        let repoRoot :=
          if Js.endsWith cwd (NodePath.join ["apps"; "web"])
          then NodePath.resolve cwd [cwd; ".."; ".."]
          else cwd in
        let rel := NodePath.relative cwd repoRoot root in
        if Js.startsWith rel ".." then Some root
        else Some (if Js.truthy rel then rel else root)
      else Some root
  end.

Definition duckdbRelativeScope (env : Env) (dbPath : string) : string :=
  match resolveWorkspaceRoot env with
  | None => ""
  | Some root =>
      if negb (Js.truthy root) then ""
      else
        let dir := NodePath.resolve (cwd env) [dbPath; ".."] in
        let rel := NodePath.relative (cwd env) root dir in
        if String.eqb rel "." then "" else rel
  end.

(** *** The command line of the bridge *)

(** [sql.replace(/'/g, "'\\''")]. *)
Definition shellEscape (sql : string) : string := Js.replaceQuotes "'\''" sql.

(** [`'${bin}' -json '${db}' '${escapedSql}'`]. *)
Definition queryCommand (bin db sql : string) : string :=
  "'" +:+ bin +:+ "' -json '" +:+ db +:+ "' '" +:+ shellEscape sql +:+ "'".

(** [`'${bin}' '${dbFilePath}' '${escapedSql}'`]. *)
Definition execCommand (bin db sql : string) : string :=
  "'" +:+ bin +:+ "' '" +:+ db +:+ "' '" +:+ shellEscape sql +:+ "'".

(** *** Files of the workspace *)

Definition safeResolveNewPath (env : Env) (relativePath : string) : option string :=
  match resolveWorkspaceRoot env with
  | None => None
  | Some root =>
      let normalized := NodePath.normalize relativePath in
      if Js.startsWith normalized ".." || Js.includes normalized "/../" then None
      else
        let absolute := NodePath.resolve (cwd env) [root; normalized] in
        if negb (Js.startsWith absolute (NodePath.resolve (cwd env) [root])) then None
        else Some absolute
  end.

Definition DB_EXTENSIONS : list string :=
  ["duckdb"; "sqlite"; "sqlite3"; "db"; "postgres"].

(** [filename.split(".").pop()?.toLowerCase()]. *)
Definition extension (filename : string) : option string :=
  Js.toLowerCase <$> last (Js.split "." filename).

Definition isDatabaseFile (filename : string) : bool :=
  match extension filename with
  | Some ext => if Js.truthy ext then Js.arrayIncludes DB_EXTENSIONS ext else false
  | None => false
  end.

(** [/^\.object\.yaml$/], [/\.wal$/], [/\.tmp$/]. *)
Definition ALWAYS_SYSTEM_PATTERNS : list (string → bool) :=
  [ λ s, String.eqb s ".object.yaml";
    λ s, Js.endsWith s ".wal";
    λ s, Js.endsWith s ".tmp" ].

(** [/^workspace\.duckdb/], [/^workspace_context\.yaml$/]. *)
Definition ROOT_ONLY_SYSTEM_PATTERNS : list (string → bool) :=
  [ λ s, Js.startsWith s "workspace.duckdb";
    λ s, String.eqb s "workspace_context.yaml" ].

Definition isSystemFile (relativePath : string) : bool :=
  let base := default "" (last (Js.split "/" relativePath)) in
  if existsb (λ p, p base) ALWAYS_SYSTEM_PATTERNS then true
  else
    let isRoot := negb (Js.includes relativePath "/") in
    isRoot && existsb (λ p, p base) ROOT_ONLY_SYSTEM_PATTERNS.

Inductive FileType : Type := markdown | yaml | text.

Record WorkspaceFile : Type := {
  content : string;
  type : FileType
}.

(** [readWorkspaceFile], with [readFileSync(absolute, "utf-8")] given by
    [readFileSync]: [None] when the call throws. *)
Definition readWorkspaceFile (env : Env) (readFileSync : string → option string)
    (relativePath : string) : option WorkspaceFile :=
  match safeResolvePath env relativePath with
  | None => None
  | Some absolute =>
      match readFileSync absolute with
      | None => None
      | Some content =>
          let ext := extension relativePath in
          let type :=
            if decide (ext = Some "md" ∨ ext = Some "mdx") then markdown
            else if decide (ext = Some "yaml" ∨ ext = Some "yml") then yaml
            else text in
          Some {| content := content; type := type |}
      end
  end.

(** *** Relation values *)


(** *** [parseSimpleYaml] *)

(** The values the parser stores; a number is kept as its numeral. *)
Inductive YamlValue : Type :=
| YString (s : string)
| YBool (b : bool)
| YNull
| YNumber (numeral : string).

(** The longest prefix of characters that satisfy [p], and what follows
    it: the way a greedy class of a regular expression consumes. *)
Fixpoint span (p : ascii → bool) (s : string) : string * string :=
  match s with
  | EmptyString => ("", "")
  | String c s' =>
      if p c then (String c (span p s').1, (span p s').2) else ("", s)
  end.

(** [[\w_-]]. *)
Definition isKeyChar (c : ascii) : bool := Js.isWordChar c || Ascii.eqb c "-".

(** The line terminators, which [.] does not match, among the code units
    a Rocq string can hold: LF and CR. *)
Definition isLineTerminator (c : ascii) : bool :=
  Ascii.eqb c "010" || Ascii.eqb c "013".

(** The last character of [s] that [.] matches. *)
Fixpoint lastDot (s : string) : option ascii :=
  match s with
  | EmptyString => None
  | String c s' =>
      match lastDot s' with
      | Some d => Some d
      | None => if isLineTerminator c then None else Some c
      end
  end.

(** [line.match(...)] for the pattern of the parser: at the start of the
    line a key, which is a [\w] followed by characters of [[\w_-]], then
    white space, a colon, white space, and a text of one character or
    more that [.] matches.  The two groups of the match are returned.
    Each class takes all it can.  The white space after the colon gives
    characters back only when nothing follows it: the text is then the
    last character of it that is no line terminator. *)
Definition matchLine (line : string) : option (string * string) :=
  match line with
  | EmptyString => None
  | String first _ =>
      if negb (Js.isWordChar first) then None
      else
        let '(key, rest) := span isKeyChar line in
        match (span Js.isWhiteSpace rest).2 with
        | String ":"%char rest =>
            let '(blank, found) := span Js.isWhiteSpace rest in
            match found with
            | String _ _ =>
                Some (key, (span (λ c, negb (isLineTerminator c)) found).1)
            | EmptyString =>
                match lastDot blank with
                | Some c => Some (key, String c "")
                | None => None
                end
            end
        | _ => None
        end
  end.

(** [value.slice(1, -1)]. *)
Fixpoint dropLast (s : string) : string :=
  match s with
  | EmptyString => ""
  | String c EmptyString => ""
  | String c s' => String c (dropLast s')
  end.

Definition slice1 (value : string) : string :=
  match value with
  | EmptyString => ""
  | String _ s => dropLast s
  end.

(** [/^-?\d+(\.\d+)?$/.test(value)]. *)
Definition isNumeral (value : string) : bool :=
  let unsigned := match value with
                  | String "-"%char s => s
                  | _ => value
                  end in
  let '(whole, rest) := span Js.isDigit unsigned in
  negb (String.eqb whole "")
  && match rest with
     | EmptyString => true
     | String "."%char fraction =>
         negb (String.eqb fraction "")
         && String.eqb (span Js.isDigit fraction).2 ""
     | _ => false
     end.

(** [value.startsWith(q) && value.endsWith(q)]. *)
Definition quotedBy (q : string) (value : string) : bool :=
  Js.startsWith value q && Js.endsWith value q.

Definition doubleQuote : string := String "034" "".

(** What becomes of a value once the quotes are off: booleans, [null]
    and numbers are parsed, all else is a string. *)
Definition classify (value : string) : YamlValue :=
  if String.eqb value "true" then YBool true
  else if String.eqb value "false" then YBool false
  else if String.eqb value "null" then YNull
  else if isNumeral value then YNumber value
  else YString value.

(** The value of [match[2]]. *)
Definition scalar (found : string) : YamlValue :=
  let value := Js.trim found in
  let value := if quotedBy doubleQuote value || quotedBy "'" value
               then slice1 value else value in
  classify value.

(** The result while it is built: its own properties, and whether its
    prototype is [null] by now. *)
Record YamlObject : Type := {
  own : gmap string YamlValue;
  nullProto : bool
}.

(** [result[key] = value].  On an object that has a prototype the key
    [__proto__] is the accessor of [Object.prototype]: it sets the
    prototype to [null] for the value [null], and does nothing for the
    other values, which are no objects. *)
Definition assign (key : string) (value : YamlValue) (result : YamlObject)
    : YamlObject :=
  if String.eqb key "__proto__" && negb (nullProto result) then
    match value with
    | YNull => {| own := own result; nullProto := true |}
    | _ => result
    end
  else {| own := <[key := value]> (own result); nullProto := nullProto result |}.

(** What one line assigns, if anything. *)
Definition entry (line : string) : option (string * YamlValue) :=
  if Js.startsWith (Js.trim line) "#" || negb (Js.truthy (Js.trim line)) then None
  else
    match matchLine line with
    | Some (key, found) => Some (key, scalar found)
    | None => None
    end.

Definition parseSimpleYaml (content : string) : YamlObject :=
  fold_left (λ result line,
               match entry line with
               | Some (key, value) => assign key value result
               | None => result
               end)
    (Js.split "010" content) {| own := ∅; nullProto := false |}.

End Workspace.

(** ** [objects/[name]/route.ts]: the client-side pivot *)

Module ObjectRoute.

Record EavRow : Type := {
  entry_id : string;
  created_at : string;
  updated_at : string;
  field_name : string;
  value : option string
}.

(** A record built by the pivot: its own properties, and whether its
    prototype is [null] by now.  It begins as an object literal, whose
    prototype is [Object.prototype]. *)
Record Entry : Type := {
  props : gmap string Js.value;
  nullProto : bool
}.

(** The records built by the pivot are objects reached through
    references: [grouped] maps an entry id to the reference of its
    record, [heap] holds the records.  A write through the local
    [entry] is a write to the record the [Map] holds. *)
Record Pivot : Type := {
  heap : list Entry;
  grouped : list (string * nat)
}.

(** [grouped.get(key)]. *)
Definition mapGet (grouped : list (string * nat)) (key : string) : option nat :=
  snd <$> List.find (λ kv, String.eqb kv.1 key) grouped.

Definition jsonOfValue (v : option string) : Js.value :=
  match v with
  | Some s => Js.Str s
  | None => Js.Null
  end.

Definition seed (row : EavRow) : Entry :=
  {| props := <["updated_at" := Js.Str (updated_at row)]>
                (<["created_at" := Js.Str (created_at row)]>
                   (<["entry_id" := Js.Str (entry_id row)]> ∅));
     nullProto := false |}.

(** [entry[key] = value], for a value that is a string or [null].  While
    the record has its prototype, the key [__proto__] is the accessor of
    [Object.prototype] and no property of the record: the assignment
    sets the prototype to [null] for the value [null], and does nothing
    for a string.  Once the prototype is [null] the key is one like the
    others. *)
Definition assignField (key : string) (value : option string) (entry : Entry)
    : Entry :=
  if String.eqb key "__proto__" && negb (nullProto entry) then
    match value with
    | None => {| props := props entry; nullProto := true |}
    | Some _ => entry
    end
  else {| props := <[key := jsonOfValue value]> (props entry);
          nullProto := nullProto entry |}.

(** One turn of the loop of [pivotEavRows]. *)
Definition pivotRow (s : Pivot) (row : EavRow) : Pivot :=
  let '(entry, s) :=
    match mapGet (grouped s) (entry_id row) with
    | Some entry => (entry, s)
    | None =>
        let entry := length (heap s) in
        (entry, {| heap := heap s ++ [seed row];
                   grouped := grouped s ++ [(entry_id row, entry)] |})
    end in
  if Js.truthy (field_name row) then
    {| heap := alter (assignField (field_name row) (value row)) entry (heap s);
       grouped := grouped s |}
  else s.

(** [Array.from(grouped.values())]. *)
Definition mapValues (s : Pivot) : list Entry :=
  omap (λ kv : string * nat, heap s !! kv.2) (grouped s).

Definition pivotEavRows (rows : list EavRow) : list Entry :=
  mapValues (fold_left pivotRow rows {| heap := []; grouped := [] |}).

(** *** The pivot, entry by entry

    Group the rows by entry id, seed each group with the entry id and the
    two dates of its first row, then run the assignments of the rows of
    the group. *)

(** The distinct entry ids of the rows, in the order they first appear. *)
Definition entryIds (rows : list EavRow) : list string :=
  fold_left (λ ids row, if decide (entry_id row ∈ ids) then ids
                        else ids ++ [entry_id row]) rows [].

(** The rows of one entry. *)
Definition groupOf (id : string) (rows : list EavRow) : list EavRow :=
  filter (λ row, entry_id row = id) rows.

Definition setField (entry : Entry) (row : EavRow) : Entry :=
  if Js.truthy (field_name row)
  then assignField (field_name row) (value row) entry
  else entry.

(** The record of one entry; none for an entry without rows. *)
Definition recordOf (id : string) (rows : list EavRow) : option Entry :=
  match groupOf id rows with
  | [] => None
  | first :: _ => Some (fold_left setField (groupOf id rows) (seed first))
  end.

Definition pivotSpec (rows : list EavRow) : list Entry :=
  omap (λ id, recordOf id rows) (entryIds rows).

(** The keys the pivot seeds a record with. *)
Definition seedKeys : list string := ["entry_id"; "created_at"; "updated_at"].

(** *** The name test and the display field *)

(** [/^[a-zA-Z_][a-zA-Z0-9_-]*$/.test(name)], the test of [GET]. *)
Definition validObjectName (name : string) : bool :=
  match name with
  | EmptyString => false
  | String c rest =>
      (Js.isAsciiLetter c || Ascii.eqb c "_")
      && forallb (λ c, Js.isWordChar c || Ascii.eqb c "-") (list_ascii_of_string rest)
  end.

(** What is left of [s] behind the prefix [w], letters compared without
    regard to case; [w] is in small letters. *)
Fixpoint dropNoCase (w s : string) : option string :=
  match w, s with
  | EmptyString, _ => Some s
  | String _ _, EmptyString => None
  | String a w', String b s' =>
      if Ascii.eqb a (Js.lowerChar b) then dropNoCase w' s' else None
  end.

(** [/\bw\b/i.test(s)] for a word [w] of small letters: [w] occurs in
    [s], with no word character right before it and none right after.
    [prevWord] tells whether the character before [s] is a word
    character. *)
Fixpoint testWord (w : string) (prevWord : bool) (s : string) : bool :=
  negb prevWord
  && match dropNoCase w s with
     | Some EmptyString => true
     | Some (String c _) => negb (Js.isWordChar c)
     | None => false
     end
  || match s with
     | EmptyString => false
     | String c s' => testWord w (Js.isWordChar c) s'
     end.

(** The columns of an object and of a field that [resolveDisplayField]
    reads; a [display_field] of [None] is [null] or absent. *)
Record ObjectRow : Type := {
  display_field : option string
}.

Record FieldRow : Type := {
  name : string;
  type : string
}.

Definition resolveDisplayField (obj : ObjectRow) (objFields : list FieldRow)
    : string :=
  let heuristic :=
    match List.find (λ f, testWord "name" false (name f)
                          || testWord "title" false (name f)) objFields with
    | Some nameField => name nameField
    | None =>
        match List.find (λ f, String.eqb (type f) "text") objFields with
        | Some textField => name textField
        | None =>
            match objFields with
            | first :: _ => name first
            | [] => "id"
            end
        end
    end in
  match display_field obj with
  | Some shown => if Js.truthy shown then shown else heuristic
  | None => heuristic
  end.

End ObjectRoute.

(** ** HTTP responses of the routes *)

Module Http.

Record Response : Type := {
  status : nat;
  body : list (string * Js.value)
}.

(** [Response.json(body, { status })]. *)
Definition json (status : nat) (body : list (string * Js.value)) : Response :=
  {| status := status; body := body |}.

Definition error (status : nat) (message : string) : Response :=
  json status [("error", Js.Str message)].

(** The answer to a request whose handler throws: the handler returns no
    response, and the framework answers with the status 500 and nothing
    of the route in the body. *)
Definition uncaught : Response := {| status := 500; body := [] |}.

(** What [await req.json()] gives a handler: the promise is rejected when
    the body is no JSON text; the JSON text [null] gives [null], of which
    no property can be read; every other JSON value is kept as what the
    handler reads of it. *)
Inductive Payload (A : Type) : Type :=
| Rejected
| JsonNull
| Json (read : A).

Arguments Rejected {A}.
Arguments JsonNull {A}.
Arguments Json {A} read.

Definition isIdentStart (c : ascii) : bool :=
  let n := nat_of_ascii c in
  (65 <=? n) && (n <=? 90) || (97 <=? n) && (n <=? 122) || (n =? 95).

Definition isIdentChar (c : ascii) : bool :=
  let n := nat_of_ascii c in
  isIdentStart c || (48 <=? n) && (n <=? 57).

Fixpoint allChars (p : ascii → bool) (s : string) : bool :=
  match s with
  | EmptyString => true
  | String c s' => p c && allChars p s'
  end.

(** [/^[a-zA-Z_][a-zA-Z0-9_]*$/.test(name)]. *)
Definition validName (name : string) : bool :=
  match name with
  | EmptyString => false
  | String c rest => isIdentStart c && allChars isIdentChar rest
  end.

End Http.

(** ** [fields/[fieldId]/enum-rename/route.ts] *)

Module EnumRename.
Import Workspace Sql Http.

(** The request body; [None] is a property that is absent or not a
    string. *)
Record Body : Type := {
  oldValue : option string;
  newValue : option string
}.

(** [SELECT id, enum_values, enum_colors FROM fields
     WHERE id = '<fieldId>' AND object_id = '<objectId>']. *)
Definition selectField (fieldId objectId : string) (d : Database) : list FieldRow :=
  filter (λ f, fld_id f = literal fieldId ∧ fld_object_id f = literal objectId)
    (fields d).

Definition setEnumValues (json : JsonText) (f : FieldRow) : FieldRow :=
  {| fld_id := fld_id f; fld_object_id := fld_object_id f;
     fld_name := fld_name f; enum_values := Some json;
     enum_colors := enum_colors f |}.

(** [UPDATE fields SET enum_values = '<json>' WHERE id = '<fieldId>'].  The
    JSON text is a literal as well; it is kept as the array it encodes. *)
Definition updateEnumValues (json : JsonText) (fieldId : string) (d : Database)
    : Database :=
  {| objects := objects d;
     fields := (λ f, if decide (fld_id f = literal fieldId)
                     then setEnumValues json f else f) <$> fields d;
     entries := entries d;
     entry_fields := entry_fields d |}.

Definition setValue (v : string) (r : EntryFieldRow) : EntryFieldRow :=
  {| ef_entry_id := ef_entry_id r; ef_field_id := ef_field_id r;
     ef_value := Some v |}.

(** The rows selected by [WHERE field_id = '<fieldId>' AND value = '<v>']:
    a [NULL] value equals nothing. *)
Definition holds (fieldId v : string) (r : EntryFieldRow) : Prop :=
  ef_field_id r = literal fieldId ∧ ef_value r = Some (literal v).

#[global] Instance holds_dec fieldId v r : Decision (holds fieldId v r).
Proof. unfold holds. apply _. Defined.

(** [UPDATE entry_fields SET value = '<new>'
     WHERE field_id = '<fieldId>' AND value = '<old>']. *)
Definition updateEntryValues (new fieldId old : string) (d : Database) : Database :=
  {| objects := objects d;
     fields := fields d;
     entries := entries d;
     entry_fields := (λ r, if decide (holds fieldId old r)
                           then setValue (literal new) r else r)
                     <$> entry_fields d |}.

(** [field.enum_values ? JSON.parse(field.enum_values) : []]; [None]
    when [JSON.parse] throws. *)
Definition parseEnumValues (column : option JsonText) : option (list string) :=
  match column with
  | None | Some EmptyText => Some []
  | Some (ArrayText items) => Some items
  | Some (InvalidText _) => None
  end.

(** The route from the lookup of the old value on (the [indexOf] of the
    source and what follows it), for the parsed [enumValues]. *)
Definition renameValue (env : Env) (dbFile fieldId oldValue newValue : string)
    (enumValues : list string) : M Response :=
  match Js.indexOf enumValues (Js.trim oldValue) with
  | None => ret (error 404 ("Enum value '" +:+ oldValue +:+ "' not found"))
  | Some idx =>
      if Js.arrayIncludes enumValues (Js.trim newValue)
      then ret (error 409 ("Enum value '" +:+ newValue +:+ "' already exists"))
      else
        let enumValues := <[idx := Js.trim newValue]> enumValues in
        let newEnumJson := ArrayText enumValues in
        let* _ := duckdbExecOnFile env dbFile
                    (updateEnumValues newEnumJson (sqlEscape fieldId)) in
        let* updatedEntries :=
          duckdbExecOnFile env dbFile
            (updateEntryValues (sqlEscape (Js.trim newValue)) (sqlEscape fieldId)
               (sqlEscape (Js.trim oldValue))) in
        ret (json 200 [("ok", Js.Bool true); ("updated", Js.Bool updatedEntries)])
  end.

Definition PATCH (env : Env) (name fieldId : string) (body : Body) : M Response :=
  if negb (validName name) then ret (error 400 "Invalid object name")
  else
    let* dbFile := findDuckDBForObject env name in
    match dbFile with
    | None => ret (error 404 "DuckDB not found")
    | Some dbFile =>
    match oldValue body, newValue body with
    | Some oldValue, Some newValue =>
      if negb (Js.truthy oldValue) || negb (Js.truthy newValue)
      then ret (error 400 "oldValue and newValue are required")
      else if String.eqb (Js.trim oldValue) (Js.trim newValue)
      then ret (json 200 [("ok", Js.Bool true); ("changed", Js.Num 0)])
      else
        let* objects := duckdbQueryOnFile env dbFile (selectObjectId (sqlEscape name)) in
        match objects with
        | [] => ret (error 404 ("Object '" +:+ name +:+ "' not found"))
        | objectId :: _ =>
        let* fields := duckdbQueryOnFile env dbFile
                         (selectField (sqlEscape fieldId) (sqlEscape objectId)) in
        match fields with
        | [] => ret (error 404 "Field not found")
        | field :: _ =>
        match parseEnumValues (enum_values field) with
        | None => ret (error 500 "Invalid enum_values in field")
        | Some enumValues =>
            renameValue env dbFile fieldId oldValue newValue enumValues
        end end end
    | _, _ => ret (error 400 "oldValue and newValue are required")
    end end.

(** *** The rename as the specification words it *)

(** The request reaches the field: the name is an identifier, the locator
    returns [dbFile], whose tables are [d]; [objectId] is the id of the
    first object of that name, [field] the first field [fieldId] of that
    object and [enumValues] its enum values. *)
Record FieldFound (env : Env) (st : Store) (name fieldId dbFile : string)
    (d : Database) (objectId : string) (field : FieldRow)
    (enumValues : list string) : Prop := {
  found_name : validName name = true;
  found_file : (findDuckDBForObject env name st).1 = Some dbFile;
  found_tables : files st !! dbFile = Some d;
  found_object : head (selectObjectId (sqlEscape name) d) = Some objectId;
  found_field :
    head (selectField (sqlEscape fieldId) (sqlEscape objectId) d) = Some field;
  found_values : parseEnumValues (enum_values field) = Some enumValues
}.

(** The definition of a field once its enum values are [enumValues]. *)
Definition renamedField (fieldId : string) (enumValues : list string)
    (f : FieldRow) : FieldRow :=
  if decide (fld_id f = fieldId) then setEnumValues (ArrayText enumValues) f else f.

(** A stored value once [oldValue] of the field is [newValue]. *)
Definition renamedEntry (fieldId oldValue newValue : string) (r : EntryFieldRow)
    : EntryFieldRow :=
  if decide (ef_field_id r = fieldId ∧ ef_value r = Some oldValue)
  then setValue newValue r else r.

(** The tables once the value at index [idx] is renamed. *)
Definition renamed (fieldId oldValue newValue : string) (idx : nat)
    (enumValues : list string) (d : Database) : Database :=
  {| objects := objects d;
     fields := renamedField fieldId (<[idx := newValue]> enumValues) <$> fields d;
     entries := entries d;
     entry_fields := renamedEntry fieldId oldValue newValue <$> entry_fields d |}.

(** The number of stored values the cascading update changes. *)
Definition changedRows (fieldId oldValue : string) (d : Database) : nat :=
  length (filter (λ r, ef_field_id r = fieldId ∧ ef_value r = Some oldValue)
            (entry_fields d)).

End EnumRename.

(** ** [entries/bulk-delete/route.ts] *)

Module BulkDelete.
Import Workspace Sql Http.

(** What the handler reads of the request body: [None] is an [entryIds]
    that is not an array, else the elements of the array, strings or
    not. *)
Record Body : Type := {
  entryIds : option (list Js.value)
}.

(** [entryIds.map((id) => sqlEscape(id))]: [sqlEscape] calls [replace] on
    its argument, which throws on an element that is no string; [None] is
    that exception. *)
Fixpoint escapeAll (entryIds : list Js.value) : option (list string) :=
  match entryIds with
  | [] => Some []
  | Js.Str id :: rest => cons (sqlEscape id) <$> escapeAll rest
  | _ :: _ => None
  end.

(** [entry_id IN (<idList>)], for the list
    [entryIds.map(id => `'${sqlEscape(id)}'`).join(",")]. *)
Definition inList (idList : list string) (id : string) : Prop :=
  id ∈ literal <$> idList.

#[global] Instance inList_dec idList id : Decision (inList idList id).
Proof. unfold inList. apply _. Defined.

(** [DELETE FROM entry_fields WHERE entry_id IN (<idList>)]. *)
Definition deleteEntryFields (idList : list string) (d : Database) : Database :=
  {| objects := objects d;
     fields := fields d;
     entries := entries d;
     entry_fields := filter (λ r, ¬ inList idList (ef_entry_id r)) (entry_fields d) |}.

(** [DELETE FROM entries WHERE id IN (<idList>) AND object_id = '<objectId>']. *)
Definition deleteEntries (idList : list string) (objectId : string) (d : Database)
    : Database :=
  {| objects := objects d;
     fields := fields d;
     entries := filter (λ e, ¬ (inList idList (ent_id e)
                                ∧ ent_object_id e = literal objectId))
                  (entries d);
     entry_fields := entry_fields d |}.

(** [POST].  The body is read outside of any [try]: a body that cannot
    be read, and the body [null], whose [entryIds] cannot be read, make
    the handler throw once the file is located; an element of [entryIds]
    that is no string makes it throw before the first statement. *)
Definition POST (env : Env) (name : string) (payload : Payload Body) : M Response :=
  if negb (validName name) then ret (error 400 "Invalid object name")
  else
    let* dbFile := findDuckDBForObject env name in
    match dbFile with
    | None => ret (error 404 "DuckDB not found")
    | Some dbFile =>
    match payload with
    | Rejected | JsonNull => ret uncaught
    | Json body =>
    match entryIds body with
    | None | Some [] => ret (error 400 "entryIds must be a non-empty array")
    | Some entryIds =>
        let* objects := duckdbQueryOnFile env dbFile (selectObjectId (sqlEscape name)) in
        match objects with
        | [] => ret (error 404 ("Object '" +:+ name +:+ "' not found"))
        | objectId :: _ =>
            match escapeAll entryIds with
            | None => ret uncaught
            | Some idList =>
                let* _ := duckdbExecOnFile env dbFile (deleteEntryFields idList) in
                let* _ := duckdbExecOnFile env dbFile
                            (deleteEntries idList (sqlEscape objectId)) in
                ret (json 200 [("ok", Js.Bool true);
                               ("deletedCount", Js.Num (Z.of_nat (length entryIds)))])
            end
        end
    end end end.

(** *** The deletion as the specification words it *)

(** The request reaches the object: the name is an identifier, the locator
    returns [dbFile], whose tables are [d], and [objectId] is the id of
    the first object of that name. *)
Record ObjectFound (env : Env) (st : Store) (name dbFile : string)
    (d : Database) (objectId : string) : Prop := {
  found_name : validName name = true;
  found_file : (findDuckDBForObject env name st).1 = Some dbFile;
  found_tables : files st !! dbFile = Some d;
  found_object : head (selectObjectId (sqlEscape name) d) = Some objectId
}.

(** The tables without the values of the entries [ids] and without the
    entries [ids] of the object [objectId]. *)
Definition deleted (ids : list string) (objectId : string) (d : Database)
    : Database :=
  {| objects := objects d;
     fields := fields d;
     entries := filter (λ e, ¬ (ent_id e ∈ ids ∧ ent_object_id e = objectId))
                  (entries d);
     entry_fields := filter (λ r, ef_entry_id r ∉ ids) (entry_fields d) |}.

(** The number of entries a request removes. *)
Definition removedEntries (d d' : Database) : nat :=
  length (entries d) - length (entries d').

End BulkDelete.

(** ** [entries/route.ts] *)

Module CreateEntry.
Import Workspace Sql Http.

(** [SELECT uuid()::VARCHAR as id], for the identifier [uuid] the engine
    draws. *)
Definition selectUuid (uuid : string) (d : Database) : list string := [uuid].

(** [INSERT INTO entries (id, object_id, created_at, updated_at)
     VALUES ('<id>', '<objectId>', '<now>', '<now>')]. *)
Definition insertEntry (id objectId now : string) (d : Database) : Database :=
  {| objects := objects d;
     fields := fields d;
     entries := entries d ++ [{| ent_id := literal id;
                                 ent_object_id := literal objectId;
                                 ent_created_at := literal now;
                                 ent_updated_at := literal now |}];
     entry_fields := entry_fields d |}.

(** [SELECT id, name FROM fields WHERE object_id = '<objectId>']. *)
Definition selectFields (objectId : string) (d : Database) : list FieldRow :=
  filter (λ f, fld_object_id f = literal objectId) (fields d).

(** [new Map(dbFields.map((f) => [f.name, f.id]))]: of two fields of one
    name the later one counts. *)
Definition fieldMapOf (dbFields : list FieldRow) : gmap string string :=
  list_to_map (reverse ((λ f, (fld_name f, fld_id f)) <$> dbFields)).

(** [INSERT INTO entry_fields (entry_id, field_id, value)
     VALUES ('<entryId>', '<fieldId>', '<value>')]. *)
Definition insertEntryField (entryId fieldId value : string) (d : Database)
    : Database :=
  {| objects := objects d;
     fields := fields d;
     entries := entries d;
     entry_fields := entry_fields d ++ [{| ef_entry_id := literal entryId;
                                           ef_field_id := literal fieldId;
                                           ef_value := Some (literal value) |}] |}.

(** What the handler reads of the request body.  [fields] is [None] when
    the body has no [fields], or one that is no object; else it holds the
    pairs [Object.entries(body.fields)] yields, a value being [None] for
    [null] and else the text [String(value)] gives. *)
Record Body : Type := {
  fields : option (list (string * option string))
}.

(** [let body = {}; try { body = await req.json(); } catch {}]: a body
    that cannot be read leaves the empty object; [None] is the body
    [null]. *)
Definition bodyOf (payload : Payload Body) : option Body :=
  match payload with
  | Rejected => Some {| fields := None |}
  | JsonNull => None
  | Json body => Some body
  end.

(** The loop over [Object.entries(body.fields)]. *)
Fixpoint insertFields (env : Env) (dbFile entryId : string)
    (fieldMap : gmap string string) (pairs : list (string * option string))
    : M unit :=
  match pairs with
  | [] => ret tt
  | (fieldName, value) :: rest =>
      match fieldMap !! fieldName, value with
      | Some fieldId, Some value =>
          if Js.truthy fieldId then
            let* _ := duckdbExecOnFile env dbFile
                        (insertEntryField (sqlEscape entryId) (sqlEscape fieldId)
                           (sqlEscape value)) in
            insertFields env dbFile entryId fieldMap rest
          else insertFields env dbFile entryId fieldMap rest
      | _, _ => insertFields env dbFile entryId fieldMap rest
      end
  end.

(** [POST], for the identifier [uuid] the engine draws and the time [now]
    that [new Date().toISOString()] gives.  The body is read once the
    entry is inserted, and [body.fields] is read outside of the [try]: of
    the body [null] it cannot be read, and the handler throws. *)
Definition POST (env : Env) (uuid now : string) (name : string)
    (payload : Payload Body) : M Response :=
  if negb (validName name) then ret (error 400 "Invalid object name")
  else
    let* dbFile := findDuckDBForObject env name in
    match dbFile with
    | None => ret (error 404 "DuckDB not found")
    | Some dbFile =>
    let* objects := duckdbQueryOnFile env dbFile (selectObjectId (sqlEscape name)) in
    match objects with
    | [] => ret (error 404 ("Object '" +:+ name +:+ "' not found"))
    | objectId :: _ =>
    let* idRows := duckdbQueryOnFile env dbFile (selectUuid uuid) in
    match (match idRows with
           | entryId :: _ => if Js.truthy entryId then Some entryId else None
           | [] => None
           end) with
    | None => ret (error 500 "Failed to generate UUID")
    | Some entryId =>
    let* ok := duckdbExecOnFile env dbFile
                 (insertEntry (sqlEscape entryId) (sqlEscape objectId) now) in
    if negb ok then ret (error 500 "Failed to create entry")
    else
      match bodyOf payload with
      | None => ret uncaught
      | Some body =>
          let* _ :=
            match fields body with
            | Some pairs =>
                let* dbFields := duckdbQueryOnFile env dbFile
                                   (selectFields (sqlEscape objectId)) in
                insertFields env dbFile entryId (fieldMapOf dbFields) pairs
            | None => ret tt
            end in
          ret (json 201 [("entryId", Js.Str entryId); ("ok", Js.Bool true)])
      end
    end end end.

(** *** The creation as the caller sees it *)

(** The request reaches the object: the name is an identifier, the locator
    returns [dbFile], whose tables are [d], and [objectId] is the id of
    the first object of that name. *)
Record ObjectFound (env : Env) (st : Store) (name dbFile : string)
    (d : Database) (objectId : string) : Prop := {
  found_name : validName name = true;
  found_file : (findDuckDBForObject env name st).1 = Some dbFile;
  found_tables : files st !! dbFile = Some d;
  found_object : head (selectObjectId (sqlEscape name) d) = Some objectId
}.









End CreateEntry.

(** ** [upload/route.ts] *)

Module Upload.
Import Workspace Http.

(** The [file] field of the form: the name and the bytes of a [File]. *)
Record FileField : Type := {
  name : string;
  data : string
}.

(** [file.size]. *)
Definition size (file : FileField) : N := N.of_nat (String.length (data file)).

Definition MAX_SIZE : N := 25 * 1024 * 1024.

Definition isSafeChar (c : ascii) : bool :=
  Js.isAsciiLetter c || Js.isDigit c
  || Ascii.eqb c "." || Ascii.eqb c "_" || Ascii.eqb c "-".

(** [.replace(/[^a-zA-Z0-9._-]/g, "_")]. *)
Fixpoint replaceUnsafe (s : string) : string :=
  match s with
  | EmptyString => ""
  | String c s' => String (if isSafeChar c then c else "_"%char) (replaceUnsafe s')
  end.

(** [.replace(/_{2,}/g, "_")]. *)
Fixpoint collapseUnderscores (s : string) : string :=
  match s with
  | EmptyString => ""
  | String c s' =>
      match s' with
      | String c' _ =>
          if Ascii.eqb c "_" && Ascii.eqb c' "_" then collapseUnderscores s'
          else String c (collapseUnderscores s')
      | EmptyString => String c ""
      end
  end.

Definition safeName (name : string) : string :=
  collapseUnderscores (replaceUnsafe name).

(** [`${n}`] for the whole number [n] that [Date.now()] gives: its
    decimal digits. *)
Definition numberToString (n : N) : string :=
  NilEmpty.string_of_uint (N.to_uint n).

(** The calls on the file system. *)
Inductive FsCall : Type :=
| mkdirSync (dir : string)
| writeFileSync (path : string) (data : string).

(** What a request leaves: its answer and the calls on the file system
    that completed. *)
Record Outcome : Type := {
  response : Response;
  completed : list FsCall
}.

(** The answer to a call that throws [thrown]: the message of an [Error],
    [None] being another value. *)
Definition failure (thrown : option string) : Response :=
  json 500 [("error", Js.Str (default "Upload failed" thrown))].

(** [POST].  [formData] is [None] when [req.formData()] throws, and holds
    [None] when the form has no [file] that is a [File]; [now] is
    [Date.now()]; [fs] gives what a call on the file system throws,
    [None] when it completes. *)
Definition POST (env : Env) (formData : option (option FileField)) (now : N)
    (fs : FsCall → option (option string)) : Outcome :=
  match resolveWorkspaceRoot env with
  | None => {| response := error 500 "Workspace not found"; completed := [] |}
  | Some root =>
  match formData with
  | None => {| response := error 400 "Invalid form data"; completed := [] |}
  | Some None => {| response := error 400 "Missing 'file' field"; completed := [] |}
  | Some (Some file) =>
      if (MAX_SIZE <? size file)%N
      then {| response := error 400 "File is too large (max 25 MB)"; completed := [] |}
      else
        let safeName := safeName (name file) in
        let relPath := NodePath.join ["assets"; numberToString now +:+ "-" +:+ safeName] in
        match safeResolveNewPath env relPath with
        | None => {| response := error 400 "Invalid path"; completed := [] |}
        | Some absPath =>
            let mkdir := mkdirSync (NodePath.dirname absPath) in
            let write := writeFileSync absPath (data file) in
            match fs mkdir with
            | Some thrown => {| response := failure thrown; completed := [] |}
            | None =>
                match fs write with
                | Some thrown => {| response := failure thrown; completed := [mkdir] |}
                | None =>
                    {| response := json 200 [("ok", Js.Bool true);
                                             ("path", Js.Str relPath)];
                       completed := [mkdir; write] |}
                end
            end
        end
  end end.

End Upload.

(** ** [object-kanban.tsx]: the title of a card *)

Module Kanban.

(** Of a field the title heuristic reads its name. *)
Record Field : Type := {
  name : string
}.

(** [fields.find((f) => f.name.toLowerCase().includes("name") ||
     f.name.toLowerCase().includes("title"))]. *)
Definition titleField (fields : list Field) : option Field :=
  List.find (λ f, Js.includes (Js.toLowerCase (name f)) "name"
                  || Js.includes (Js.toLowerCase (name f)) "title") fields.

End Kanban.

(** ** Invariants of the loops *)

(** A string free of the separator. *)
Fixpoint sepFree (sep : ascii) (s : string) : Prop :=
  match s with
  | EmptyString => True
  | String c s' => c ≠ sep ∧ sepFree sep s'
  end.

(** The segments [normalizeString] keeps are segments of its input, or
    [".."]. *)
Definition keepable (seg : string) : Prop := seg ≠ "" ∧ sepFree "/" seg.

(** A segment that names a file or a directory: not empty, neither [.]
    nor [..], free of separators. *)
Definition plainSegment (seg : string) : Prop :=
  seg ≠ "" ∧ seg ≠ "." ∧ seg ≠ ".." ∧ sepFree "/" seg.

(** The segments of [resolve(root)]. *)
Definition rootSegments (env : Workspace.Env) (root : string) : list string :=
  reverse (NodePath.normalizeSegments false []
             (Js.split "/"
                (NodePath.resolveLoop (reverse [root] ++ [Workspace.cwd env]) "").1)).

(** A relative path keeps its [".."] segments, all of them at the bottom
    of the stack, that is at the front of the result. *)
Definition dotsAtBottom (stack : list string) : Prop :=
  ∃ clean k, stack = clean ++ replicate k ".." ∧ ".." ∉ clean.

(** The directory reached from [dir] through the directories [names]. *)
Definition descend (dir : string) (names : list string) : string :=
  fold_left (λ dir name, NodePath.join [dir; name]) names dir.

(** [reaches node names]: the names lead down from the directory [node],
    each of them a directory that the walk does not skip, listed by a
    directory that can be read. *)
Inductive reaches : Workspace.Dirent → list string → Prop :=
| reaches_here node : reaches node []
| reaches_below name entries sub listing names :
    Workspace.Directory sub listing ∈ entries →
    Workspace.skipped sub = false →
    reaches (Workspace.Directory sub listing) names →
    reaches (Workspace.Directory name (Some entries)) (sub :: names).

(** The text that [resolve] has put together once it is through the
    arguments [extra], the last one first. *)
Definition behind (extra : list string) (acc : string) : string :=
  foldr (λ e acc, e +:+ "/" +:+ acc) acc extra.

(** A computation that schedules no failure: run with no failure to
    come, it leaves none to come. *)
Definition quietly {A} (m : Workspace.M A) : Prop :=
  ∀ st, Workspace.faults st = [] → Workspace.faults (m st).2 = [].

(** [byDepth l]: no file of the list is deeper than a later one. *)
Definition byDepth (l : list Workspace.Found) : Prop :=
  ∀ before f after g,
    l = before ++ f :: after → g ∈ after →
    Workspace.depth f ≤ Workspace.depth g.

(** The state of the loop once the rows [rows] went through it. *)
Record pivoted (rows : list ObjectRoute.EavRow) (s : ObjectRoute.Pivot)
    : Prop := {
  pivoted_grouped :
    ObjectRoute.grouped s
    = zip (ObjectRoute.entryIds rows)
          (seq 0 (length (ObjectRoute.entryIds rows)));
  pivoted_length :
    length (ObjectRoute.heap s) = length (ObjectRoute.entryIds rows);
  pivoted_heap : ∀ i id,
    ObjectRoute.entryIds rows !! i = Some id →
    ObjectRoute.heap s !! i = ObjectRoute.recordOf id rows
}.

(** ** A small workspace

    A root store and the store of a sub-project, both with an object
    [Task]; the one of the root has a status field and three entries. *)

Module Demo.
Import Workspace.

Definition tree : Dirent :=
  Directory "workspace"
    (Some [File "notes.md";
           File "workspace.duckdb";
           Directory "proj" (Some [File "workspace.duckdb"]);
           Directory ".git" (Some []);
           Directory "tmp" None]).

Definition env : Env :=
  {| OPENCLAW_WORKSPACE := Some "/ws";
     homedir := "/home/node";
     cwdTail := "app";
     existsSync := λ p, bool_decide (p ∈ ["/ws"; "/ws/workspace.duckdb";
                                          "/ws/proj/workspace.duckdb";
                                          "/usr/bin/duckdb"; "/ws/assets/ok.png"]);
     workspaceTree := tree;
     whichDuckdb := false |}.

Definition statusField : FieldRow :=
  {| fld_id := "f1"; fld_object_id := "o1"; fld_name := "status";
     enum_values := Some (ArrayText ["todo"; "doing"; "done"]);
     enum_colors := Some (ArrayText ["#aaa"; "#bbb"; "#ccc"]) |}.

Definition rootDb : Database :=
  {| objects := [{| obj_id := "o1"; obj_name := "Task" |};
                 {| obj_id := "o2"; obj_name := "Project" |}];
     fields := [statusField];
     entries := [{| ent_id := "e1"; ent_object_id := "o1";
                    ent_created_at := "2026-01-01"; ent_updated_at := "2026-01-02" |};
                 {| ent_id := "e2"; ent_object_id := "o1";
                    ent_created_at := "2026-01-03"; ent_updated_at := "2026-01-03" |};
                 {| ent_id := "e3"; ent_object_id := "o1";
                    ent_created_at := "2026-01-04"; ent_updated_at := "2026-01-05" |};
                 {| ent_id := "p1"; ent_object_id := "o2";
                    ent_created_at := "2026-01-01"; ent_updated_at := "2026-01-01" |}];
     entry_fields := [{| ef_entry_id := "e1"; ef_field_id := "f1"; ef_value := Some "doing" |};
                      {| ef_entry_id := "e2"; ef_field_id := "f1"; ef_value := Some "todo" |};
                      {| ef_entry_id := "e3"; ef_field_id := "f1"; ef_value := Some "doing" |};
                      {| ef_entry_id := "p1"; ef_field_id := "f9"; ef_value := Some "doing" |}] |}.

Definition projDb : Database :=
  {| objects := [{| obj_id := "o7"; obj_name := "Task" |};
                 {| obj_id := "o8"; obj_name := "Note" |}];
     fields := [];
     entries := [];
     entry_fields := [] |}.

Definition store : Store :=
  {| files := <["/ws/workspace.duckdb" := rootDb]>
                (<["/ws/proj/workspace.duckdb" := projDb]> ∅);
     faults := [];
     trace := [] |}.

(** Rows of a query over the objects of a file, as records. *)
Definition objectRows (d : Database) : list Row :=
  (λ o, <["id" := Js.Str (obj_id o)]> (<["name" := Js.Str (obj_name o)]> ∅))
    <$> objects d.

(** The store in which the first invocation fails. *)
Definition firstFails : Store :=
  {| files := files store; faults := [true]; trace := [] |}.


(** The fields of an object: a text field comes first, and the second
    has [name] inside a longer word. *)
Definition someFields : list ObjectRoute.FieldRow :=
  [ {| ObjectRoute.name := "notes"; ObjectRoute.type := "text" |};
    {| ObjectRoute.name := "username"; ObjectRoute.type := "text" |};
    {| ObjectRoute.name := "Full Name"; ObjectRoute.type := "number" |} ].

End Demo.

(** * Facts about strings *)

Section StringFacts.

Lemma append_nil_l (s : string) : "" +:+ s = s.
Proof. reflexivity. Qed.

Lemma append_cons (c : ascii) (s t : string) :
  String c s +:+ t = String c (s +:+ t).
Proof. reflexivity. Qed.

Lemma append_nil_r (s : string) : s +:+ "" = s.
Proof. induction s as [|c s IH]; [done|]. by rewrite append_cons, IH. Qed.

Lemma append_assoc (s t u : string) : (s +:+ t) +:+ u = s +:+ (t +:+ u).
Proof. induction s as [|c s IH]; [done|]. by rewrite !append_cons, IH. Qed.

Lemma startsWith_nil (s : string) : Js.startsWith s "" = true.
Proof. by destruct s. Qed.

Lemma startsWith_append (p s : string) : Js.startsWith (p +:+ s) p = true.
Proof.
  induction p as [|c p IH]; [by destruct s|].
  rewrite append_cons. simpl. by rewrite Ascii.eqb_refl.
Qed.

Lemma split_nonempty (sep : ascii) (s : string) : Js.split sep s ≠ [].
Proof.
  induction s as [|c s IH]; [done|]. simpl.
  destruct (Ascii.eqb c sep); [done|]. by destruct (Js.split sep s).
Qed.

Lemma split_sepFree (sep : ascii) (s : string) :
  Forall (sepFree sep) (Js.split sep s).
Proof.
  induction s as [|c s IH]; simpl; [by repeat constructor|].
  destruct (Ascii.eqb c sep) eqn:Hc; [by constructor|].
  apply Ascii.eqb_neq in Hc.
  destruct (Js.split sep s) as [|seg rest]; [by repeat constructor|].
  inversion_clear IH. by repeat constructor.
Qed.

Lemma split_of_sepFree (sep : ascii) (s : string) :
  sepFree sep s → Js.split sep s = [s].
Proof.
  induction s as [|c s IH]; [done|]. intros [Hc Hs]. simpl.
  apply Ascii.eqb_neq in Hc as ->. by rewrite IH.
Qed.

Lemma split_append (sep : ascii) (a b : string) :
  sepFree sep a →
  Js.split sep (a +:+ String sep b) = a :: Js.split sep b.
Proof.
  induction a as [|c a IH]; intros Ha.
  - rewrite append_nil_l. simpl. by rewrite Ascii.eqb_refl.
  - destruct Ha as [Hc Ha]. rewrite append_cons. simpl.
    apply Ascii.eqb_neq in Hc as ->. by rewrite IH.
Qed.

Lemma split_join (sep : ascii) (segs : list string) :
  segs ≠ [] → Forall (sepFree sep) segs →
  Js.split sep (Js.join (String sep "") segs) = segs.
Proof.
  induction segs as [|x segs IH]; [done|]. intros _ Hall.
  inversion_clear Hall as [|?? Hx Hsegs].
  destruct segs as [|y segs]; [by apply split_of_sepFree|].
  change (Js.join (String sep "") (x :: y :: segs))
    with (x +:+ String sep "" +:+ Js.join (String sep "") (y :: segs)).
  change (String sep "" +:+ ?t) with (String sep t).
  rewrite split_append by done. by rewrite IH.
Qed.

Lemma split_trailing (sep : ascii) (s : string) :
  Js.split sep (s +:+ String sep "") = Js.split sep s ++ [""].
Proof.
  induction s as [|c s IH].
  - rewrite append_nil_l. simpl. by rewrite Ascii.eqb_refl.
  - rewrite append_cons. simpl. rewrite IH.
    destruct (Ascii.eqb c sep); [done|].
    pose proof (split_nonempty sep s). by destruct (Js.split sep s).
Qed.

Lemma split_middle (sep : ascii) (a b : string) :
  Js.split sep (a +:+ String sep b) = Js.split sep a ++ Js.split sep b.
Proof.
  induction a as [|c a IH].
  - rewrite append_nil_l. simpl. by rewrite Ascii.eqb_refl.
  - rewrite append_cons. simpl. rewrite IH.
    destruct (Ascii.eqb c sep); [done|].
    pose proof (split_nonempty sep a). by destruct (Js.split sep a).
Qed.

Lemma join_snoc (sep : string) (l : list string) (x : string) :
  l ≠ [] → Js.join sep (l ++ [x]) = Js.join sep l +:+ sep +:+ x.
Proof.
  induction l as [|y l IH]; [done|]. intros _.
  destruct l as [|z l]; [done|].
  change (Js.join sep ((y :: z :: l) ++ [x]))
    with (y +:+ sep +:+ Js.join sep ((z :: l) ++ [x])).
  rewrite IH by done.
  change (Js.join sep (y :: z :: l)) with (y +:+ sep +:+ Js.join sep (z :: l)).
  by rewrite !append_assoc.
Qed.

End StringFacts.

(** * The path resolver *)

Section PathFacts.
Import Workspace.

Local Abbreviation slashFree := (sepFree "/"%char).

Lemma keepable_dotdot : keepable "..".
Proof. split; [done|]. simpl. by repeat split. Qed.

Lemma pushSegment_keepable allow stack seg :
  Forall keepable stack → slashFree seg →
  Forall keepable (NodePath.pushSegment allow stack seg).
Proof.
  intros Hstack Hseg. unfold NodePath.pushSegment.
  destruct (String.eqb_spec seg "") as [->|Hne]; [done|]. simpl.
  destruct (String.eqb seg "."); [done|].
  destruct (String.eqb seg "..").
  - destruct stack as [|top below].
    + destruct allow; [|done]. constructor; [apply keepable_dotdot|done].
    + destruct (String.eqb top "..").
      * destruct allow; [|done]. constructor; [apply keepable_dotdot|done].
      * by inversion Hstack.
  - by constructor.
Qed.

Lemma normalizeSegments_keepable allow segs stack :
  Forall keepable stack → Forall slashFree segs →
  Forall keepable (NodePath.normalizeSegments allow stack segs).
Proof.
  unfold NodePath.normalizeSegments. revert stack.
  induction segs as [|seg segs IH]; intros stack Hstack Hsegs; [done|].
  inversion_clear Hsegs. simpl. apply IH; [|done].
  by apply pushSegment_keepable.
Qed.

(** Below the root no [".."] survives. *)
Lemma pushSegment_rooted stack seg :
  ".." ∉ stack → ".." ∉ NodePath.pushSegment false stack seg.
Proof.
  intros Hstack. unfold NodePath.pushSegment.
  destruct (String.eqb seg "" || String.eqb seg "."); [done|].
  destruct (String.eqb_spec seg "..") as [->|Hne].
  - destruct stack as [|top below]; [done|].
    destruct (String.eqb top ".."); [done|].
    intros Hin. apply Hstack. by right.
  - intros [Heq|Hin]%elem_of_cons; [by apply Hne|]. by apply Hstack.
Qed.

Lemma normalizeSegments_rooted segs stack :
  ".." ∉ stack → ".." ∉ NodePath.normalizeSegments false stack segs.
Proof.
  unfold NodePath.normalizeSegments. revert stack.
  induction segs as [|seg segs IH]; intros stack Hstack; [done|].
  simpl. by apply IH, pushSegment_rooted.
Qed.

Lemma pushSegment_dotsAtBottom stack seg :
  dotsAtBottom stack → dotsAtBottom (NodePath.pushSegment true stack seg).
Proof.
  intros (clean & k & -> & Hclean). unfold NodePath.pushSegment.
  destruct (String.eqb seg "" || String.eqb seg "."); [by exists clean, k|].
  destruct (String.eqb_spec seg "..") as [->|Hne].
  - destruct clean as [|top clean']; simpl.
    + destruct k as [|k]; simpl; [by exists [], 1|].
      by exists [], (S (S k)).
    + destruct (String.eqb_spec top "..") as [->|Htop].
      * exfalso. apply Hclean. by left.
      * exists clean', k. split; [done|]. intros Hin. apply Hclean. by right.
  - exists (seg :: clean), k. split; [done|].
    intros [Heq|Hin]%elem_of_cons; [by apply Hne|]. by apply Hclean.
Qed.

Lemma normalizeSegments_dotsAtBottom segs stack :
  dotsAtBottom stack → dotsAtBottom (NodePath.normalizeSegments true stack segs).
Proof.
  unfold NodePath.normalizeSegments. revert stack.
  induction segs as [|seg segs IH]; intros stack Hstack; [done|].
  simpl. by apply IH, pushSegment_dotsAtBottom.
Qed.

Lemma dotsAtBottom_front stack :
  dotsAtBottom stack → ".." ∈ stack → ∃ rest, reverse stack = ".." :: rest.
Proof.
  intros (clean & k & -> & Hclean) Hin.
  rewrite reverse_app, reverse_replicate.
  destruct k as [|k]; [|by eexists].
  simpl in Hin. rewrite app_nil_r in Hin. done.
Qed.

Lemma join_front sep x rest : ∃ t, Js.join sep (x :: rest) = x +:+ t.
Proof.
  destruct rest as [|y rest]; [exists ""; by rewrite append_nil_r|].
  by eexists.
Qed.

Lemma join_empty sep segs :
  Forall keepable segs → Js.join sep segs = "" → segs = [].
Proof.
  destruct segs as [|x segs]; [done|]. intros Hall Hjoin. exfalso.
  inversion_clear Hall as [|?? [Hx _] _].
  destruct (join_front sep x segs) as [t Ht]. rewrite Ht in Hjoin.
  destruct x; [done|]. by rewrite append_cons in Hjoin.
Qed.

(** Where [path.normalize] leaves a [".."] segment, the result begins
    with it. *)
Lemma normalize_traversal (p : string) :
  ".." ∈ Js.split "/" (NodePath.normalize p) →
  Js.startsWith (NodePath.normalize p) ".." = true.
Proof.
  unfold NodePath.normalize, NodePath.normalizeString.
  destruct (String.eqb p ""); [by intros ?%list_elem_of_singleton|].
  set (abs := Js.startsWith p "/").
  set (stack := NodePath.normalizeSegments (negb abs) [] (Js.split "/" p)).
  assert (Forall keepable (reverse stack)) as Hkeep.
  { apply Forall_reverse.
    apply normalizeSegments_keepable; [done|apply split_sepFree]. }
  assert (Forall slashFree (reverse stack)) as Hfree.
  { eapply Forall_impl; [exact Hkeep|]. by intros ? []. }
  destruct (String.eqb_spec (Js.join "/" (reverse stack)) "") as [Hnil|Hne].
  { destruct abs, (Js.lastCharIs "/" p); simpl; intros Hin;
      repeat (apply elem_of_cons in Hin as [?|Hin]; [done|]);
      by apply elem_of_nil in Hin. }
  assert (reverse stack ≠ []) as Hstack by (by intros Heq; rewrite Heq in Hne).
  assert (∀ (t : bool),
    ".." ∈ Js.split "/" (if t then Js.join "/" (reverse stack) +:+ "/"
                         else Js.join "/" (reverse stack)) → ".." ∈ stack) as Hsplit.
  { intros t Hin. apply elem_of_reverse. destruct t.
    - rewrite split_trailing, split_join in Hin by done.
      apply elem_of_app in Hin as [Hin|Hin]; [done|].
      by apply list_elem_of_singleton in Hin.
    - by rewrite split_join in Hin. }
  destruct abs eqn:Habs; simpl.
  - intros Hin. exfalso.
    change ("/" +:+ ?t) with (String "/" t) in Hin. simpl in Hin.
    apply elem_of_cons in Hin as [?|Hin]; [done|].
    apply Hsplit in Hin.
    eapply normalizeSegments_rooted; [|exact Hin]. apply not_elem_of_nil.
  - intros Hin%Hsplit.
    destruct (dotsAtBottom_front stack) as [rest Hrest]; [|done|].
    { apply normalizeSegments_dotsAtBottom. exists [], 0.
      split; [done|apply not_elem_of_nil]. }
    rewrite Hrest. destruct (join_front "/" ".." rest) as [t ->].
    destruct (Js.lastCharIs "/" p).
    + rewrite append_assoc. apply startsWith_append.
    + apply startsWith_append.
Qed.

(** [path.resolve] yields an absolute path. *)
Lemma resolveLoop_cwd pieces tail acc :
  (NodePath.resolveLoop (pieces ++ [String "/" tail]) acc).2 = true.
Proof.
  revert acc. induction pieces as [|p pieces IH]; intros acc; simpl.
  { by rewrite startsWith_nil. }
  destruct (String.eqb p ""); [done|].
  by destruct (Js.startsWith p "/").
Qed.

Lemma resolve_absolute env args :
  Js.startsWith (NodePath.resolve (cwd env) args) "/" = true.
Proof.
  unfold NodePath.resolve. change (cwd env) with (String "/" (cwdTail env)).
  pose proof (resolveLoop_cwd (reverse args) (cwdTail env) "") as Hflag.
  destruct (NodePath.resolveLoop _ _) as [resolvedPath flag].
  simpl in Hflag. subst flag. apply startsWith_append.
Qed.

Lemma resolveLoop_acc pieces acc :
  NodePath.resolveLoop pieces acc
  = ((NodePath.resolveLoop pieces "").1 +:+ acc, (NodePath.resolveLoop pieces "").2).
Proof.
  revert acc. induction pieces as [|p pieces IH]; intros acc; simpl; [done|].
  destruct (String.eqb p ""); [done|].
  destruct (Js.startsWith p "/"); simpl.
  - by rewrite !append_assoc.
  - rewrite (IH (p +:+ "/" +:+ acc)), (IH (p +:+ "/" +:+ "")). simpl.
    by rewrite !append_assoc.
Qed.

Lemma resolveLoop_slash pieces tail acc :
  ∃ front, (NodePath.resolveLoop (pieces ++ [String "/" tail]) acc).1
           = front +:+ "/" +:+ acc.
Proof.
  revert acc. induction pieces as [|p pieces IH]; intros acc; simpl.
  - rewrite startsWith_nil. by eexists.
  - destruct (String.eqb p ""); [done|].
    destruct (Js.startsWith p "/"); simpl; [by eexists|].
    destruct (IH (p +:+ "/" +:+ acc)) as [front ->].
    exists (front +:+ "/" +:+ p). by rewrite !append_assoc.
Qed.

End PathFacts.

Section SafeResolve.
Import Workspace.

Lemma normalizeString_child front allow :
  let stack := NodePath.normalizeSegments allow [] (Js.split "/" front) in
  NodePath.normalizeString (front +:+ "/") allow = Js.join "/" (reverse stack)
  ∧ NodePath.normalizeString (front +:+ "/" +:+ "assets/ok.png/") allow
    = Js.join "/" (reverse stack ++ ["assets"; "ok.png"]).
Proof.
  intros stack. unfold NodePath.normalizeString. split.
  - rewrite split_trailing. unfold NodePath.normalizeSegments.
    by rewrite fold_left_app.
  - change ("/" +:+ "assets/ok.png/") with (String "/" "assets/ok.png/").
    rewrite split_middle. unfold NodePath.normalizeSegments.
    rewrite fold_left_app. fold (NodePath.normalizeSegments allow [] (Js.split "/" front)).
    fold stack. simpl.
    change (NodePath.pushSegment allow (NodePath.pushSegment allow
              (NodePath.pushSegment allow stack "assets") "ok.png") "")
      with ("ok.png" :: "assets" :: stack).
    by rewrite !reverse_cons, <- app_assoc.
Qed.

Lemma resolve_child env root :
  NodePath.resolve (cwd env) [root; "assets/ok.png"]
  = childPath (NodePath.resolve (cwd env) [root]) "assets/ok.png".
Proof.
  unfold NodePath.resolve. change (cwd env) with (String "/" (cwdTail env)).
  change (reverse [root; "assets/ok.png"]) with ("assets/ok.png" :: reverse [root]).
  cbn [app NodePath.resolveLoop String.eqb Ascii.eqb Js.startsWith Bool.eqb].
  rewrite (resolveLoop_acc _ ("assets/ok.png" +:+ "/" +:+ "")).
  pose proof (resolveLoop_cwd (reverse [root]) (cwdTail env) "") as Hflag.
  destruct (resolveLoop_slash (reverse [root]) (cwdTail env) "") as [front Hfront].
  destruct (NodePath.resolveLoop _ "") as [resolvedPath flag].
  simpl in Hflag, Hfront. subst flag resolvedPath. simpl.
  rewrite append_assoc.
  change (front +:+ ("/" +:+ "") +:+ "assets/ok.png" +:+ "/" +:+ "")
    with (front +:+ "/" +:+ "assets/ok.png/").
  change (front +:+ "/" +:+ "") with (front +:+ "/").
  destruct (normalizeString_child front false) as [-> ->].
  set (stack := NodePath.normalizeSegments false [] (Js.split "/" front)).
  assert (Forall keepable (reverse stack)) as Hkeep.
  { apply Forall_reverse.
    apply normalizeSegments_keepable; [done|apply split_sepFree]. }
  unfold childPath.
  destruct (reverse stack) as [|x l] eqn:Hstack; [done|].
  destruct (String.eqb_spec ("/" +:+ Js.join "/" (x :: l)) "/") as [Heq|_].
  { exfalso.
    assert (Js.join "/" (x :: l) = "") as Hjoin by (by injection Heq).
    by apply join_empty in Hjoin. }
  replace ((x :: l) ++ ["assets"; "ok.png"])
    with (((x :: l) ++ ["assets"]) ++ ["ok.png"]) by (by rewrite <- app_assoc).
  rewrite !join_snoc by done.
  by rewrite !append_assoc.
Qed.

Lemma startsWith_childPath dir rel : Js.startsWith (childPath dir rel) dir = true.
Proof.
  unfold childPath.
  destruct (String.eqb_spec dir "/") as [->|_]; apply startsWith_append.
Qed.

(** C5: [safeResolvePath] refuses every path whose normal form has a
    parent-directory segment, among them ["../../etc/passwd"] and
    ["a/../../b"]; a path it returns is absolute and begins with the
    resolved workspace root; and for ["assets/ok.png"], when the file
    exists below the root, it returns the path of that file. *)
Theorem safeResolvePath_confined (env : Env) :
  (∀ relativePath,
      hasTraversal (NodePath.normalize relativePath) →
      safeResolvePath env relativePath = None)
  ∧ safeResolvePath env "../../etc/passwd" = None
  ∧ safeResolvePath env "a/../../b" = None
  ∧ (∀ relativePath absolute,
      safeResolvePath env relativePath = Some absolute →
      Js.startsWith absolute "/" = true
      ∧ ∃ root, resolveWorkspaceRoot env = Some root
                ∧ Js.startsWith absolute (NodePath.resolve (cwd env) [root]) = true)
  ∧ (∀ root,
      resolveWorkspaceRoot env = Some root →
      existsSync env (childPath (NodePath.resolve (cwd env) [root]) "assets/ok.png") = true →
      safeResolvePath env "assets/ok.png"
      = Some (childPath (NodePath.resolve (cwd env) [root]) "assets/ok.png")).
Proof.
  assert (∀ relativePath,
      hasTraversal (NodePath.normalize relativePath) →
      safeResolvePath env relativePath = None) as Htraversal.
  { intros relativePath Hdots%normalize_traversal. unfold safeResolvePath.
    destruct (resolveWorkspaceRoot env); [|done]. by rewrite Hdots. }
  split; [done|]. split; [|split; [|split]].
  - apply Htraversal. unfold hasTraversal. vm_compute. by left.
  - apply Htraversal. unfold hasTraversal. vm_compute. by left.
  - intros relativePath absolute. unfold safeResolvePath.
    destruct (resolveWorkspaceRoot env) as [root|]; [|done].
    destruct (_ || _); [done|].
    destruct (Js.startsWith _ (NodePath.resolve _ [root])) eqn:Hprefix; [|done].
    destruct (existsSync env _); [|done]. simpl.
    intros [= <-]. split; [apply resolve_absolute|]. by exists root.
  - intros root Hroot Hexists. unfold safeResolvePath. rewrite Hroot.
    change (NodePath.normalize "assets/ok.png") with "assets/ok.png".
    change (Js.startsWith "assets/ok.png" ".." || Js.includes "assets/ok.png" "/../")
      with false.
    cbv iota. rewrite resolve_child, startsWith_childPath, Hexists. done.
Qed.

End SafeResolve.

(** * The engine and the locator *)

Section EngineFacts.
Import Workspace.

Lemma literal_sqlEscape (s : string) : Sql.literal (Sql.sqlEscape s) = s.
Proof.
  unfold Sql.sqlEscape. induction s as [|c s IH]; [done|].
  simpl. destruct (Ascii.eqb_spec c "'") as [->|Hc].
  - change ("''" +:+ ?t) with (String "'" (String "'" t)). simpl. by rewrite IH.
  - assert (Ascii.eqb c "'" = false) as Hcb by (by apply Ascii.eqb_neq).
    destruct (Js.replaceQuotes "''" s) as [|b rest] eqn:Hs.
    + simpl in *. by rewrite <- IH.
    + simpl in IH |- *. rewrite Hcb. simpl. by rewrite IH.
Qed.

(** A quiet store: no failure is scheduled. *)
Lemma logCall_quiet c st : faults st = [] → faults (logCall c st) = [].
Proof. intros Hq. simpl. by rewrite Hq. Qed.

Lemma execSyncJson_files {T} db (sql : Database → list T) st :
  files (execSyncJson db sql st).2 = files st.
Proof. done. Qed.

Lemma execSyncJson_quiet {T} db (sql : Database → list T) st :
  faults st = [] →
  execSyncJson db sql st = (sql <$> files st !! db, logCall (QueryCall db) st).
Proof.
  intros Hq. unfold execSyncJson, bind, spawn, nextFails. by rewrite Hq.
Qed.

Lemma execSyncStmt_quiet db sql st d :
  faults st = [] → files st !! db = Some d →
  execSyncStmt db sql st = (true, runOn db sql (logCall (ExecCall db) st)).
Proof.
  intros Hq Hd. unfold execSyncStmt, bind, spawn, nextFails. rewrite Hq.
  simpl. by rewrite Hd.
Qed.

Lemma logCalls_trace cs st : trace (logCalls cs st) = trace st ++ cs.
Proof.
  revert st. induction cs as [|c cs IH]; intros st; simpl.
  - by rewrite app_nil_r.
  - rewrite IH. simpl. by rewrite <- app_assoc.
Qed.

(** The query of the locator finds a row exactly in a file that owns the
    object. *)
Lemma hit_selectObjectId st objectName db :
  hit st (selectObjectId (Js.replaceQuotes "''" objectName)) db
  ↔ ownsObject st objectName db.
Proof.
  unfold hit, ownsObject, selectObjectId.
  change (Js.replaceQuotes "''" objectName) with (Sql.sqlEscape objectName).
  rewrite literal_sqlEscape. split.
  - intros (d & Hd & Hrows). exists d.
    destruct (filter _ (objects d)) as [|o os] eqn:Hf; [done|].
    assert (o ∈ filter (λ o, obj_name o = objectName) (objects d)) as Ho
      by (rewrite Hf; by left).
    apply list_elem_of_filter in Ho as [Hname Ho]. by exists o.
  - intros (d & o & Hd & Ho & Hname). exists d. split; [done|].
    assert (o ∈ filter (λ o, obj_name o = objectName) (objects d)) as Hin
      by (by apply list_elem_of_filter).
    destruct (filter _ (objects d)); [by apply elem_of_nil in Hin|done].
Qed.

Lemma scanFor_miss sql dbPaths st :
  faults st = [] → Forall (λ db, ¬ hit st sql db) dbPaths →
  scanFor sql dbPaths st = (None, logCalls (QueryCall <$> dbPaths) st).
Proof.
  revert st. induction dbPaths as [|db rest IH]; intros st Hq Hmiss; [done|].
  inversion_clear Hmiss as [|?? Hdb Hrest].
  simpl. unfold bind. rewrite execSyncJson_quiet by done.
  destruct (files st !! db) as [d|] eqn:Hd; simpl.
  - destruct (sql d) eqn:Hrows; [|exfalso; apply Hdb; exists d; by rewrite Hrows].
    apply IH; [by apply logCall_quiet|done].
  - apply IH; [by apply logCall_quiet|done].
Qed.

Lemma scanFor_hit sql before db after st :
  faults st = [] → Forall (λ db, ¬ hit st sql db) before → hit st sql db →
  scanFor sql (before ++ db :: after) st
  = (Some db, logCalls (QueryCall <$> before ++ [db]) st).
Proof.
  revert st. induction before as [|b before IH]; intros st Hq Hmiss Hhit.
  - destruct Hhit as (d & Hd & Hrows).
    simpl. unfold bind. rewrite execSyncJson_quiet by done. rewrite Hd. simpl.
    by destruct (sql d).
  - inversion_clear Hmiss as [|?? Hb Hbefore].
    simpl. unfold bind. rewrite execSyncJson_quiet by done.
    destruct (files st !! b) as [d|] eqn:Hd; simpl.
    + destruct (sql d) eqn:Hrows; [|exfalso; apply Hb; exists d; by rewrite Hrows].
      apply IH; [by apply logCall_quiet|done..].
    + apply IH; [by apply logCall_quiet|done..].
Qed.

(** The first element of a list with a decidable property. *)
Lemma first_split {A} (P : A → Prop) `{∀ x, Decision (P x)} (l : list A) :
  (∃ x, x ∈ l ∧ P x) →
  ∃ before x after, l = before ++ x :: after ∧ Forall (λ y, ¬ P y) before ∧ P x.
Proof.
  induction l as [|y l IH]; intros (x & Hx & HP); [by apply elem_of_nil in Hx|].
  destruct (decide (P y)) as [Hy|Hy]; [by exists [], y, l|].
  apply elem_of_cons in Hx as [->|Hx]; [done|].
  destruct IH as (before & z & after & -> & Hbefore & Hz); [by exists x|].
  exists (y :: before), z, after. by repeat constructor.
Qed.

End EngineFacts.

Section LocatorFacts.
Import Workspace.

Lemma insertByDepth_perm x l : insertByDepth x l ≡ₚ x :: l.
Proof.
  induction l as [|y l IH]; simpl; [done|].
  destruct (depth x <=? depth y); [done|].
  rewrite IH. apply Permutation_swap.
Qed.

Lemma sortByDepth_perm l : sortByDepth l ≡ₚ l.
Proof.
  induction l as [|x l IH]; simpl; [done|].
  by rewrite insertByDepth_perm, IH.
Qed.

Lemma byDepth_nil : byDepth [].
Proof. intros before f after g Heq. by destruct before. Qed.

Lemma byDepth_cons x l :
  Forall (λ g, depth x ≤ depth g) l → byDepth l → byDepth (x :: l).
Proof.
  intros Hx Hl before f after g Heq Hg.
  destruct before as [|b before]; simplify_eq/=.
  - rewrite Forall_forall in Hx. by apply Hx.
  - by eapply Hl.
Qed.

Lemma byDepth_inv x l :
  byDepth (x :: l) → Forall (λ g, depth x ≤ depth g) l ∧ byDepth l.
Proof.
  intros Hxl. split.
  - apply Forall_forall. intros g Hg. by apply (Hxl [] x l g).
  - intros before f after g -> Hg. by apply (Hxl (x :: before) f after g).
Qed.

Lemma insertByDepth_sorted x l : byDepth l → byDepth (insertByDepth x l).
Proof.
  induction l as [|y l IH]; intros Hl; simpl.
  - apply byDepth_cons; [done|apply byDepth_nil].
  - destruct (Nat.leb_spec (depth x) (depth y)) as [Hle|Hlt].
    + apply byDepth_cons; [|done].
      apply byDepth_inv in Hl as [Hy _]. constructor; [done|].
      eapply Forall_impl; [exact Hy|]. simpl. lia.
    + apply byDepth_inv in Hl as [Hy Hl]. apply byDepth_cons; [|by apply IH].
      rewrite insertByDepth_perm. constructor; [lia|done].
Qed.

Lemma sortByDepth_sorted l : byDepth (sortByDepth l).
Proof.
  induction l as [|x l IH]; simpl; [apply byDepth_nil|].
  by apply insertByDepth_sorted.
Qed.

Lemma Dirent_nested_ind (P : Dirent → Prop) :
  (∀ name, P (File name)) →
  (∀ name, P (Directory name None)) →
  (∀ name entries, Forall P entries → P (Directory name (Some entries))) →
  ∀ node, P node.
Proof.
  intros Hfile Hnone Hsome. fix IH 1. intros [name|name [entries|]].
  - apply Hfile.
  - apply Hsome. induction entries as [|e entries IHentries]; constructor.
    + apply IH.
    + apply IHentries.
  - apply Hnone.
Qed.

(** What [walk] finds in a directory lies at the depth of the directory,
    and then it is the file of that directory, or deeper. *)
Lemma walk_depth env node : ∀ dir d f,
  f ∈ walk env dir d node →
  d ≤ depth f
  ∧ (depth f = d → path f = NodePath.join [dir; "workspace.duckdb"]).
Proof.
  induction node as [name|name|name entries IH] using Dirent_nested_ind;
    intros dir d f; simpl.
  - rewrite app_nil_r. destruct (existsSync env _); [|by intros ?%elem_of_nil].
    intros ->%list_elem_of_singleton. done.
  - rewrite app_nil_r. destruct (existsSync env _); [|by intros ?%elem_of_nil].
    intros ->%list_elem_of_singleton. done.
  - intros [Hhere|Hbelow]%elem_of_app.
    + destruct (existsSync env _); [|by apply elem_of_nil in Hhere].
      apply list_elem_of_singleton in Hhere as ->. done.
    + assert (S d ≤ depth f) as Hdeep; [|split; lia].
      induction IH as [|entry entries Hentry _ IHentries];
        [by apply elem_of_nil in Hbelow|].
      apply elem_of_app in Hbelow as [Hfirst|Hrest]; [|by apply IHentries].
      destruct entry as [?|sub ?]; [by apply elem_of_nil in Hfirst|].
      destruct (skipped sub); [by apply elem_of_nil in Hfirst|].
      by apply Hentry in Hfirst as [? _].
Qed.

Lemma discovered_depth0 env f g :
  f ∈ discovered env → g ∈ discovered env →
  depth f = 0 → depth g = 0 → path f = path g.
Proof.
  unfold discovered. destruct (resolveWorkspaceRoot env) as [wsRoot|];
    [|by intros ?%elem_of_nil].
  rewrite !sortByDepth_perm.
  intros [_ Hf]%walk_depth [_ Hg]%walk_depth Hf0 Hg0.
  by rewrite Hf, Hg.
Qed.

#[local] Instance ownsObject_dec st objectName db :
  Decision (ownsObject st objectName db).
Proof.
  unfold ownsObject.
  destruct (files st !! db) as [d|]; [|right; by intros (?&?&?&?)].
  destruct (decide (Exists (λ o, obj_name o = objectName) (objects d)))
    as [Hex|Hnex].
  - left. apply Exists_exists in Hex as (o & Ho & Hname). by exists d, o.
  - right. intros (d' & o & [= <-] & Ho & Hname). apply Hnex.
    apply Exists_exists. by exists o.
Qed.

Lemma findDuckDBForObject_scan env objectName st :
  is_Some (resolveDuckdbBin env) →
  findDuckDBForObject env objectName st
  = scanFor (selectObjectId (Js.replaceQuotes "''" objectName))
      (discoverDuckDBPaths env) st.
Proof.
  intros [bin Hbin]. unfold findDuckDBForObject.
  destruct (discoverDuckDBPaths env); [done|]. by rewrite Hbin.
Qed.

(** C3: when some discovered file holds an object of the name, and the
    engine runs, [findDuckDBForObject] returns a discovered file that
    holds it and is no deeper than any other that does; it has queried
    the files before it, none of which holds the object, and none after
    it.  In particular, with the object in a file at depth 0 and in one
    at depth 1, the file at depth 0 is returned. *)
Theorem findDuckDBForObject_shallowest (env : Env) (st : Store) (objectName : string) :
  is_Some (resolveDuckdbBin env) →
  faults st = [] →
  (∃ g, g ∈ discovered env ∧ ownsObject st objectName (path g)) →
  ∃ before f after,
    discovered env = before ++ f :: after
    ∧ (findDuckDBForObject env objectName st).1 = Some (path f)
    ∧ ownsObject st objectName (path f)
    ∧ (∀ g, g ∈ discovered env → ownsObject st objectName (path g) →
            depth f ≤ depth g)
    ∧ Forall (λ g, ¬ ownsObject st objectName (path g)) before
    ∧ trace (findDuckDBForObject env objectName st).2
      = trace st ++ (QueryCall ∘ path <$> before ++ [f])
    ∧ (∀ f0 f1, f0 ∈ discovered env → f1 ∈ discovered env →
         depth f0 = 0 → depth f1 = 1 →
         ownsObject st objectName (path f0) → ownsObject st objectName (path f1) →
         (findDuckDBForObject env objectName st).1 = Some (path f0)).
Proof.
  intros [bin Hbin] Hq Hsome.
  destruct (first_split (λ g, ownsObject st objectName (path g)) (discovered env))
    as (before & f & after & Hsplit & Hbefore & Hf); [done|].
  set (sql := selectObjectId (Js.replaceQuotes "''" objectName)).
  assert (findDuckDBForObject env objectName st
          = (Some (path f), logCalls (QueryCall ∘ path <$> before ++ [f]) st))
    as Hrun.
  { rewrite findDuckDBForObject_scan by done.
    unfold discoverDuckDBPaths. rewrite Hsplit, fmap_app, fmap_cons.
    rewrite list_fmap_compose, fmap_app.
    apply (scanFor_hit sql); [done| |by apply hit_selectObjectId].
    apply Forall_fmap. eapply Forall_impl; [exact Hbefore|].
    intros g Hg Hhit. apply Hg. by apply hit_selectObjectId. }
  assert (∀ g, g ∈ discovered env → ownsObject st objectName (path g) →
               depth f ≤ depth g) as Hmin.
  { intros g Hg Howns. rewrite Hsplit in Hg.
    apply elem_of_app in Hg as [Hg|Hg].
    - rewrite Forall_forall in Hbefore. by destruct (Hbefore g).
    - apply elem_of_cons in Hg as [->|Hg]; [done|].
      unfold discovered in Hsplit.
      destruct (resolveWorkspaceRoot env) as [wsRoot|]; [|by destruct before].
      by eapply (sortByDepth_sorted _ before f after g). }
  exists before, f, after. rewrite Hrun. simpl.
  repeat split; try done.
  - by rewrite logCalls_trace.
  - intros f0 f1 Hf0 _ Hd0 _ Howns0 _. f_equal.
    apply (discovered_depth0 env); [|done| |done].
    + rewrite Hsplit. apply elem_of_app. right. by left.
    + specialize (Hmin f0 Hf0 Howns0). lia.
Qed.

End LocatorFacts.

Section AggregateFacts.
Import Workspace.

Lemma sameValueZero_eq a b : Js.sameValueZero a b = true → a = b.
Proof.
  destruct a as [[]|], b as [[]|]; simpl; try done.
  - by intros ->%Bool.eqb_prop.
  - by intros ->%Z.eqb_eq.
  - by intros ->%String.eqb_eq.
Qed.

Lemma sameValueZero_sym a b : Js.sameValueZero a b = Js.sameValueZero b a.
Proof.
  destruct a as [[]|], b as [[]|]; simpl; try done.
  - by destruct b0, b.
  - apply Z.eqb_sym.
  - apply String.eqb_sym.
Qed.

Lemma seenHas_true seen key :
  seenHas seen key = true ↔ ∃ s, s ∈ seen ∧ Js.sameValueZero key s = true.
Proof.
  unfold seenHas. rewrite existsb_exists.
  split; intros (s & Hs & Heq); exists s; by rewrite list_elem_of_In in *.
Qed.

Lemma seenHas_false seen key :
  seenHas seen key = false ↔ ∀ s, s ∈ seen → Js.sameValueZero key s = false.
Proof.
  rewrite <- not_true_iff_false, seenHas_true. split.
  - intros Hno s Hs. apply not_true_iff_false. intros Heq. apply Hno. by exists s.
  - intros Hall (s & Hs & Heq). by rewrite Hall in Heq.
Qed.

Lemma keysOf_app k m1 m2 : keysOf k (m1 ++ m2) = keysOf k m1 ++ keysOf k m2.
Proof. apply fmap_app. Qed.

(** The loop over the rows keeps exactly the unseen rows, and [seen]
    holds the keys of the rows kept. *)
Lemma mergeRow_unseen k rows merged :
  Js.truthy k = true →
  fold_left (mergeRow (Some k)) rows (keysOf k merged, merged)
  = (keysOf k (merged ++ unseen k merged rows), merged ++ unseen k merged rows).
Proof.
  intros Hk. revert merged.
  induction rows as [|row rows IH]; intros merged; simpl.
  - by rewrite app_nil_r.
  - rewrite Hk. destruct (seenHas (keysOf k merged) (row !! k)); [apply IH|].
    change (keysOf k merged ++ [row !! k]) with (keysOf k merged ++ keysOf k [row]).
    rewrite <- keysOf_app, IH. by rewrite <- !app_assoc.
Qed.

Lemma mergeFiles_quiet sql dedupeKey dbPaths acc st :
  faults st = [] →
  mergeFiles sql dedupeKey dbPaths acc st
  = (fold_left (mergeRow dedupeKey) (rowsIn st sql dbPaths) acc,
     logCalls (QueryCall <$> dbPaths) st).
Proof.
  revert acc st. induction dbPaths as [|db rest IH]; intros acc st Hq; [done|].
  simpl. unfold bind. rewrite execSyncJson_quiet by done.
  rewrite IH by (by apply logCall_quiet).
  unfold rowsIn. simpl. by rewrite fold_left_app.
Qed.

Lemma unseen_app k merged rows1 rows2 :
  unseen k merged (rows1 ++ rows2)
  = unseen k merged rows1 ++ unseen k (merged ++ unseen k merged rows1) rows2.
Proof.
  revert merged. induction rows1 as [|row rows1 IH]; intros merged; simpl.
  - by rewrite app_nil_r.
  - destruct (seenHas _ _); [apply IH|].
    rewrite IH. simpl. by rewrite <- !app_assoc.
Qed.

Lemma unseen_sublist k merged rows : unseen k merged rows `sublist_of` rows.
Proof.
  revert merged. induction rows as [|row rows IH]; intros merged; simpl; [done|].
  destruct (seenHas _ _); [by apply sublist_cons|by apply sublist_skip].
Qed.

(** A row is kept only when no row kept before carries its key. *)
Lemma unseen_fresh k merged rows r :
  r ∈ unseen k merged rows → seenHas (keysOf k merged) (r !! k) = false.
Proof.
  revert merged. induction rows as [|row rows IH]; intros merged; simpl.
  - by intros ?%elem_of_nil.
  - destruct (seenHas (keysOf k merged) (row !! k)) eqn:Hseen; [apply IH|].
    intros [->|Hr]%elem_of_cons; [done|].
    apply IH in Hr. rewrite seenHas_false in Hr |- *.
    intros s Hs. apply Hr. rewrite keysOf_app. apply elem_of_app. by left.
Qed.

(** The key of every row that went through the loop is carried by a row
    that was kept, unless it is an object, which equals nothing. *)
Lemma unseen_covers k merged rows r :
  r ∈ rows → Js.sameValueZero (r !! k) (r !! k) = true →
  ∃ r', r' ∈ merged ++ unseen k merged rows ∧ r' !! k = r !! k.
Proof.
  revert merged. induction rows as [|row rows IH]; intros merged Hr Hprim;
    [by apply elem_of_nil in Hr|].
  simpl. apply elem_of_cons in Hr as [->|Hr].
  - destruct (seenHas (keysOf k merged) (row !! k)) eqn:Hseen.
    + apply seenHas_true in Hseen as (s & Hs & Heq).
      apply list_elem_of_fmap in Hs as (r' & -> & Hr').
      exists r'. split; [apply elem_of_app; by left|].
      symmetry. by apply sameValueZero_eq.
    + exists row. split; [|done]. apply elem_of_app. right. by left.
  - destruct (seenHas (keysOf k merged) (row !! k)); [by apply IH|].
    destruct (IH (merged ++ [row]) Hr Hprim) as (r' & Hr' & Heq).
    exists r'. split; [|done]. by rewrite <- app_assoc in Hr'.
Qed.

(** A row whose key no earlier row carries is kept. *)
Lemma unseen_keeps k merged before r after :
  seenHas (keysOf k merged) (r !! k) = false →
  (∀ r', r' ∈ before → Js.sameValueZero (r' !! k) (r !! k) = false) →
  r ∈ unseen k merged (before ++ r :: after).
Proof.
  intros Hmerged Hbefore. rewrite unseen_app. apply elem_of_app. right.
  simpl.
  destruct (seenHas (keysOf k (merged ++ unseen k merged before)) (r !! k)) eqn:Hseen;
    [|by left].
  exfalso. apply seenHas_true in Hseen as (s & Hs & Heq).
  rewrite keysOf_app in Hs. apply elem_of_app in Hs as [Hs|Hs].
  - rewrite seenHas_false in Hmerged. by rewrite (Hmerged s Hs) in Heq.
  - apply list_elem_of_fmap in Hs as (r' & -> & Hr').
    assert (r' ∈ before) as Hin.
    { eapply elem_of_sublist; [exact Hr'|apply unseen_sublist]. }
    rewrite sameValueZero_sym, (Hbefore r' Hin) in Heq. done.
Qed.

Lemma rowsIn_app {T} st (sql : Database → list T) dbs1 dbs2 :
  rowsIn st sql (dbs1 ++ dbs2) = rowsIn st sql dbs1 ++ rowsIn st sql dbs2.
Proof. unfold rowsIn. by rewrite fmap_app, concat_app. Qed.

(** C4: with a dedupe key, whichever way the discovered files are cut in
    earlier and later ones, the merged result is the rows kept from the
    earlier files followed by rows of the later files, in the order of the
    files; no row kept from a later file carries the key of a row of an
    earlier file, whose key is carried by a row kept from the earlier
    files; and every row whose key no row before it carries is kept. *)
Theorem duckdbQueryAll_shadowing (env : Env) (st : Store)
    (sql : Database → list Row) (k : string) (earlier later : list string) :
  is_Some (resolveDuckdbBin env) →
  faults st = [] →
  Js.truthy k = true →
  discoverDuckDBPaths env = earlier ++ later →
  ∃ kept extra,
    (duckdbQueryAll env sql (Some k) st).1 = kept ++ extra
    ∧ kept `sublist_of` rowsIn st sql earlier
    ∧ extra `sublist_of` rowsIn st sql later
    ∧ (∀ r1 r2 : Row, r1 ∈ rowsIn st sql earlier → r2 ∈ extra →
         Js.sameValueZero (r1 !! k) (r2 !! k) = false)
    ∧ (∀ r1 r2 : Row, r1 ∈ rowsIn st sql earlier →
         Js.sameValueZero (r1 !! k) (r2 !! k) = true →
         ∃ r, r ∈ kept ∧ r !! k = r1 !! k)
    ∧ (∀ before r after,
         rowsIn st sql (earlier ++ later) = before ++ r :: after →
         (∀ r', r' ∈ before → Js.sameValueZero (r' !! k) (r !! k) = false) →
         r ∈ kept ++ extra).
Proof.
  intros [bin Hbin] Hq Hk Hsplit.
  set (kept := unseen k [] (rowsIn st sql earlier)).
  set (extra := unseen k ([] ++ kept) (rowsIn st sql later)).
  assert ((duckdbQueryAll env sql (Some k) st).1
          = unseen k [] (rowsIn st sql (earlier ++ later))) as Hrun.
  { unfold duckdbQueryAll. rewrite Hbin, Hsplit.
    destruct (earlier ++ later) as [|db rest] eqn:Hdbs; [done|].
    unfold bind. rewrite mergeFiles_quiet by done.
    change ([], []) with (keysOf k [], @nil Row).
    by rewrite mergeRow_unseen. }
  exists kept, extra. rewrite Hrun. repeat split.
  - by rewrite rowsIn_app, unseen_app.
  - apply unseen_sublist.
  - apply unseen_sublist.
  - intros r1 r2 Hr1 Hr2.
    apply not_true_iff_false. intros Heq.
    destruct (unseen_covers k [] (rowsIn st sql earlier) r1) as (r & Hr & Hkey);
      [done| |].
    { apply sameValueZero_eq in Heq as Heq'. by rewrite <- Heq' in Heq. }
    apply unseen_fresh in Hr2. rewrite seenHas_false in Hr2.
    rewrite sameValueZero_sym, <- Hkey, Hr2 in Heq; [done|].
    by apply list_elem_of_fmap_2.
  - intros r1 r2 Hr1 Heq.
    apply (unseen_covers k [] (rowsIn st sql earlier) r1); [done|].
    apply sameValueZero_eq in Heq as Heq'. by rewrite <- Heq' in Heq.
  - intros before r after Hrows Hbefore.
    rewrite <- (app_nil_l (kept ++ extra)).
    unfold extra, kept. rewrite <- unseen_app, <- rowsIn_app, Hrows.
    by apply unseen_keeps.
Qed.

End AggregateFacts.

(** * The pivot *)

Section PivotFacts.
Import ObjectRoute.

Lemma indexOf_Some (l : list string) x i :
  Js.indexOf l x = Some i → l !! i = Some x ∧ ∀ j, j < i → l !! j ≠ Some x.
Proof.
  revert i. induction l as [|y l IH]; intros i; simpl; [done|].
  destruct (String.eqb_spec y x) as [->|Hne].
  - intros [= <-]. split; [done|]. lia.
  - destruct (Js.indexOf l x) as [i'|]; [|done]. intros [= <-].
    destruct (IH i' eq_refl) as [Hi Hbefore]. split; [done|].
    intros [|j] Hj; simpl; [congruence|]. apply Hbefore. lia.
Qed.

Lemma indexOf_None (l : list string) x : Js.indexOf l x = None ↔ x ∉ l.
Proof.
  induction l as [|y l IH]; simpl.
  - split; [intros _; apply not_elem_of_nil|done].
  - rewrite not_elem_of_cons. destruct (String.eqb_spec y x) as [->|Hne].
    + split; [done|]. by intros [? _].
    + destruct (Js.indexOf l x); simpl.
      * split; [done|]. intros [_ Hx]. by apply IH in Hx.
      * split; [|done]. intros _. split; [done|]. by apply IH.
Qed.

Lemma mapGet_zip ids base id :
  mapGet (zip ids (seq base (length ids))) id
  = (λ i, base + i) <$> Js.indexOf ids id.
Proof.
  unfold mapGet. revert base.
  induction ids as [|y ids IH]; intros base; simpl; [done|].
  destruct (String.eqb y id); simpl; [f_equal; lia|].
  rewrite IH. destruct (Js.indexOf ids id); simpl; [f_equal; lia|done].
Qed.

Lemma entryIds_snoc rows row :
  entryIds (rows ++ [row])
  = if decide (entry_id row ∈ entryIds rows) then entryIds rows
    else entryIds rows ++ [entry_id row].
Proof. unfold entryIds. by rewrite fold_left_app. Qed.

Lemma entryIds_NoDup rows : NoDup (entryIds rows).
Proof.
  induction rows as [|row rows IH] using rev_ind; [constructor|].
  rewrite entryIds_snoc. case_decide; [done|].
  apply NoDup_app. split; [done|]. split; [|apply NoDup_singleton].
  by intros id Hid ->%list_elem_of_singleton.
Qed.

Lemma entryIds_elem rows id :
  id ∈ entryIds rows ↔ ∃ row, row ∈ rows ∧ entry_id row = id.
Proof.
  induction rows as [|row rows IH] using rev_ind.
  - split; [by intros ?%elem_of_nil|]. by intros (? & ?%elem_of_nil & _).
  - rewrite entryIds_snoc. setoid_rewrite elem_of_app.
    setoid_rewrite list_elem_of_singleton.
    case_decide as Hin.
    + rewrite IH. split; [intros (r & ? & ?); eauto|].
      intros (r & [Hr| ->] & Hid); [eauto|]. subst id. by apply IH.
    + rewrite elem_of_app, list_elem_of_singleton, IH.
      split.
      * intros [(r & ? & ?)| ->]; eauto.
      * intros (r & [Hr| ->] & Hid); eauto.
Qed.

Lemma groupOf_snoc id rows row :
  groupOf id (rows ++ [row])
  = groupOf id rows ++ (if decide (entry_id row = id) then [row] else []).
Proof.
  unfold groupOf. by rewrite filter_app.
Qed.

Lemma groupOf_nil id rows : groupOf id rows = [] ↔ id ∉ entryIds rows.
Proof.
  rewrite entryIds_elem. unfold groupOf. split.
  - intros Hnil (row & Hrow & Hid).
    assert (row ∈ filter (λ row, entry_id row = id) rows) as Hin
      by (by apply list_elem_of_filter).
    rewrite Hnil in Hin. by apply elem_of_nil in Hin.
  - intros Hno. destruct (filter _ rows) as [|row g] eqn:Hf; [done|].
    exfalso. apply Hno. exists row.
    assert (row ∈ filter (λ row, entry_id row = id) rows) as Hin
      by (rewrite Hf; by left).
    by apply list_elem_of_filter in Hin as [? ?].
Qed.

Lemma recordOf_other id rows row :
  entry_id row ≠ id → recordOf id (rows ++ [row]) = recordOf id rows.
Proof.
  intros Hne. unfold recordOf. rewrite groupOf_snoc.
  case_decide; [done|]. by rewrite app_nil_r.
Qed.

Lemma recordOf_first rows row :
  entry_id row ∉ entryIds rows →
  recordOf (entry_id row) (rows ++ [row]) = Some (setField (seed row) row).
Proof.
  intros Hnew%groupOf_nil. unfold recordOf. rewrite groupOf_snoc, Hnew.
  by case_decide.
Qed.

Lemma recordOf_next rows row :
  entry_id row ∈ entryIds rows →
  recordOf (entry_id row) (rows ++ [row])
  = (λ entry, setField entry row) <$> recordOf (entry_id row) rows.
Proof.
  intros Hold. unfold recordOf. rewrite groupOf_snoc.
  destruct (groupOf (entry_id row) rows) as [|first g] eqn:Hg.
  { by apply groupOf_nil in Hg. }
  case_decide; [|done]. simpl. by rewrite fold_left_app.
Qed.

Lemma pivotRow_setField s row :
  pivotRow s row
  = let '(entry, s) :=
      match mapGet (grouped s) (entry_id row) with
      | Some entry => (entry, s)
      | None =>
          (length (heap s),
           {| heap := heap s ++ [seed row];
              grouped := grouped s ++ [(entry_id row, length (heap s))] |})
      end in
    {| heap := alter (λ e, setField e row) entry (heap s); grouped := grouped s |}.
Proof.
  unfold pivotRow, setField.
  destruct (mapGet _ _) as [entry|]; destruct (Js.truthy _); try done.
  - destruct s as [h g]. simpl. by rewrite list_alter_id.
  - simpl. by rewrite list_alter_id.
Qed.

Lemma pivotRow_pivoted rows s row :
  pivoted rows s → pivoted (rows ++ [row]) (pivotRow s row).
Proof.
  intros [Hgrouped Hlength Hheap]. rewrite pivotRow_setField.
  rewrite Hgrouped, mapGet_zip.
  destruct (Js.indexOf (entryIds rows) (entry_id row)) as [i|] eqn:Hindex; simpl.
  - apply indexOf_Some in Hindex as [Hi _].
    assert (entry_id row ∈ entryIds rows) as Hin
      by (by eapply list_elem_of_lookup_2).
    split; simpl; rewrite entryIds_snoc, decide_True by done.
    + by rewrite Hgrouped.
    + by rewrite length_alter.
    + intros j id Hj. destruct (decide (i = j)) as [->|Hij].
      * assert (id = entry_id row) as -> by congruence.
        rewrite list_lookup_alter_eq, (Hheap j (entry_id row)) by done.
        by rewrite recordOf_next.
      * rewrite list_lookup_alter_ne by done.
        rewrite recordOf_other; [by apply Hheap|].
        intros <-. apply Hij.
        by eapply NoDup_lookup; [apply entryIds_NoDup|..].
  - apply indexOf_None in Hindex.
    split; simpl; rewrite entryIds_snoc, decide_False by done.
    + rewrite length_app, Hlength. simpl.
      rewrite Nat.add_1_r, seq_S, zip_with_app; [done|by rewrite length_seq].
    + by rewrite length_alter, !length_app, Hlength.
    + intros j id Hj.
      apply lookup_app_Some in Hj as [Hj|[Hge Hj]].
      * assert (j < length (heap s))
          by (rewrite Hlength; by eapply lookup_lt_Some).
        rewrite list_lookup_alter_ne by lia.
        rewrite lookup_app_l by done.
        rewrite recordOf_other; [by apply Hheap|].
        intros <-. apply Hindex. by eapply list_elem_of_lookup_2.
      * apply list_lookup_singleton_Some in Hj as [Hj <-].
        assert (j = length (heap s)) as -> by lia.
        rewrite list_lookup_alter_eq, lookup_app_r, Nat.sub_diag by done.
        simpl. by rewrite recordOf_first.
Qed.

Lemma fold_pivoted rows : 
  pivoted rows (fold_left pivotRow rows {| heap := []; grouped := [] |}).
Proof.
  induction rows as [|row rows IH] using rev_ind.
  - split; [done..|]. by intros i id ?.
  - rewrite fold_left_app. simpl. by apply pivotRow_pivoted.
Qed.

Lemma values_of_zip (ids : list string) (before h : list Entry) :
  length ids = length h →
  omap (λ kv : string * nat, (before ++ h) !! kv.2)
       (zip ids (seq (length before) (length h)))
  = h.
Proof.
  revert ids before. induction h as [|e h IH]; intros ids before Hlen.
  - by destruct ids.
  - destruct ids as [|id ids]; [done|]. simpl.
    rewrite lookup_app_r, Nat.sub_diag by done. simpl. f_equal.
    specialize (IH ids (before ++ [e])).
    rewrite <- app_assoc, length_app, Nat.add_1_r in IH. simpl in IH.
    apply IH. simpl in Hlen. lia.
Qed.

Lemma pivoted_mapValues rows s : pivoted rows s → mapValues s = heap s.
Proof.
  intros [Hgrouped Hlength Hheap]. unfold mapValues.
  rewrite Hgrouped, <- Hlength. by apply (values_of_zip _ []).
Qed.

Lemma pivoted_values rows s : pivoted rows s → mapValues s = pivotSpec rows.
Proof.
  intros Hp. rewrite (pivoted_mapValues rows s Hp).
  destruct Hp as [Hgrouped Hlength Hheap]. unfold pivotSpec.
  revert Hlength Hheap. generalize (heap s) as h. generalize (entryIds rows) as ids.
  intros ids h. revert ids.
  assert (∀ ids,
    length h = length ids →
    (∀ i id, ids !! i = Some id → h !! i = recordOf id rows) →
    h = omap (λ id, recordOf id rows) ids) as Hgen; [|done].
  induction h as [|e h IH]; intros [|id ids] Hlen Hlook; try done.
  simpl. rewrite <- (Hlook 0 id eq_refl). simpl. f_equal.
  apply IH; [simpl in Hlen; lia|]. intros i id' Hi. by apply (Hlook (S i)).
Qed.

End PivotFacts.

Section PivotTheorem.
Import ObjectRoute.

Lemma truthy_true s : Js.truthy s = true ↔ s ≠ "".
Proof.
  unfold Js.truthy. destruct (String.eqb_spec s ""); simpl; split; try done.
Qed.

Lemma seed_keys row key : is_Some (props (seed row) !! key) ↔ key ∈ seedKeys.
Proof.
  unfold seed, seedKeys. cbn [props].
  rewrite !lookup_insert_is_Some', lookup_empty.
  rewrite !elem_of_cons, elem_of_nil. split.
  - intros [<-|[<-|[<-|Hnone]]]; eauto. by destruct Hnone.
  - intros [->|[->|[->|[]]]]; eauto.
Qed.

(** An assignment to a key other than [__proto__] sets that key. *)
Lemma assignField_keys name v entry key :
  key ≠ "__proto__" →
  is_Some (props (assignField name v entry) !! key)
  ↔ name = key ∨ is_Some (props entry !! key).
Proof.
  intros Hkey. unfold assignField.
  destruct (String.eqb_spec name "__proto__") as [->|Hname]; cbn [andb].
  - destruct (nullProto entry); cbn [negb props].
    + rewrite lookup_insert_is_Some. split; [intros [?|[_ ?]]; eauto|].
      intros [?|?]; [by left|]. right. split; [congruence|done].
    + split.
      * intros H. right. by destruct v.
      * intros [?|?]; [congruence|]. by destruct v.
  - cbn [props]. rewrite lookup_insert_is_Some. split.
    + intros [?|[_ ?]]; eauto.
    + intros [?|?]; [by left|].
      destruct (decide (name = key)); [by left|by right].
Qed.

Lemma setField_keys group entry key :
  key ≠ "__proto__" →
  is_Some (props (fold_left setField group entry) !! key)
  ↔ is_Some (props entry !! key)
    ∨ (key ≠ "" ∧ ∃ row, row ∈ group ∧ field_name row = key).
Proof.
  intros Hproto. revert entry.
  induction group as [|row group IH]; intros entry; simpl.
  - split; [by left|]. intros [?|(_ & ? & ?%elem_of_nil & _)]; done.
  - rewrite IH. unfold setField.
    destruct (Js.truthy (field_name row)) eqn:Htruthy.
    + apply truthy_true in Htruthy. rewrite assignField_keys by done. split.
      * intros [[<-|?]|(Hkey & r & Hr & Hname)]; [|by left|].
        -- right. split; [done|]. exists row. split; [by left|done].
        -- right. split; [done|]. exists r. split; [by right|done].
      * intros [?|(Hkey & r & [->|Hr]%elem_of_cons & Hname)].
        -- left. by right.
        -- left. by left.
        -- right. split; [done|]. by exists r.
    + apply not_true_iff_false in Htruthy. rewrite truthy_true in Htruthy.
      split.
      * intros [?|(Hkey & r & Hr & Hname)]; [by left|].
        right. split; [done|]. exists r. split; [by right|done].
      * intros [?|(Hkey & r & [->|Hr]%elem_of_cons & Hname)]; [by left| |].
        -- exfalso. apply Htruthy. intros Heq. apply Hkey. congruence.
        -- right. split; [done|]. by exists r.
Qed.

Lemma pivotEavRows_spec rows : pivotEavRows rows = pivotSpec rows.
Proof. unfold pivotEavRows. apply pivoted_values, fold_pivoted. Qed.

Lemma pivotEavRows_lookup rows i id :
  entryIds rows !! i = Some id → pivotEavRows rows !! i = recordOf id rows.
Proof.
  intros Hi. unfold pivotEavRows.
  pose proof (fold_pivoted rows) as Hp.
  rewrite (pivoted_mapValues _ _ Hp). by apply (pivoted_heap _ _ Hp).
Qed.

(** The pivot is the grouping of the rows by entry id: one record for
    each distinct entry id, in the order the ids first appear; the record
    of an entry is the seed of its first row after the assignments of
    the rows of that entry with a field name.  Of the keys other than
    [__proto__] it has the three seed keys and the field names of those
    rows, and no other. *)
Lemma pivotEavRows_groups (rows : list EavRow) :
  pivotEavRows rows = pivotSpec rows
  ∧ NoDup (entryIds rows)
  ∧ (∀ id, id ∈ entryIds rows ↔ ∃ row, row ∈ rows ∧ entry_id row = id)
  ∧ length (pivotEavRows rows) = length (entryIds rows)
  ∧ (∀ i id, entryIds rows !! i = Some id →
       ∃ entry first,
         pivotEavRows rows !! i = Some entry
         ∧ head (groupOf id rows) = Some first
         ∧ entry = fold_left setField (groupOf id rows) (seed first)
         ∧ ∀ key, key ≠ "__proto__" →
             (is_Some (props entry !! key)
              ↔ key ∈ seedKeys
                ∨ (key ≠ "" ∧ ∃ row, row ∈ rows ∧ entry_id row = id
                                     ∧ field_name row = key))).
Proof.
  split; [apply pivotEavRows_spec|]. split; [apply entryIds_NoDup|].
  split; [apply entryIds_elem|]. split.
  { unfold pivotEavRows. pose proof (fold_pivoted rows) as Hp.
    rewrite (pivoted_mapValues _ _ Hp). apply (pivoted_length _ _ Hp). }
  intros i id Hi. rewrite (pivotEavRows_lookup rows i id Hi). unfold recordOf.
  destruct (groupOf id rows) as [|first group] eqn:Hgroup.
  { apply groupOf_nil in Hgroup. exfalso. apply Hgroup.
    by eapply list_elem_of_lookup_2. }
  exists (fold_left setField (first :: group) (seed first)), first.
  split; [done|]. split; [done|]. split; [done|]. intros key Hproto. split.
  - intros [Hseed|(Hkey & row & Hrow & Hname)]%setField_keys; [| |done].
    + left. by apply (proj1 (seed_keys first key)).
    + right. split; [done|]. exists row.
      rewrite <- Hgroup in Hrow. apply list_elem_of_filter in Hrow as [? ?].
      done.
  - intros [Hseed|(Hkey & row & Hrow & Hid & Hname)]; apply setField_keys; try done.
    + left. by apply (proj2 (seed_keys first key)).
    + right. split; [done|]. exists row. split; [|done].
      rewrite <- Hgroup. by apply list_elem_of_filter.
Qed.

(** The example of the specification: Alice has a name and an age, Bob a
    name only, and the record of Bob has no [age] key. *)
Example pivotEavRows_alice_bob (c1 u1 c2 u2 : string) :
  let row id c u f v :=
    {| entry_id := id; created_at := c; updated_at := u;
       field_name := f; value := Some v |} in
  props <$> pivotEavRows [row "e1" c1 u1 "name" "Alice"; row "e1" c1 u1 "age" "30";
                          row "e2" c2 u2 "name" "Bob"]
  = [ <["age" := Js.Str "30"]> (<["name" := Js.Str "Alice"]>
        (<["updated_at" := Js.Str u1]> (<["created_at" := Js.Str c1]>
          (<["entry_id" := Js.Str "e1"]> ∅))));
      <["name" := Js.Str "Bob"]>
        (<["updated_at" := Js.Str u2]> (<["created_at" := Js.Str c2]>
          (<["entry_id" := Js.Str "e2"]> ∅))) ].
Proof. reflexivity. Qed.

(** C6: a field named [__proto__] gets no key.  For one row of that
    field, with a text for value, the pivot yields the one record of the
    entry, and its keys are the three seed keys alone: the assignment
    has met the accessor of [Object.prototype], which leaves a string
    aside. *)
Theorem pivotEavRows_proto_key :
  let row := {| entry_id := "e1"; created_at := "2026-01-01";
                updated_at := "2026-01-02";
                field_name := "__proto__"; value := Some "x" |} in
  pivotEavRows [row]
  = [{| props := <["updated_at" := Js.Str "2026-01-02"]>
                   (<["created_at" := Js.Str "2026-01-01"]>
                      (<["entry_id" := Js.Str "e1"]> ∅));
        nullProto := false |}]
  ∧ (∀ entry, entry ∈ pivotEavRows [row] → props entry !! "__proto__" = None)
  ∧ (∃ r, r ∈ [row] ∧ entry_id r = "e1" ∧ field_name r = "__proto__"
          ∧ field_name r ≠ "").
Proof.
  intros row. split; [reflexivity|]. split.
  - intros entry Hentry. change (pivotEavRows [row]) with [seed row] in Hentry.
    apply list_elem_of_singleton in Hentry as ->. reflexivity.
  - exists row. split; [by left|]. by repeat split.
Qed.

End PivotTheorem.

(** * The mutation routes *)

Section BridgeFacts.
Import Workspace.

Lemma scanFor_inv sql dbPaths st r st' :
  scanFor sql dbPaths st = (r, st') →
  files st' = files st
  ∧ (faults st = [] → faults st' = [])
  ∧ ∀ db, r = Some db → hit st sql db.
Proof.
  revert st. induction dbPaths as [|db rest IH]; intros st; simpl.
  - by intros [= <- <-].
  - unfold bind, execSyncJson, bind, spawn.
    destruct (negb (nextFails st)); simpl.
    + destruct (files st !! db) as [d|] eqn:Hd; simpl.
      * destruct (sql d) as [|row rows] eqn:Hrows.
        -- intros (Hfiles & Hquiet & Hhit)%IH. split; [done|]. split; [|done].
           intros Hq. apply Hquiet. by apply logCall_quiet.
        -- intros [= <- <-]. split; [done|]. split; [apply logCall_quiet|].
           intros ? [= <-]. exists d. by rewrite Hrows.
      * intros (Hfiles & Hquiet & Hhit)%IH. split; [done|]. split; [|done].
        intros Hq. apply Hquiet. by apply logCall_quiet.
    + intros (Hfiles & Hquiet & Hhit)%IH. split; [done|]. split; [|done].
      intros Hq. apply Hquiet. by apply logCall_quiet.
Qed.

(** The locator writes nothing, and the file it returns holds the object. *)
Lemma findDuckDBForObject_inv env objectName st r st' :
  findDuckDBForObject env objectName st = (r, st') →
  files st' = files st
  ∧ (faults st = [] → faults st' = [])
  ∧ ∀ db, r = Some db →
      is_Some (resolveDuckdbBin env)
      ∧ hit st (selectObjectId (Sql.sqlEscape objectName)) db.
Proof.
  unfold findDuckDBForObject.
  destruct (discoverDuckDBPaths env) as [|db0 dbs]; [by intros [= <- <-]|].
  destruct (resolveDuckdbBin env) as [bin|]; [|by intros [= <- <-]].
  intros (Hfiles & Hquiet & Hhit)%scanFor_inv. repeat split; try done.
  by apply Hhit.
Qed.

Lemma duckdbQueryOnFile_inv {T} env db (sql : Database → list T) st rows st' :
  duckdbQueryOnFile env db sql st = (rows, st') →
  files st' = files st
  ∧ (faults st = [] → faults st' = [])
  ∧ (rows = [] ∨ ∃ d, files st !! db = Some d ∧ rows = sql d)
  ∧ (is_Some (resolveDuckdbBin env) → faults st = [] → rows = fileRows st sql db).
Proof.
  unfold duckdbQueryOnFile.
  destruct (resolveDuckdbBin env) as [bin|].
  - unfold bind, execSyncJson, bind, spawn, ret, nextFails, fileRows.
    destruct (faults st) as [|[] ?] eqn:Hfaults; simpl; intros [= <- <-]; simpl;
      rewrite ?Hfaults; repeat split; try done;
      destruct (files st !! db) as [d|]; simpl; eauto.
  - intros [= <- <-]. split; [done|]. split; [done|]. split; [by left|].
    by intros [? ?].
Qed.

Lemma duckdbExecOnFile_inv env db sql st ok st' :
  duckdbExecOnFile env db sql st = (ok, st') →
  (faults st = [] → faults st' = [])
  ∧ (ok = false ∧ files st' = files st
     ∨ ok = true ∧ files st' = alter sql db (files st))
  ∧ (is_Some (resolveDuckdbBin env) → faults st = [] →
     is_Some (files st !! db) → ok = true).
Proof.
  unfold duckdbExecOnFile.
  destruct (resolveDuckdbBin env) as [bin|].
  - unfold execSyncStmt, bind, spawn, nextFails. simpl.
    destruct (files st !! db) as [d|] eqn:Hd.
    + destruct (faults st) as [|[] ?] eqn:Hfaults; simpl; intros [= <- <-]; simpl;
        rewrite ?Hfaults; repeat split; eauto; intros; simplify_eq.
    + intros [= <- <-]. simpl. split; [by intros ->|]. split; [by left|].
      by intros _ _ [? ?].
  - intros [= <- <-]. split; [done|]. split; [by left|]. by intros [? ?].
Qed.

End BridgeFacts.

Section EnumRenameFacts.
Import Workspace Sql Http EnumRename.

Lemma arrayIncludes_true (l : list string) x : Js.arrayIncludes l x = true ↔ x ∈ l.
Proof.
  unfold Js.arrayIncludes. rewrite existsb_exists. split.
  - intros (y & Hy & ->%String.eqb_eq). by apply list_elem_of_In.
  - intros Hx. exists x. split; [by apply list_elem_of_In|apply String.eqb_refl].
Qed.

Lemma arrayIncludes_false (l : list string) x : Js.arrayIncludes l x = false ↔ x ∉ l.
Proof. by rewrite <- not_true_iff_false, arrayIncludes_true. Qed.

Lemma head_cons {A} (l : list A) x : head l = Some x → ∃ rest, l = x :: rest.
Proof. destruct l; [done|]. intros [= ->]. by eexists. Qed.

Lemma truthy_nonempty s : s ≠ "" → Js.truthy s = true.
Proof. intros Hs. by apply truthy_true. Qed.

(** A request that reaches the field goes on to the lookup of the old
    value, in a store with the same files; a failing engine may answer
    404 before. *)
Lemma PATCH_validated env st name fieldId old new dbFile d objectId field vals :
  FieldFound env st name fieldId dbFile d objectId field vals →
  old ≠ "" → new ≠ "" → Js.trim old ≠ Js.trim new →
  ∃ st3,
    files st3 = files st
    ∧ (faults st = [] → faults st3 = [])
    ∧ is_Some (resolveDuckdbBin env)
    ∧ (PATCH env name fieldId {| oldValue := Some old; newValue := Some new |} st
       = renameValue env dbFile fieldId old new vals st3
       ∨ faults st ≠ []
         ∧ ∃ message,
             PATCH env name fieldId {| oldValue := Some old; newValue := Some new |} st
             = (error 404 message, st3)).
Proof.
  intros [Hname Hfile Htables Hobject Hfield Hvalues] Hold Hnew Hdiff.
  unfold PATCH. rewrite Hname. simpl. unfold bind.
  destruct (findDuckDBForObject env name st) as [r st1] eqn:Hfind.
  simpl in Hfile. subst r.
  apply findDuckDBForObject_inv in Hfind as (Hfiles1 & Hquiet1 & Hhit).
  destruct (Hhit dbFile eq_refl) as [Hbin _].
  rewrite !truthy_nonempty by done. simpl.
  apply String.eqb_neq in Hdiff as ->.
  destruct (duckdbQueryOnFile env dbFile (selectObjectId (sqlEscape name)) st1)
    as [objects st2] eqn:Hq2.
  apply duckdbQueryOnFile_inv in Hq2 as (Hfiles2 & Hquiet2 & Hrows2 & Hfull2).
  assert (files st2 = files st) as Hfiles2' by congruence.
  destruct Hrows2 as [->|(d2 & Hd2 & ->)].
  { exists st2. repeat split; [done|by auto|done|]. right. split; [|eexists; reflexivity].
    intros Hq. specialize (Hfull2 Hbin (Hquiet1 Hq)).
    unfold fileRows in Hfull2. rewrite Hfiles1, Htables in Hfull2. simpl in Hfull2.
    apply head_cons in Hobject as [rest Hrest]. by rewrite Hrest in Hfull2. }
  assert (d2 = d) as -> by congruence.
  apply head_cons in Hobject as [rest ->].
  destruct (duckdbQueryOnFile env dbFile _ st2) as [fields st3] eqn:Hq3.
  apply duckdbQueryOnFile_inv in Hq3 as (Hfiles3 & Hquiet3 & Hrows3 & Hfull3).
  assert (files st3 = files st) as Hfiles3' by congruence.
  exists st3. repeat split; [done|by auto|done|].
  destruct Hrows3 as [->|(d3 & Hd3 & ->)].
  { right. split; [|eexists; reflexivity].
    intros Hq. specialize (Hfull3 Hbin (Hquiet2 (Hquiet1 Hq))).
    unfold fileRows in Hfull3. rewrite Hfiles2', Htables in Hfull3. simpl in Hfull3.
    apply head_cons in Hfield as [rest' Hrest]. by rewrite Hrest in Hfull3. }
  assert (d3 = d) as -> by congruence.
  apply head_cons in Hfield as [rest' ->]. rewrite Hvalues. by left.
Qed.

(** C9: a rename of a value to itself, up to the white space around it,
    writes nothing; and the request of a valid name whose file is found,
    with non-empty values, is answered [{ok: true, changed: 0}]. *)
Theorem enum_rename_noop (env : Env) (st : Store) (name fieldId old new : string) :
  Js.trim old = Js.trim new →
  let request := {| oldValue := Some old; newValue := Some new |} in
  files (PATCH env name fieldId request st).2 = files st
  ∧ (validName name = true →
     is_Some (findDuckDBForObject env name st).1 →
     old ≠ "" → new ≠ "" →
     (PATCH env name fieldId request st).1
     = json 200 [("ok", Js.Bool true); ("changed", Js.Num 0)]).
Proof.
  intros Htrim request. unfold PATCH, request. simpl.
  destruct (validName name); simpl; [|split; [done|intros ?; discriminate]].
  unfold bind.
  destruct (findDuckDBForObject env name st) as [r st1] eqn:Hfind.
  apply findDuckDBForObject_inv in Hfind as (Hfiles & _ & _).
  destruct r as [dbFile|]; simpl; [|split; [done|by intros _ [? ?]]].
  rewrite Htrim, String.eqb_refl.
  destruct (Js.truthy old) eqn:Hold, (Js.truthy new) eqn:Hnew; simpl;
    (split; [done|]); intros _ _ Ho Hn;
    try done; apply truthy_nonempty in Ho, Hn; congruence.
Qed.

(** C8, amended: when the trimmed old value is in the enum values of the
    field, differs from the trimmed new value, and the trimmed new value is
    in them too, the rename writes nothing and, the engine running, is
    answered 409. *)
Theorem enum_rename_conflict (env : Env) (st : Store)
    (name fieldId old new dbFile : string) (d : Database) (objectId : string)
    (field : FieldRow) (vals : list string) :
  FieldFound env st name fieldId dbFile d objectId field vals →
  old ≠ "" → new ≠ "" →
  Js.trim old ≠ Js.trim new →
  Js.trim old ∈ vals →
  Js.trim new ∈ vals →
  let request := {| oldValue := Some old; newValue := Some new |} in
  files (PATCH env name fieldId request st).2 = files st
  ∧ (faults st = [] →
     (PATCH env name fieldId request st).1
     = error 409 ("Enum value '" +:+ new +:+ "' already exists")).
Proof.
  intros Hfound Hold Hnew Hdiff Hin_old Hin_new request.
  destruct (PATCH_validated env st name fieldId old new dbFile d objectId field vals)
    as (st3 & Hfiles & Hquiet & Hbin & [Hrun|(Hfaults & message & Hrun)]);
    try done; unfold request; rewrite Hrun; simpl.
  - unfold renameValue.
    destruct (Js.indexOf vals (Js.trim old)) as [idx|] eqn:Hidx;
      [|by apply indexOf_None in Hidx].
    apply arrayIncludes_true in Hin_new as ->. by split.
  - by split.
Qed.

End EnumRenameFacts.

Section EnumRenameTheorems.
Import Workspace Sql Http EnumRename.

Lemma alter_alter_insert {A} (m : gmap string A) i (f g : A → A) x :
  m !! i = Some x → alter g i (alter f i m) = <[i := g (f x)]> m.
Proof.
  intros Hx. apply map_eq. intros j. destruct (decide (i = j)) as [<-|Hne].
  - by rewrite !lookup_alter_eq, lookup_insert_eq, Hx.
  - by rewrite !lookup_alter_ne, lookup_insert_ne.
Qed.

Lemma updateEntryValues_row fieldId old new r :
  (if decide (holds (sqlEscape fieldId) (sqlEscape old) r)
   then setValue (literal (sqlEscape new)) r else r)
  = renamedEntry fieldId old new r.
Proof.
  unfold renamedEntry. rewrite (literal_sqlEscape new).
  destruct (decide (holds _ _ r)) as [Hholds|Hholds];
    destruct (decide (_ ∧ _)) as [Hren|Hren]; try done; exfalso;
    unfold holds in Hholds; rewrite !literal_sqlEscape in Hholds; tauto.
Qed.

Lemma updateEnumValues_row fieldId json f :
  (if decide (fld_id f = literal (sqlEscape fieldId)) then setEnumValues json f else f)
  = if decide (fld_id f = fieldId) then setEnumValues json f else f.
Proof.
  destruct (decide (fld_id f = literal _)) as [Hlit|Hlit];
    destruct (decide (fld_id f = fieldId)) as [Hid|Hid]; try done; exfalso;
    rewrite literal_sqlEscape in Hlit; tauto.
Qed.

(** The two statements of the route, one after the other. *)
Lemma updates_renamed fieldId old new idx vals d :
  updateEntryValues (sqlEscape new) (sqlEscape fieldId) (sqlEscape old)
    (updateEnumValues (ArrayText (<[idx := new]> vals)) (sqlEscape fieldId) d)
  = renamed fieldId old new idx vals d.
Proof.
  unfold updateEntryValues, updateEnumValues, renamed. simpl. f_equal.
  - apply list_fmap_ext. intros _ f _. apply updateEnumValues_row.
  - apply list_fmap_ext. intros _ r _. apply updateEntryValues_row.
Qed.

(** C1: for a field whose enum values hold the trimmed old value, found
    at index [i], and not the trimmed new value, the rename, the engine
    running, succeeds and leaves the tables [renamed]: the enum values of
    the field are the old ones with index [i] alone replaced by the
    trimmed new value, no colour is touched, and every stored value of
    the field equal to the trimmed old value is the trimmed new value,
    the other rows being kept. *)
Theorem enum_rename_in_place (env : Env) (st : Store)
    (name fieldId old new dbFile : string) (d : Database) (objectId : string)
    (field : FieldRow) (vals : list string) (i : nat) :
  FieldFound env st name fieldId dbFile d objectId field vals →
  faults st = [] →
  old ≠ "" → new ≠ "" →
  Js.indexOf vals (Js.trim old) = Some i →
  Js.trim new ∉ vals →
  let request := {| oldValue := Some old; newValue := Some new |} in
  let vals' := <[i := Js.trim new]> vals in
  let d' := renamed fieldId (Js.trim old) (Js.trim new) i vals d in
  (PATCH env name fieldId request st).1
  = json 200 [("ok", Js.Bool true); ("updated", Js.Bool true)]
  ∧ files (PATCH env name fieldId request st).2 = <[dbFile := d']> (files st)
  ∧ length vals' = length vals
  ∧ vals' !! i = Some (Js.trim new)
  ∧ (∀ j, j ≠ i → vals' !! j = vals !! j)
  ∧ (NoDup vals → ∀ j, vals !! j = Some (Js.trim old) → j = i)
  ∧ renamedField fieldId vals' field ∈ fields d'
  ∧ enum_values (renamedField fieldId vals' field) = Some (ArrayText vals')
  ∧ enum_colors <$> fields d' = enum_colors <$> fields d
  ∧ (∀ r, r ∈ entry_fields d →
       ef_field_id r = fieldId → ef_value r = Some (Js.trim old) →
       ef_value (renamedEntry fieldId (Js.trim old) (Js.trim new) r)
       = Some (Js.trim new))
  ∧ (∀ r, r ∈ entry_fields d →
       ¬ (ef_field_id r = fieldId ∧ ef_value r = Some (Js.trim old)) →
       renamedEntry fieldId (Js.trim old) (Js.trim new) r = r)
  ∧ ef_entry_id <$> entry_fields d' = ef_entry_id <$> entry_fields d.
Proof.
  intros Hfound Hq Hold Hnew Hidx Hfresh request vals' d'.
  pose proof (indexOf_Some _ _ _ Hidx) as [Hi _].
  assert (Js.trim old ≠ Js.trim new) as Hdiff.
  { intros Heq. apply Hfresh. rewrite <- Heq. by eapply list_elem_of_lookup_2. }
  assert (fld_id field = fieldId ∧ field ∈ fields d) as [Hfid Hfin].
  { destruct Hfound as [_ _ _ _ Hfield _].
    apply head_cons in Hfield as [rest Hrest].
    assert (field ∈ selectField (sqlEscape fieldId) (sqlEscape objectId) d) as Hin
      by (rewrite Hrest; by left).
    apply list_elem_of_filter in Hin as [[Hlit _] Hin].
    by rewrite literal_sqlEscape in Hlit. }
  assert ((PATCH env name fieldId request st).1
          = json 200 [("ok", Js.Bool true); ("updated", Js.Bool true)]
          ∧ files (PATCH env name fieldId request st).2 = <[dbFile := d']> (files st))
    as [Hresponse Hfiles].
  { destruct (PATCH_validated env st name fieldId old new dbFile d objectId field vals)
      as (st3 & Hfiles3 & Hquiet3 & [bin Hbin] & [Hrun|(Hfaults & _)]);
      try done.
    unfold request. rewrite Hrun. unfold renameValue. rewrite Hidx.
    apply arrayIncludes_false in Hfresh as ->.
    unfold bind, duckdbExecOnFile. rewrite Hbin.
    destruct Hfound as [_ _ Htables _ _ _].
    erewrite execSyncStmt_quiet; [|by auto|by rewrite Hfiles3].
    erewrite execSyncStmt_quiet; [| |simpl; by rewrite lookup_alter_eq, Hfiles3, Htables].
    2: { simpl. by rewrite Hquiet3. }
    simpl. split; [done|].
    rewrite Hfiles3. erewrite alter_alter_insert by done.
    by rewrite updates_renamed. }
  split; [done|]. split; [done|]. split; [apply length_insert|].
  split; [apply list_lookup_insert_eq; by eapply lookup_lt_Some|].
  split; [intros j Hj; by apply list_lookup_insert_ne|].
  split; [intros Hnodup j Hj; by eapply NoDup_lookup|].
  split; [by apply list_elem_of_fmap_2|].
  split; [unfold renamedField; by rewrite decide_True|].
  split.
  { unfold d', renamed. simpl. rewrite <- list_fmap_compose.
    apply list_fmap_ext. intros _ f _. simpl. unfold renamedField.
    by case_decide. }
  split.
  { intros r _ Hfield Hvalue. unfold renamedEntry. by rewrite decide_True. }
  split.
  { intros r _ Hother. unfold renamedEntry. by rewrite decide_False. }
  unfold d', renamed. simpl. rewrite <- list_fmap_compose.
  apply list_fmap_ext. intros _ r _. simpl. unfold renamedEntry.
  by case_decide.
Qed.

(** C2, amended: the body of a 200 answer is [{ok: true, changed: 0}]
    when the values are equal once trimmed, and otherwise
    [{ok: true, updated: b}] with [b] a boolean, the outcome of the
    cascading statement: [true] whenever the engine runs, whatever the
    number of rows the statement changes. *)
Theorem enum_rename_updated_flag (env : Env) (st st' : Store)
    (name fieldId : string) (request : Body) (response : Response) :
  PATCH env name fieldId request st = (response, st') →
  status response = 200 →
  ∃ old new,
    oldValue request = Some old ∧ newValue request = Some new
    ∧ (Js.trim old = Js.trim new
       ∧ body response = [("ok", Js.Bool true); ("changed", Js.Num 0)]
       ∨ Js.trim old ≠ Js.trim new
         ∧ ∃ b : bool,
             body response = [("ok", Js.Bool true); ("updated", Js.Bool b)]
             ∧ (faults st = [] → b = true)).
Proof.
  unfold PATCH.
  destruct (validName name); simpl; [|by intros [= <- <-]].
  unfold bind at 1.
  destruct (findDuckDBForObject env name st) as [r st1] eqn:Hfind.
  apply findDuckDBForObject_inv in Hfind as (Hfiles1 & Hquiet1 & Hhit).
  destruct r as [dbFile|]; [|by intros [= <- <-]].
  destruct (Hhit dbFile eq_refl) as [Hbin (d & Hd & _)].
  destruct (oldValue request) as [old|]; [|by intros [= <- <-]].
  destruct (newValue request) as [new|]; [|by intros [= <- <-]].
  destruct (negb (Js.truthy old) || negb (Js.truthy new)); [by intros [= <- <-]|].
  destruct (String.eqb_spec (Js.trim old) (Js.trim new)) as [Hsame|Hdiff].
  { intros [= <- <-] _. exists old, new. split; [done|]. split; [done|]. by left. }
  unfold bind at 1.
  destruct (duckdbQueryOnFile env dbFile _ st1) as [objects st2] eqn:Hq2.
  apply duckdbQueryOnFile_inv in Hq2 as (Hfiles2 & Hquiet2 & _ & _).
  destruct objects as [|objectId ?]; [by intros [= <- <-]|].
  unfold bind at 1.
  destruct (duckdbQueryOnFile env dbFile _ st2) as [fields st3] eqn:Hq3.
  apply duckdbQueryOnFile_inv in Hq3 as (Hfiles3 & Hquiet3 & _ & _).
  destruct fields as [|field ?]; [by intros [= <- <-]|].
  destruct (parseEnumValues (enum_values field)) as [vals|]; [|by intros [= <- <-]].
  unfold renameValue.
  destruct (Js.indexOf vals (Js.trim old)) as [idx|]; [|by intros [= <- <-]].
  destruct (Js.arrayIncludes vals (Js.trim new)); [by intros [= <- <-]|].
  unfold bind at 1.
  destruct (duckdbExecOnFile env dbFile _ st3) as [ok1 st4] eqn:He1.
  apply duckdbExecOnFile_inv in He1 as (Hquiet4 & Hfiles4 & _).
  unfold bind at 1.
  destruct (duckdbExecOnFile env dbFile _ st4) as [ok2 st5] eqn:He2.
  apply duckdbExecOnFile_inv in He2 as (_ & _ & Hok2).
  intros [= <- <-] _. exists old, new. split; [done|]. split; [done|].
  right. split; [done|]. exists ok2. split; [done|].
  intros Hq. apply Hok2; [done|by auto|].
  destruct Hfiles4 as [[_ ->]|[_ ->]].
  - rewrite Hfiles3, Hfiles2, Hfiles1, Hd. by eexists.
  - rewrite lookup_alter_eq, Hfiles3, Hfiles2, Hfiles1, Hd. by eexists.
Qed.

(** C2 as stated fails: the rename of ["doing"] in the small workspace
    changes two stored values, and the answer carries [updated: true]. *)
Lemma enum_rename_updated_not_count :
  let request := {| oldValue := Some "doing"; newValue := Some "in_progress" |} in
  let response := (PATCH Demo.env "Task" "f1" request Demo.store).1 in
  changedRows "f1" "doing" Demo.rootDb = 2
  ∧ status response = 200
  ∧ body response = [("ok", Js.Bool true); ("updated", Js.Bool true)]
  ∧ body response
    ≠ [("ok", Js.Bool true);
       ("updated", Js.Num (Z.of_nat (changedRows "f1" "doing" Demo.rootDb)))].
Proof. vm_compute. by repeat split. Qed.

End EnumRenameTheorems.

Section BulkDeleteFacts.
Import Workspace Sql Http BulkDelete.

Lemma alter_insert_Some {A} (m : gmap string A) i (f : A → A) x :
  m !! i = Some x → alter f i m = <[i := f x]> m.
Proof.
  intros Hx. apply map_eq. intros j. destruct (decide (i = j)) as [<-|Hne].
  - by rewrite lookup_alter_eq, lookup_insert_eq, Hx.
  - by rewrite lookup_alter_ne, lookup_insert_ne.
Qed.

Lemma inList_sqlEscape ids entry : inList (sqlEscape <$> ids) entry ↔ entry ∈ ids.
Proof.
  unfold inList. rewrite <- list_fmap_compose.
  rewrite (list_fmap_ext _ id ids); [by rewrite list_fmap_id|].
  intros _ x _. apply literal_sqlEscape.
Qed.

(** The statements of the route, in the words of [deleted]. *)
Lemma deleteEntries_entries ids objectId d :
  entries (deleteEntries (sqlEscape <$> ids) (sqlEscape objectId) d)
  = filter (λ e, ¬ (ent_id e ∈ ids ∧ ent_object_id e = objectId)) (entries d).
Proof.
  simpl. apply list_filter_iff. intros e.
  by rewrite inList_sqlEscape, literal_sqlEscape.
Qed.

Lemma deletes_deleted ids objectId d :
  deleteEntries (sqlEscape <$> ids) (sqlEscape objectId)
    (deleteEntryFields (sqlEscape <$> ids) d)
  = deleted ids objectId d.
Proof.
  unfold deleted.
  rewrite <- (deleteEntries_entries ids objectId d). unfold deleteEntries. simpl.
  f_equal. apply list_filter_iff. intros r. by rewrite inList_sqlEscape.
Qed.

Lemma escapeAll_strings (ids : list string) :
  escapeAll (Js.Str <$> ids) = Some (sqlEscape <$> ids).
Proof.
  induction ids as [|id ids IH]; [done|].
  cbn [fmap list_fmap escapeAll]. fold (Js.Str <$> ids). by rewrite IH.
Qed.

(** The elements of an array that [escapeAll] accepts are strings. *)
Lemma escapeAll_Some (values : list Js.value) (idList : list string) :
  escapeAll values = Some idList →
  ∃ ids, values = Js.Str <$> ids ∧ idList = sqlEscape <$> ids.
Proof.
  revert idList. induction values as [|v values IH]; intros idList.
  - intros [= <-]. by exists [].
  - destruct v as [| | |id|]; try done. cbn [escapeAll].
    destruct (escapeAll values) as [rest|]; [|done].
    intros [= <-]. destruct (IH rest eq_refl) as (ids & -> & ->).
    by exists (id :: ids).
Qed.

(** What a request that reaches the object does: each of its two
    statements runs or fails, and when the engine runs both do. *)
Lemma POST_outcomes env st name ids dbFile d objectId :
  ObjectFound env st name dbFile d objectId →
  ids ≠ [] →
  let result := POST env name (Json {| entryIds := Some (Js.Str <$> ids) |}) st in
  let fieldsGone := deleteEntryFields (sqlEscape <$> ids) in
  let entriesGone := deleteEntries (sqlEscape <$> ids) (sqlEscape objectId) in
  ∃ ran1 ran2 : bool,
    files result.2
    = <[dbFile := (if ran2 then entriesGone else id)
                    ((if ran1 then fieldsGone else id) d)]> (files st)
    ∧ (faults st = [] →
       ran1 = true ∧ ran2 = true
       ∧ result.1 = json 200 [("ok", Js.Bool true);
                              ("deletedCount", Js.Num (Z.of_nat (length ids)))]).
Proof.
  intros [Hname Hfile Htables Hobject] Hids result fieldsGone entriesGone.
  unfold result, POST. rewrite Hname. simpl. unfold bind.
  destruct (findDuckDBForObject env name st) as [r st1] eqn:Hfind.
  simpl in Hfile. subst r.
  apply findDuckDBForObject_inv in Hfind as (Hfiles1 & Hquiet1 & Hhit).
  destruct (Hhit dbFile eq_refl) as [Hbin _].
  destruct ids as [|id0 ids0]; [done|]. cbn [fmap list_fmap]. cbv iota.
  change (Js.Str id0 :: (Js.Str <$> ids0)) with (Js.Str <$> (id0 :: ids0)).
  set (ids := id0 :: ids0) in *.
  destruct (duckdbQueryOnFile env dbFile _ st1) as [objects st2] eqn:Hq2.
  apply duckdbQueryOnFile_inv in Hq2 as (Hfiles2 & Hquiet2 & Hrows2 & Hfull2).
  apply head_cons in Hobject as [rest Hrest].
  destruct Hrows2 as [->|(d2 & Hd2 & ->)].
  { exists false, false. simpl. split.
    - rewrite Hfiles2, Hfiles1. by rewrite insert_id.
    - intros Hq. specialize (Hfull2 Hbin (Hquiet1 Hq)).
      unfold fileRows in Hfull2. rewrite Hfiles1, Htables in Hfull2.
      simpl in Hfull2. by rewrite Hrest in Hfull2. }
  assert (d2 = d) as -> by congruence. rewrite Hrest.
  rewrite escapeAll_strings, length_fmap.
  destruct (duckdbExecOnFile env dbFile _ st2) as [ok1 st3] eqn:He1.
  apply duckdbExecOnFile_inv in He1 as (Hquiet3 & Hfiles3 & Hok1).
  destruct (duckdbExecOnFile env dbFile _ st3) as [ok2 st4] eqn:He2.
  apply duckdbExecOnFile_inv in He2 as (Hquiet4 & Hfiles4 & Hok2).
  assert (files st2 !! dbFile = Some d) as Hd2' by (by rewrite Hfiles2).
  assert (files st2 = files st) as Hfiles2' by congruence.
  exists ok1, ok2. simpl. split.
  - destruct Hfiles3 as [[-> Hf3]|[-> Hf3]], Hfiles4 as [[-> Hf4]|[-> Hf4]];
      rewrite Hf4, ?Hf3.
    + rewrite Hfiles2'. by rewrite insert_id.
    + rewrite (alter_insert_Some _ _ _ d) by done. by rewrite Hfiles2'.
    + rewrite (alter_insert_Some _ _ _ d) by done. by rewrite Hfiles2'.
    + rewrite (alter_alter_insert _ _ _ _ d) by done. by rewrite Hfiles2'.
  - intros Hq.
    assert (ok1 = true) as ->.
    { apply Hok1; [done|by auto|by eexists]. }
    assert (ok2 = true) as ->.
    { apply Hok2; [done|by auto|].
      destruct Hfiles3 as [[? _]|[_ ->]]; [done|].
      rewrite lookup_alter_eq, Hd2'. by eexists. }
    done.
Qed.

End BulkDeleteFacts.

Section BulkDeleteTheorems.
Import Workspace Sql Http BulkDelete.

(** C7: a bulk delete on an object leaves in place every entry of
    another object, whatever the ids given and whether the engine runs or
    fails; the engine running, the tables are [deleted]: the values of
    all the given entries are gone, and of the entries only those among
    the given ids that belong to the object. *)
Theorem bulk_delete_scoped (env : Env) (st : Store) (name : string)
    (ids : list string) (dbFile : string) (d : Database) (objectId : string) :
  ObjectFound env st name dbFile d objectId →
  ids ≠ [] →
  let result := POST env name (Json {| entryIds := Some (Js.Str <$> ids) |}) st in
  ∃ d',
    files result.2 = <[dbFile := d']> (files st)
    ∧ (∀ e, e ∈ entries d → ent_object_id e ≠ objectId → e ∈ entries d')
    ∧ filter (λ e, ent_object_id e ≠ objectId) (entries d')
      = filter (λ e, ent_object_id e ≠ objectId) (entries d)
    ∧ (faults st = [] →
       d' = deleted ids objectId d
       ∧ entries d'
         = filter (λ e, ¬ (ent_id e ∈ ids ∧ ent_object_id e = objectId)) (entries d)
       ∧ entry_fields d' = filter (λ r, ef_entry_id r ∉ ids) (entry_fields d)).
Proof.
  intros Hfound Hids result.
  destruct (POST_outcomes env st name ids dbFile d objectId Hfound Hids)
    as (ran1 & ran2 & Hfiles & Hquiet).
  eexists. split; [exact Hfiles|].
  assert (entries ((if ran1 then deleteEntryFields (sqlEscape <$> ids) else id) d)
          = entries d) as Hkept by (by destruct ran1).
  split; [|split].
  - intros e He Hforeign. destruct ran2; simpl; rewrite Hkept; [|done].
    apply list_elem_of_filter. split; [|done].
    rewrite literal_sqlEscape. by intros [_ ?].
  - destruct ran2; simpl; rewrite Hkept; [|done].
    rewrite list_filter_filter. apply list_filter_iff. intros e.
    rewrite literal_sqlEscape. split; [by intros [? _]|].
    intros Hforeign. split; [done|]. by intros [_ ?].
  - intros Hq. destruct (Hquiet Hq) as (-> & -> & _).
    by rewrite deletes_deleted.
Qed.

Lemma removed_bound (l : list EntryRow) (ids : list string) objectId x :
  NoDup (ent_id <$> l) →
  x ∈ ids →
  (∀ e, e ∈ l → ent_id e = x → ent_object_id e ≠ objectId) →
  length l
  - length (filter (λ e, ¬ (ent_id e ∈ ids ∧ ent_object_id e = objectId)) l)
  < length ids.
Proof.
  intros Hnodup Hx Hforeign.
  set (P := λ e, ¬ (ent_id e ∈ ids ∧ ent_object_id e = objectId)).
  pose proof (filter_app_complement P l) as Hsplit.
  apply Permutation_length in Hsplit. rewrite length_app in Hsplit.
  set (gone := filter (λ e, ¬ P e) l) in *.
  assert (length gone < length ids); [|lia].
  apply elem_of_Permutation in Hx as [k Hk].
  rewrite Hk. simpl. apply Nat.lt_succ_r.
  rewrite <- (length_fmap ent_id gone). apply submseteq_length.
  apply NoDup_submseteq.
  - eapply sublist_NoDup; [exact Hnodup|apply fmap_sublist, sublist_filter].
  - intros y (e & -> & He)%list_elem_of_fmap.
    apply list_elem_of_filter in He as [Hgone He].
    assert (ent_id e ∈ ids ∧ ent_object_id e = objectId) as [Hin Hobj].
    { unfold P in Hgone. by apply dec_stable. }
    rewrite Hk in Hin. apply elem_of_cons in Hin as [Heq|Hin]; [|done].
    by destruct (Hforeign e He Heq).
Qed.

(** C10: the [deletedCount] of a successful bulk delete is the number of
    ids given; and, entry ids being unique, when one of the given ids is
    not the id of an entry of the object, it exceeds the number of
    entries removed. *)
Theorem bulk_delete_count (env : Env) (st st' : Store) (name : string)
    (request : Payload Body) (response : Response) :
  POST env name request st = (response, st') →
  status response = 200 →
  ∃ ids,
    request = Json {| entryIds := Some (Js.Str <$> ids) |}
    ∧ ids ≠ []
    ∧ body response = [("ok", Js.Bool true);
                       ("deletedCount", Js.Num (Z.of_nat (length ids)))]
    ∧ ∀ dbFile d d' objectId,
        ObjectFound env st name dbFile d objectId →
        files st' !! dbFile = Some d' →
        NoDup (ent_id <$> entries d) →
        (∃ x, x ∈ ids
              ∧ ∀ e, e ∈ entries d → ent_id e = x → ent_object_id e ≠ objectId) →
        removedEntries d d' < length ids.
Proof.
  intros Hrun Hstatus.
  assert (∃ ids, request = Json {| entryIds := Some (Js.Str <$> ids) |}
                 ∧ ids ≠ []
                 ∧ body response
                   = [("ok", Js.Bool true);
                      ("deletedCount", Js.Num (Z.of_nat (length ids)))])
    as (ids & -> & Hids & Hbody).
  { revert Hrun Hstatus. unfold POST. destruct (validName name); simpl;
      [|by intros [= <- <-]].
    unfold bind. destruct (findDuckDBForObject env name st) as [[dbFile|] st1];
      [|by intros [= <- <-]].
    destruct request as [| |[[values|]]]; try by intros [= <- <-].
    cbn [entryIds]. destruct values as [|v values]; [by intros [= <- <-]|].
    destruct (duckdbQueryOnFile env dbFile _ st1) as [[|objectId ?] st2];
      [by intros [= <- <-]|].
    destruct (escapeAll (v :: values)) as [idList|] eqn:Hescape;
      [|by intros [= <- <-]].
    apply escapeAll_Some in Hescape as (ids & Hvalues & ->).
    destruct (duckdbExecOnFile env dbFile _ st2) as [ok1 st3].
    destruct (duckdbExecOnFile env dbFile _ st3) as [ok2 st4].
    intros [= <- <-] _. exists ids.
    assert (length (v :: values) = length ids) as Hlen
      by (by rewrite Hvalues, length_fmap).
    split; [by rewrite Hvalues|]. split; [by intros ->|].
    cbn [body json]. by rewrite <- Hlen. }
  exists ids. split; [done|]. split; [done|]. split; [done|].
  intros dbFile d d' objectId Hfound Hd' Hnodup (x & Hx & Hforeign).
  destruct (POST_outcomes env st name ids dbFile d objectId Hfound)
    as (ran1 & ran2 & Hfiles & _); [done|].
  rewrite Hrun in Hfiles. cbn [snd] in Hfiles.
  rewrite Hfiles, lookup_insert_eq in Hd'.
  apply (inj Some) in Hd' as <-.
  unfold removedEntries.
  assert (entries ((if ran1 then deleteEntryFields (sqlEscape <$> ids) else id) d)
          = entries d) as Hkept by (by destruct ran1).
  destruct ran2.
  - rewrite deleteEntries_entries, Hkept. by eapply removed_bound.
  - cbn [id]. rewrite Hkept, Nat.sub_diag. destruct ids; [done|]. simpl. lia.
Qed.

End BulkDeleteTheorems.

(** * The theorems at work on the small workspace *)

Section Witnesses.
Import Workspace Sql Http.

Lemma demo_bin : is_Some (resolveDuckdbBin Demo.env).
Proof. by exists "/usr/bin/duckdb". Defined.

Lemma demo_root_owns_task : ownsObject Demo.store "Task" "/ws/workspace.duckdb".
Proof.
  exists Demo.rootDb, {| obj_id := "o1"; obj_name := "Task" |}.
  split; [reflexivity|]. split; [by left|reflexivity].
Defined.

Lemma demo_proj_owns_task : ownsObject Demo.store "Task" "/ws/proj/workspace.duckdb".
Proof.
  exists Demo.projDb, {| obj_id := "o7"; obj_name := "Task" |}.
  split; [reflexivity|]. split; [by left|reflexivity].
Defined.

Lemma demo_field_found :
  EnumRename.FieldFound Demo.env Demo.store "Task" "f1" "/ws/workspace.duckdb"
    Demo.rootDb "o1" Demo.statusField ["todo"; "doing"; "done"].
Proof. split; reflexivity. Defined.

Lemma demo_object_found :
  BulkDelete.ObjectFound Demo.env Demo.store "Task" "/ws/workspace.duckdb"
    Demo.rootDb "o1".
Proof. split; reflexivity. Defined.

(** The rename of the specification: ["doing"] becomes ["in_progress"]. *)
Lemma enum_rename_in_place_witness :
  let request := {| EnumRename.oldValue := Some " doing";
                    EnumRename.newValue := Some "in_progress " |} in
  let result := EnumRename.PATCH Demo.env "Task" "f1" request Demo.store in
  result.1 = json 200 [("ok", Js.Bool true); ("updated", Js.Bool true)]
  ∧ files result.2
    = <["/ws/workspace.duckdb" :=
          EnumRename.renamed "f1" "doing" "in_progress" 1 ["todo"; "doing"; "done"]
            Demo.rootDb]> (files Demo.store)
  ∧ <[1 := "in_progress"]> ["todo"; "doing"; "done"] !! 1 = Some "in_progress".
Proof.
  intros request result.
  destruct (enum_rename_in_place Demo.env Demo.store "Task" "f1" " doing"
              "in_progress " "/ws/workspace.duckdb" Demo.rootDb "o1"
              Demo.statusField ["todo"; "doing"; "done"] 1)
    as (Hresponse & Hfiles & _ & Hat & _).
  - exact demo_field_found.
  - reflexivity.
  - discriminate.
  - discriminate.
  - reflexivity.
  - apply (bool_decide_unpack _). vm_compute. exact I.
  - split; [exact Hresponse|]. split; [exact Hfiles|exact Hat].
Defined.

(** The answer to that rename carries a boolean. *)
Lemma enum_rename_updated_flag_witness :
  let request := {| EnumRename.oldValue := Some "doing";
                    EnumRename.newValue := Some "in_progress" |} in
  let result := EnumRename.PATCH Demo.env "Task" "f1" request Demo.store in
  status result.1 = 200
  ∧ ∃ b : bool,
      body result.1 = [("ok", Js.Bool true); ("updated", Js.Bool b)]
      ∧ (faults Demo.store = [] → b = true).
Proof.
  intros request result. split; [reflexivity|].
  destruct (enum_rename_updated_flag Demo.env Demo.store result.2 "Task" "f1"
              request result.1)
    as (old & new & Hold & Hnew & [[Hsame _]|[_ Hflag]]).
  - apply surjective_pairing.
  - reflexivity.
  - exfalso. injection Hold as <-. injection Hnew as <-. discriminate Hsame.
  - exact Hflag.
Defined.

(** When the process of the cascading statement fails, after the four
    invocations before it completed, the answer carries [updated: false]:
    the definition of the field is renamed and the stored values are
    not. *)
Example enum_rename_cascade_failure :
  let request := {| EnumRename.oldValue := Some "doing";
                    EnumRename.newValue := Some "in_progress" |} in
  let st := {| files := files Demo.store;
               faults := [false; false; false; false; true];
               trace := [] |} in
  let result := EnumRename.PATCH Demo.env "Task" "f1" request st in
  result.1 = json 200 [("ok", Js.Bool true); ("updated", Js.Bool false)]
  ∧ (fields <$> files result.2 !! "/ws/workspace.duckdb")
    = Some (fields (EnumRename.renamed "f1" "doing" "in_progress" 1
                      ["todo"; "doing"; "done"] Demo.rootDb))
  ∧ (entry_fields <$> files result.2 !! "/ws/workspace.duckdb")
    = Some (entry_fields Demo.rootDb).
Proof. by repeat split. Qed.

(** [Task] lives in the root store and in the store of the sub-project:
    the locator answers with the root store. *)
Lemma findDuckDBForObject_shallowest_witness :
  is_Some (resolveDuckdbBin Demo.env)
  ∧ faults Demo.store = []
  ∧ (findDuckDBForObject Demo.env "Task" Demo.store).1 = Some "/ws/workspace.duckdb".
Proof.
  split; [exact demo_bin|]. split; [reflexivity|].
  destruct (findDuckDBForObject_shallowest Demo.env Demo.store "Task")
    as (before & f & after & _ & _ & _ & _ & _ & _ & Hparticular).
  - exact demo_bin.
  - reflexivity.
  - exists {| path := "/ws/proj/workspace.duckdb"; depth := 1 |}.
    split; [|exact demo_proj_owns_task]. vm_compute. right. left.
  - apply (Hparticular {| path := "/ws/workspace.duckdb"; depth := 0 |}
                       {| path := "/ws/proj/workspace.duckdb"; depth := 1 |}).
    + vm_compute. left.
    + vm_compute. right. left.
    + reflexivity.
    + reflexivity.
    + exact demo_root_owns_task.
    + exact demo_proj_owns_task.
Defined.

(** The objects of the two stores merged by name: the [Task] of the
    sub-project is shadowed. *)
Lemma duckdbQueryAll_shadowing_witness :
  ∃ kept extra,
    (duckdbQueryAll Demo.env Demo.objectRows (Some "name") Demo.store).1
    = kept ++ extra
    ∧ kept `sublist_of` rowsIn Demo.store Demo.objectRows ["/ws/workspace.duckdb"]
    ∧ extra `sublist_of`
        rowsIn Demo.store Demo.objectRows ["/ws/proj/workspace.duckdb"]
    ∧ ∀ r1 r2 : Row,
        r1 ∈ rowsIn Demo.store Demo.objectRows ["/ws/workspace.duckdb"] →
        r2 ∈ extra → Js.sameValueZero (r1 !! "name") (r2 !! "name") = false.
Proof.
  destruct (duckdbQueryAll_shadowing Demo.env Demo.store Demo.objectRows "name"
              ["/ws/workspace.duckdb"] ["/ws/proj/workspace.duckdb"])
    as (kept & extra & Hmerged & Hkept & Hextra & Hshadow & _).
  - exact demo_bin.
  - reflexivity.
  - reflexivity.
  - reflexivity.
  - exists kept, extra. repeat split; assumption.
Defined.

(** The file of the specification is resolved below the root. *)
Lemma safeResolvePath_confined_witness :
  safeResolvePath Demo.env "assets/ok.png" = Some "/ws/assets/ok.png"
  ∧ safeResolvePath Demo.env "a/../../b" = None.
Proof.
  destruct (safeResolvePath_confined Demo.env) as (_ & _ & Hb & _ & Hok).
  split; [|exact Hb].
  apply (Hok "/ws"); reflexivity.
Defined.

(** A delete of [e1], of [p1], an entry of [Project], and of an id that
    does not exist: [p1] stays. *)
Lemma bulk_delete_scoped_witness :
  let request :=
    Json {| BulkDelete.entryIds := Some [Js.Str "e1"; Js.Str "p1"; Js.Str "zz"] |} in
  let result := BulkDelete.POST Demo.env "Task" request Demo.store in
  ∃ d',
    files result.2 = <["/ws/workspace.duckdb" := d']> (files Demo.store)
    ∧ {| ent_id := "p1"; ent_object_id := "o2";
         ent_created_at := "2026-01-01"; ent_updated_at := "2026-01-01" |}
      ∈ entries d'
    ∧ d' = BulkDelete.deleted ["e1"; "p1"; "zz"] "o1" Demo.rootDb.
Proof.
  intros request result.
  destruct (bulk_delete_scoped Demo.env Demo.store "Task" ["e1"; "p1"; "zz"]
              "/ws/workspace.duckdb" Demo.rootDb "o1")
    as (d' & Hfiles & Hforeign & _ & Hquiet).
  - exact demo_object_found.
  - discriminate.
  - exists d'. split; [exact Hfiles|]. split.
    + apply Hforeign; [|discriminate]. vm_compute. right. right. right. left.
    + apply Hquiet. reflexivity.
Defined.

(** The rename of ["doing"] to ["todo"], which exists, is refused. *)
Lemma enum_rename_conflict_witness :
  let request := {| EnumRename.oldValue := Some "doing";
                    EnumRename.newValue := Some "todo" |} in
  let result := EnumRename.PATCH Demo.env "Task" "f1" request Demo.store in
  files result.2 = files Demo.store
  ∧ result.1 = error 409 "Enum value 'todo' already exists".
Proof.
  intros request result.
  destruct (enum_rename_conflict Demo.env Demo.store "Task" "f1" "doing" "todo"
              "/ws/workspace.duckdb" Demo.rootDb "o1" Demo.statusField
              ["todo"; "doing"; "done"])
    as [Hfiles Hresponse].
  - exact demo_field_found.
  - discriminate.
  - discriminate.
  - discriminate.
  - vm_compute. right. left.
  - vm_compute. left.
  - split; [exact Hfiles|]. apply Hresponse. reflexivity.
Defined.

(** C8 as stated fails: ["todo"] is an enum value of the field, yet the
    rename of ["archived"], which is none, to ["todo"] is answered 404,
    and the rename of ["todo"] to itself is answered
    [{ok: true, changed: 0}]. *)
Lemma enum_rename_present_not_conflict :
  let absent := {| EnumRename.oldValue := Some "archived";
                   EnumRename.newValue := Some "todo" |} in
  let same := {| EnumRename.oldValue := Some "todo";
                 EnumRename.newValue := Some " todo " |} in
  EnumRename.parseEnumValues (enum_values Demo.statusField)
  = Some ["todo"; "doing"; "done"]
  ∧ "todo" ∈ ["todo"; "doing"; "done"]
  ∧ (EnumRename.PATCH Demo.env "Task" "f1" absent Demo.store).1
    = error 404 "Enum value 'archived' not found"
  ∧ status (EnumRename.PATCH Demo.env "Task" "f1" absent Demo.store).1 ≠ 409
  ∧ (EnumRename.PATCH Demo.env "Task" "f1" same Demo.store).1
    = json 200 [("ok", Js.Bool true); ("changed", Js.Num 0)]
  ∧ status (EnumRename.PATCH Demo.env "Task" "f1" same Demo.store).1 ≠ 409.
Proof.
  intros absent same. split; [reflexivity|]. split; [by left|].
  split; [reflexivity|]. split; [discriminate|].
  split; [reflexivity|discriminate].
Qed.

(** A rename of ["doing"] to itself with blanks around. *)
Lemma enum_rename_noop_witness :
  let request := {| EnumRename.oldValue := Some "doing";
                    EnumRename.newValue := Some " doing " |} in
  let result := EnumRename.PATCH Demo.env "Task" "f1" request Demo.store in
  Js.trim "doing" = Js.trim " doing "
  ∧ files result.2 = files Demo.store
  ∧ result.1 = json 200 [("ok", Js.Bool true); ("changed", Js.Num 0)].
Proof.
  intros request result. split; [reflexivity|].
  destruct (enum_rename_noop Demo.env Demo.store "Task" "f1" "doing" " doing ")
    as [Hfiles Hresponse]; [reflexivity|].
  split; [exact Hfiles|].
  apply Hresponse; [reflexivity|by eexists|discriminate|discriminate].
Defined.

(** Three ids are given, one entry is removed, three are counted. *)
Lemma bulk_delete_count_witness :
  let request :=
    Json {| BulkDelete.entryIds := Some [Js.Str "e1"; Js.Str "p1"; Js.Str "zz"] |} in
  let result := BulkDelete.POST Demo.env "Task" request Demo.store in
  status result.1 = 200
  ∧ body result.1 = [("ok", Js.Bool true); ("deletedCount", Js.Num 3)]
  ∧ ∀ d', files result.2 !! "/ws/workspace.duckdb" = Some d' →
          BulkDelete.removedEntries Demo.rootDb d' < 3.
Proof.
  intros request result. split; [reflexivity|].
  destruct (bulk_delete_count Demo.env Demo.store result.2 "Task" request result.1)
    as (ids & Hids & _ & Hbody & Hremoved).
  - apply surjective_pairing.
  - reflexivity.
  - assert (ids = ["e1"; "p1"; "zz"]) as ->.
    { unfold request in Hids. injection Hids as Hids.
      destruct ids as [|a [|b [|c [|? ?]]]]; try discriminate Hids.
      by injection Hids as <- <- <-. }
    split; [exact Hbody|].
    intros d' Hd'.
    apply (Hremoved "/ws/workspace.duckdb" Demo.rootDb d' "o1").
    + exact demo_object_found.
    + exact Hd'.
    + apply (bool_decide_unpack _). vm_compute. exact I.
    + exists "zz". split; [vm_compute; right; right; left|].
      intros e He Hid. exfalso. revert He Hid. vm_compute.
      intros He Hid.
      repeat (apply elem_of_cons in He as [->|He]; [discriminate Hid|]).
      by apply elem_of_nil in He.
Defined.

End Witnesses.

(** * More on strings and paths *)

Section MoreStringFacts.

Lemma startsWith_spec (s p : string) :
  Js.startsWith s p = true ↔ ∃ t, s = p +:+ t.
Proof.
  split.
  - revert s. induction p as [|a p IH]; intros s; [by exists s|].
    destruct s as [|b s]; [done|]. simpl.
    destruct (Ascii.eqb_spec a b) as [->|]; [|done].
    intros [t ->]%IH. by exists t.
  - intros [t ->]. apply startsWith_append.
Qed.

Lemma includes_cons (c : ascii) (s p : string) :
  Js.includes (String c s) p = Js.startsWith (String c s) p || Js.includes s p.
Proof. cbn [Js.includes]. by destruct (Js.startsWith (String c s) p). Qed.

Lemma includes_nil (p : string) : Js.includes "" p = Js.startsWith "" p.
Proof. cbn [Js.includes]. by destruct (Js.startsWith "" p). Qed.

Lemma includes_spec (s p : string) :
  Js.includes s p = true ↔ ∃ a b, s = a +:+ p +:+ b.
Proof.
  split.
  - induction s as [|c s IH].
    + rewrite includes_nil. intros [t Ht]%startsWith_spec. by exists "", t.
    + rewrite includes_cons. intros [Hp|Hs]%orb_true_iff.
      * apply startsWith_spec in Hp as [t Ht]. by exists "", t.
      * apply IH in Hs as (a & b & ->). by exists (String c a), b.
  - intros (a & b & ->). induction a as [|c a IH].
    + rewrite append_nil_l. destruct (p +:+ b) as [|c t] eqn:Heq.
      * rewrite includes_nil, <- Heq. apply startsWith_append.
      * rewrite includes_cons, <- Heq, startsWith_append. done.
    + rewrite append_cons, includes_cons, IH. apply orb_true_r.
Qed.

Lemma startsWith_slash (c : ascii) (t : string) :
  c ≠ "/"%char → Js.startsWith (String c t) "/" = false.
Proof.
  intros Hc. cbn [Js.startsWith].
  destruct (Ascii.eqb_spec "/" c) as [<-|]; done.
Qed.

Lemma append_cancel_l (a x y : string) : a +:+ x = a +:+ y → x = y.
Proof.
  induction a as [|c a IH]; [done|]. rewrite !append_cons. intros [= ?]. auto.
Qed.

Lemma sepFree_append sep (a b : string) :
  sepFree sep (a +:+ b) ↔ sepFree sep a ∧ sepFree sep b.
Proof.
  induction a as [|c a IH]; [rewrite append_nil_l; simpl; tauto|].
  rewrite append_cons. simpl. tauto.
Qed.

Lemma join_app sep (l1 l2 : list string) :
  l1 ≠ [] → l2 ≠ [] →
  Js.join sep (l1 ++ l2) = Js.join sep l1 +:+ sep +:+ Js.join sep l2.
Proof.
  intros H1 H2. induction l1 as [|x l1 IH]; [done|].
  destruct l1 as [|y l1].
  - destruct l2 as [|z l2]; [done|]. done.
  - change (Js.join sep ((x :: y :: l1) ++ l2))
      with (x +:+ sep +:+ Js.join sep ((y :: l1) ++ l2)).
    rewrite IH by done.
    change (Js.join sep (x :: y :: l1)) with (x +:+ sep +:+ Js.join sep (y :: l1)).
    by rewrite !append_assoc.
Qed.

Lemma lastCharIs_append c (a : string) (b : string) :
  b ≠ "" → Js.lastCharIs c (a +:+ b) = Js.lastCharIs c b.
Proof.
  intros Hb. induction a as [|x a IH]; [done|].
  rewrite append_cons. simpl. rewrite IH.
  destruct (a +:+ b) eqn:Heq; [|done].
  destruct a; [|done]. by rewrite append_nil_l in Heq.
Qed.

Lemma lastCharIs_sepFree c (s : string) : sepFree c s → Js.lastCharIs c s = false.
Proof.
  induction s as [|x s IH]; [done|]. intros [Hx Hs]. simpl.
  destruct s; [by apply Ascii.eqb_neq|by apply IH].
Qed.

End MoreStringFacts.

Section MorePathFacts.
Import Workspace.

Local Abbreviation slashFree := (sepFree "/"%char).

Lemma plainSegment_keepable seg : plainSegment seg → keepable seg.
Proof. by intros (? & _ & _ & ?). Qed.

Lemma pushSegment_plain allow stack seg :
  plainSegment seg → NodePath.pushSegment allow stack seg = seg :: stack.
Proof.
  intros (Hne & Hdot & Hdots & _). unfold NodePath.pushSegment.
  apply String.eqb_neq in Hne as ->, Hdot as ->, Hdots as ->. done.
Qed.

Lemma normalizeSegments_plain allow stack segs :
  Forall plainSegment segs →
  NodePath.normalizeSegments allow stack segs = reverse segs ++ stack.
Proof.
  unfold NodePath.normalizeSegments. revert stack.
  induction segs as [|seg segs IH]; intros stack Hsegs; [done|].
  inversion_clear Hsegs. simpl. rewrite pushSegment_plain by done.
  rewrite IH by done. by rewrite reverse_cons, <- app_assoc.
Qed.

Lemma normalizeSegments_app allow stack segs1 segs2 :
  NodePath.normalizeSegments allow stack (segs1 ++ segs2)
  = NodePath.normalizeSegments allow
      (NodePath.normalizeSegments allow stack segs1) segs2.
Proof. unfold NodePath.normalizeSegments. by rewrite fold_left_app. Qed.

(** The text of a path of plain segments. *)
Lemma join_plain_head segs :
  segs ≠ [] → Forall plainSegment segs →
  ∃ c t, Js.join "/" segs = String c t ∧ c ≠ "/"%char.
Proof.
  destruct segs as [|seg segs]; [done|]. intros _ Hsegs.
  inversion_clear Hsegs as [|?? (Hne & _ & _ & Hfree) _].
  destruct (join_front "/" seg segs) as [t ->].
  destruct seg as [|c seg]; [done|]. destruct Hfree as [Hc _].
  rewrite append_cons. by eexists _, _.
Qed.

Lemma join_plain_last segs :
  segs ≠ [] → Forall plainSegment segs →
  Js.lastCharIs "/" (Js.join "/" segs) = false.
Proof.
  induction segs as [|seg segs IH] using rev_ind; [done|]. intros _ Hsegs.
  apply Forall_app in Hsegs as [Hsegs Hseg].
  inversion_clear Hseg as [|?? (Hne & _ & _ & Hfree) _].
  destruct segs as [|x l]; [by apply lastCharIs_sepFree|].
  rewrite join_snoc by done.
  rewrite lastCharIs_append.
  - change ("/" +:+ seg) with (String "/" seg). simpl.
    destruct seg; [done|]. by apply lastCharIs_sepFree.
  - done.
Qed.

Lemma plain_slashFree segs : Forall plainSegment segs → Forall slashFree segs.
Proof. intros Hsegs. eapply Forall_impl; [exact Hsegs|]. by intros ? (_ & _ & _ & ?). Qed.

(** [path.normalize] leaves a relative path of plain segments as it is. *)
Lemma normalize_plain segs :
  segs ≠ [] → Forall plainSegment segs →
  NodePath.normalize (Js.join "/" segs) = Js.join "/" segs.
Proof.
  intros Hne Hsegs. unfold NodePath.normalize, NodePath.normalizeString.
  destruct (join_plain_head segs) as (c & t & Hjoin & Hc); [done..|].
  rewrite join_plain_last by done.
  rewrite split_join by (done || by apply plain_slashFree).
  rewrite normalizeSegments_plain by done.
  rewrite app_nil_r, reverse_involutive.
  rewrite Hjoin. rewrite startsWith_slash by done. done.
Qed.

End MorePathFacts.

Section ResolveFacts.
Import Workspace.

Local Abbreviation slashFree := (sepFree "/"%char).

Lemma pushSegment_false_plain stack seg :
  Forall plainSegment stack → slashFree seg →
  Forall plainSegment (NodePath.pushSegment false stack seg).
Proof.
  intros Hstack Hseg. unfold NodePath.pushSegment.
  destruct (String.eqb_spec seg "") as [->|Hne]; [done|]. simpl.
  destruct (String.eqb_spec seg ".") as [->|Hdot]; [done|].
  destruct (String.eqb_spec seg "..") as [->|Hdots].
  - destruct stack as [|top below]; [done|].
    destruct (String.eqb top ".."); [done|]. by inversion Hstack.
  - by constructor.
Qed.

Lemma normalizeSegments_false_plain segs stack :
  Forall plainSegment stack → Forall slashFree segs →
  Forall plainSegment (NodePath.normalizeSegments false stack segs).
Proof.
  unfold NodePath.normalizeSegments. revert stack.
  induction segs as [|seg segs IH]; intros stack Hstack Hsegs; [done|].
  inversion_clear Hsegs. simpl. apply IH; [|done].
  by apply pushSegment_false_plain.
Qed.

Lemma rootSegments_plain env root : Forall plainSegment (rootSegments env root).
Proof.
  apply Forall_reverse, normalizeSegments_false_plain; [done|apply split_sepFree].
Qed.

Lemma resolve_root env root :
  NodePath.resolve (cwd env) [root] = "/" +:+ Js.join "/" (rootSegments env root).
Proof.
  unfold NodePath.resolve, rootSegments, NodePath.normalizeString.
  change (cwd env) with (String "/" (cwdTail env)).
  pose proof (resolveLoop_cwd (reverse [root]) (cwdTail env) "") as Hflag.
  destruct (NodePath.resolveLoop _ "") as [resolvedPath flag].
  simpl in Hflag. subst flag. cbn [fst snd negb]. done.
Qed.

Lemma join_plain_empty segs :
  Forall plainSegment segs → Js.join "/" segs = "" → segs = [].
Proof.
  intros Hsegs. apply join_empty.
  eapply Forall_impl; [exact Hsegs|]. apply plainSegment_keepable.
Qed.

(** Below the resolved root a path of plain segments stays as it is. *)
Lemma resolve_below env root segs :
  segs ≠ [] → Forall plainSegment segs →
  NodePath.resolve (cwd env) [root; Js.join "/" segs]
  = "/" +:+ Js.join "/" (rootSegments env root ++ segs).
Proof.
  intros Hne Hsegs. unfold NodePath.resolve, rootSegments, NodePath.normalizeString.
  change (cwd env) with (String "/" (cwdTail env)).
  change (reverse [root; Js.join "/" segs])
    with (Js.join "/" segs :: reverse [root]).
  destruct (join_plain_head segs) as (c & t & Hjoin & Hc); [done..|].
  cbn [app NodePath.resolveLoop]. rewrite Hjoin.
  rewrite startsWith_slash by done.
  change (String.eqb (String c t) "") with false. cbv iota.
  rewrite (resolveLoop_acc _ (String c t +:+ "/" +:+ "")).
  pose proof (resolveLoop_cwd (reverse [root]) (cwdTail env) "") as Hflag.
  destruct (resolveLoop_slash (reverse [root]) (cwdTail env) "") as [front Hfront].
  destruct (NodePath.resolveLoop _ "") as [resolvedPath flag].
  simpl in Hflag, Hfront. subst flag resolvedPath. cbn [fst snd negb].
  f_equal. f_equal.
  change (front +:+ "/" +:+ "") with (front +:+ "/").
  rewrite append_assoc.
  change ("/" +:+ String c t +:+ "/" +:+ "") with (String "/" (String c t +:+ "/")).
  rewrite split_middle, !split_trailing, <- Hjoin.
  rewrite split_join by (done || by apply plain_slashFree).
  rewrite !normalizeSegments_app.
  set (stack := NodePath.normalizeSegments false [] (Js.split "/" front)).
  change (NodePath.normalizeSegments false stack [""]) with stack.
  rewrite (normalizeSegments_plain false stack segs) by done.
  change (NodePath.normalizeSegments false (reverse segs ++ stack) [""])
    with (reverse segs ++ stack).
  by rewrite reverse_app, reverse_involutive.
Qed.

Lemma resolve_plain env root segs :
  segs ≠ [] → Forall plainSegment segs →
  NodePath.resolve (cwd env) [root; Js.join "/" segs]
  = childPath (NodePath.resolve (cwd env) [root]) (Js.join "/" segs).
Proof.
  intros Hne Hsegs. rewrite resolve_below, resolve_root by done.
  unfold childPath.
  destruct (rootSegments env root) as [|x l] eqn:Hroot; [done|].
  destruct (String.eqb_spec ("/" +:+ Js.join "/" (x :: l)) "/") as [Heq|_].
  { exfalso.
    assert (Js.join "/" (x :: l) = "") as Hjoin by (by injection Heq).
    apply join_plain_empty in Hjoin; [done|].
    rewrite <- Hroot. apply rootSegments_plain. }
  rewrite join_app by done. by rewrite !append_assoc.
Qed.

End ResolveFacts.

(** * Paths of the workspace *)

Section WorkspacePaths.
Import Workspace.

Local Abbreviation slashFree := (sepFree "/"%char).

Lemma includes_segment (s seg : string) :
  Js.includes s ("/" +:+ seg +:+ "/") = true → slashFree seg →
  seg ∈ Js.split "/" s.
Proof.
  intros (a & b & ->)%includes_spec Hseg.
  change (("/" +:+ seg +:+ "/") +:+ b) with (String "/" ((seg +:+ "/") +:+ b)).
  rewrite append_assoc. change ("/" +:+ b) with (String "/" b).
  rewrite split_middle, split_append by done.
  apply elem_of_app. right. by left.
Qed.

(** A relative path of plain segments is in normal form, has no [..]
    between separators, and resolves to the path below the root. *)
Lemma plain_path (env : Env) (root : string) (segs : list string) :
  segs ≠ [] →
  Forall plainSegment segs →
  let relativePath := Js.join "/" segs in
  NodePath.normalize relativePath = relativePath
  ∧ Js.includes relativePath "/../" = false
  ∧ NodePath.resolve (cwd env) [root; relativePath]
    = childPath (NodePath.resolve (cwd env) [root]) relativePath.
Proof.
  intros Hne Hsegs relativePath.
  split; [by apply normalize_plain|]. split; [|by apply resolve_plain].
  destruct (Js.includes relativePath "/../") eqn:Hinc; [|done].
  exfalso. apply (includes_segment _ "..") in Hinc; [|by repeat split].
  unfold relativePath in Hinc.
  rewrite split_join in Hinc by (done || by apply plain_slashFree).
  rewrite Forall_forall in Hsegs. by destruct (Hsegs _ Hinc) as (_ & _ & ? & _).
Qed.

(** X1: for a relative path made of plain segments (none of them empty,
    [.] or [..]), the two resolvers answer by the first two characters
    alone: a path that begins with two dots is refused, also when the dots
    begin a file name; any other is resolved to the path below the
    resolved root.  [safeResolveNewPath] returns that path whether the
    file exists or not, [safeResolvePath] when the file exists. *)
Theorem safeResolveNewPath_plain (env : Env) (root : string) (segs : list string) :
  resolveWorkspaceRoot env = Some root →
  segs ≠ [] →
  Forall plainSegment segs →
  let relativePath := Js.join "/" segs in
  let absolute := childPath (NodePath.resolve (cwd env) [root]) relativePath in
  safeResolveNewPath env relativePath
  = (if Js.startsWith relativePath ".." then None else Some absolute)
  ∧ safeResolvePath env relativePath
    = (if Js.startsWith relativePath ".." then None
       else if existsSync env absolute then Some absolute else None).
Proof.
  intros Hroot Hne Hsegs relativePath absolute.
  destruct (plain_path env root segs Hne Hsegs) as (Hnorm & Hinc & Hres).
  fold relativePath in Hnorm, Hinc, Hres. fold absolute in Hres.
  assert (Js.startsWith absolute (NodePath.resolve (cwd env) [root]) = true)
    as Hpre by apply startsWith_childPath.
  unfold safeResolveNewPath, safeResolvePath. rewrite Hroot, !Hnorm, Hinc.
  destruct (Js.startsWith relativePath ".."); [done|].
  cbn [orb]. rewrite !Hres, Hpre. cbn [negb].
  by destruct (existsSync env absolute).
Qed.

Lemma append_nonempty (a b : string) : b ≠ "" → a +:+ b ≠ "".
Proof. intros Hb. destruct a; [by rewrite append_nil_l|by rewrite append_cons]. Qed.

Lemma plain_extended last suffix :
  plainSegment last → suffix ≠ "" → slashFree suffix →
  plainSegment (last +:+ suffix).
Proof.
  intros (Hne & Hdot & Hdots & Hfree) Hsuffix Hsfree.
  split; [by apply append_nonempty|]. split; [|split].
  - destruct last as [|a last]; [done|]. rewrite append_cons.
    intros [= _ Heq]. by apply append_nonempty in Heq.
  - destruct last as [|a last]; [done|]. rewrite append_cons.
    intros [= -> Heq]. destruct last as [|a' last].
    + done.
    + rewrite append_cons in Heq. injection Heq as _ Heq.
      by apply append_nonempty in Heq.
  - by apply sepFree_append.
Qed.

Lemma split_slash_cons (s : string) :
  Js.split "/" (String "/" s) = "" :: Js.split "/" s.
Proof. cbn [Js.split]. by rewrite Ascii.eqb_refl. Qed.

Lemma normalizeSegments_skip allow stack segs :
  NodePath.normalizeSegments allow stack ("" :: segs)
  = NodePath.normalizeSegments allow stack segs.
Proof. done. Qed.

Lemma normalizeSegments_last allow stack :
  NodePath.normalizeSegments allow stack [""] = stack.
Proof. done. Qed.

Lemma startsWith_slash_cons (s : string) : Js.startsWith (String "/" s) "/" = true.
Proof. cbn [Js.startsWith]. by rewrite Ascii.eqb_refl, startsWith_nil. Qed.

Lemma lastCharIs_cons c a (s : string) :
  s ≠ "" → Js.lastCharIs c (String a s) = Js.lastCharIs c s.
Proof. by destruct s. Qed.

(** An absolute path of plain segments is in normal form and resolves
    to itself. *)
Lemma normalize_absolute path :
  path ≠ [] → Forall plainSegment path →
  NodePath.normalize ("/" +:+ Js.join "/" path) = "/" +:+ Js.join "/" path.
Proof.
  intros Hne Hpath. unfold NodePath.normalize, NodePath.normalizeString.
  change ("/" +:+ Js.join "/" path) with (String "/" (Js.join "/" path)).
  destruct (join_plain_head path) as (c & t & Hjoin & Hc); [done..|].
  rewrite startsWith_slash_cons, split_slash_cons, normalizeSegments_skip.
  rewrite lastCharIs_cons by (by rewrite Hjoin).
  rewrite join_plain_last by done.
  rewrite split_join by (done || by apply plain_slashFree).
  rewrite normalizeSegments_plain, app_nil_r, reverse_involutive by done.
  cbn [String.eqb negb]. by rewrite Hjoin.
Qed.

Lemma resolve_absolute_plain env root path :
  path ≠ [] → Forall plainSegment path →
  NodePath.resolve (cwd env) [root; "/" +:+ Js.join "/" path]
  = "/" +:+ Js.join "/" path.
Proof.
  intros Hne Hpath. unfold NodePath.resolve, NodePath.normalizeString.
  change (reverse [root; "/" +:+ Js.join "/" path])
    with (("/" +:+ Js.join "/" path) :: reverse [root]).
  change ("/" +:+ Js.join "/" path) with (String "/" (Js.join "/" path)).
  cbn [app NodePath.resolveLoop String.eqb].
  rewrite startsWith_slash_cons. cbn [negb].
  change (String "/" (Js.join "/" path) +:+ "/" +:+ "")
    with (String "/" (Js.join "/" path +:+ "/")).
  rewrite split_slash_cons, normalizeSegments_skip, split_trailing.
  rewrite split_join by (done || by apply plain_slashFree).
  rewrite normalizeSegments_app, normalizeSegments_last.
  by rewrite normalizeSegments_plain, app_nil_r, reverse_involutive.
Qed.

(** X2: the containment test of the resolver is a test on text.  When
    the resolved root is not [/], the absolute path of anything below a
    sibling directory whose name continues the name of the root (root
    [/ws], path [/ws2/...]) is returned as it is, although it does not lie
    below the root. *)
Theorem safeResolveNewPath_sibling (env : Env) (root suffix : string)
    (segs : list string) :
  resolveWorkspaceRoot env = Some root →
  NodePath.resolve (cwd env) [root] ≠ "/" →
  suffix ≠ "" → slashFree suffix →
  segs ≠ [] → Forall plainSegment segs →
  let outside :=
    NodePath.resolve (cwd env) [root] +:+ suffix +:+ "/" +:+ Js.join "/" segs in
  safeResolveNewPath env outside = Some outside
  ∧ Js.startsWith outside (NodePath.resolve (cwd env) [root] +:+ "/") = false
  ∧ (existsSync env outside = true → safeResolvePath env outside = Some outside).
Proof.
  intros Hroot Hslash Hsuffix Hsfree Hne Hsegs outside.
  pose proof (rootSegments_plain env root) as Hplain.
  pose proof (resolve_root env root) as HR.
  destruct (rootSegments env root) as [|x l _] using rev_ind;
    [by rewrite HR in Hslash|].
  apply Forall_app in Hplain as [Hl Hx]. inversion_clear Hx as [|?? Hx' _].
  set (path := l ++ (x +:+ suffix) :: segs).
  assert (Forall plainSegment path) as Hpath.
  { apply Forall_app. split; [done|]. constructor; [|done].
    by apply plain_extended. }
  assert (outside = "/" +:+ Js.join "/" path) as Houtside.
  { unfold outside, path. rewrite HR.
    change (l ++ (x +:+ suffix) :: segs) with (l ++ [x +:+ suffix] ++ segs).
    rewrite app_assoc, (join_app _ (l ++ [x +:+ suffix])) by (done || by destruct l).
    rewrite !append_assoc. f_equal. rewrite <- !append_assoc. f_equal.
    destruct l as [|y l]; [done|].
    rewrite !join_snoc by done. by rewrite !append_assoc. }
  assert (path ≠ []) as Hpne by (unfold path; by destruct l).
  assert (NodePath.normalize outside = outside) as Hnorm
    by (rewrite Houtside; by apply normalize_absolute).
  assert (NodePath.resolve (cwd env) [root; outside] = outside) as Hres
    by (rewrite Houtside; by apply resolve_absolute_plain).
  assert (Js.startsWith outside ".." = false) as Hdots by (by rewrite Houtside).
  assert (Js.includes outside "/../" = false) as Hinc.
  { destruct (Js.includes outside "/../") eqn:Hinc; [|done]. exfalso.
    apply (includes_segment _ "..") in Hinc; [|by repeat split].
    rewrite Houtside in Hinc. change ("/" +:+ ?t) with (String "/" t) in Hinc.
    rewrite split_slash_cons in Hinc.
    rewrite split_join in Hinc by (done || by apply plain_slashFree).
    apply elem_of_cons in Hinc as [?|Hinc]; [done|].
    rewrite Forall_forall in Hpath. by destruct (Hpath _ Hinc) as (_ & _ & ? & _). }
  assert (Js.startsWith outside (NodePath.resolve (cwd env) [root]) = true) as Hpre.
  { unfold outside. apply startsWith_append. }
  split; [|split].
  - unfold safeResolveNewPath. rewrite Hroot, Hnorm, Hdots, Hinc. cbn [orb].
    by rewrite Hres, Hpre.
  - destruct (Js.startsWith outside (NodePath.resolve (cwd env) [root] +:+ "/"))
      eqn:Hin; [|done]. exfalso.
    apply startsWith_spec in Hin as [t Ht]. unfold outside in Ht.
    rewrite !append_assoc in Ht. apply append_cancel_l in Ht.
    destruct suffix as [|c suffix]; [done|]. destruct Hsfree as [Hc _].
    rewrite append_cons in Ht. by injection Ht.
  - intros Hexists. unfold safeResolvePath.
    rewrite Hroot, Hnorm, Hdots, Hinc. cbn [orb].
    by rewrite Hres, Hpre, Hexists.
Qed.

End WorkspacePaths.

(** * Kinds of files *)

Section FileKinds.
Import Workspace.

Lemma arrayIncludes_decide (l : list string) (x : string) :
  Js.arrayIncludes l x = bool_decide (x ∈ l).
Proof.
  destruct (Js.arrayIncludes l x) eqn:Hinc.
  - apply arrayIncludes_true in Hinc. by rewrite bool_decide_eq_true_2.
  - apply arrayIncludes_false in Hinc. by rewrite bool_decide_eq_false_2.
Qed.

Lemma last_split (sep : ascii) (stem ext : string) :
  sepFree sep ext →
  last (Js.split sep (stem +:+ String sep ext)) = Some ext.
Proof.
  intros Hext. rewrite split_middle, (split_of_sepFree sep ext) by done.
  apply last_snoc.
Qed.

(** [isDatabaseFile] by the last piece of the name. *)
Lemma isDatabaseFile_last (name ext : string) :
  last (Js.split "." name) = Some ext →
  isDatabaseFile name = bool_decide (Js.toLowerCase ext ∈ DB_EXTENSIONS).
Proof.
  intros Hname. unfold isDatabaseFile, extension. rewrite Hname.
  change (Js.toLowerCase <$> Some ext) with (Some (Js.toLowerCase ext)). cbv iota.
  destruct (Js.truthy (Js.toLowerCase ext)) eqn:Htruthy;
    [apply arrayIncludes_decide|].
  apply not_true_iff_false in Htruthy. rewrite truthy_true in Htruthy.
  apply dec_stable in Htruthy. by rewrite Htruthy.
Qed.

(** X3: [isDatabaseFile] looks at nothing but what follows the last dot
    of the name, and takes a name without a dot for its own extension:
    it holds exactly when that text, in small letters, is one of the five
    extensions.  Hence a file named [db] is a database file, and a name
    that ends with a dot is none. *)
Theorem isDatabaseFile_extension (stem ext : string) :
  sepFree "." ext →
  isDatabaseFile ext = bool_decide (Js.toLowerCase ext ∈ DB_EXTENSIONS)
  ∧ isDatabaseFile (stem +:+ "." +:+ ext) = isDatabaseFile ext.
Proof.
  intros Hext.
  assert (last (Js.split "." ext) = Some ext) as Hwhole
    by (by rewrite split_of_sepFree).
  assert (last (Js.split "." (stem +:+ "." +:+ ext)) = Some ext) as Hdotted.
  { change ("." +:+ ext) with (String "." ext). by apply last_split. }
  split.
  - by apply isDatabaseFile_last.
  - by rewrite (isDatabaseFile_last _ ext Hdotted), (isDatabaseFile_last _ ext Hwhole).
Qed.

(** X4: below the root only the three patterns of every depth protect a
    file: the definition of an object, and names that end in [.wal] or
    [.tmp].  The two patterns of the root count for a path without
    separator only; so [workspace.duckdb] and every name that begins with
    it is protected at the root, while the database of a sub-directory is
    not. *)
Theorem isSystemFile_by_depth (dir base : string) :
  sepFree "/" base →
  let always := String.eqb base ".object.yaml"
                || Js.endsWith base ".wal" || Js.endsWith base ".tmp" in
  isSystemFile (dir +:+ "/" +:+ base) = always
  ∧ isSystemFile base
    = always || Js.startsWith base "workspace.duckdb"
      || String.eqb base "workspace_context.yaml"
  ∧ isSystemFile (dir +:+ "/" +:+ "workspace.duckdb") = false
  ∧ isSystemFile ("workspace.duckdb" +:+ base) = true.
Proof.
  intros Hbase always.
  assert (∀ s, sepFree "/" s → Js.includes s "/" = false) as Hroot.
  { intros s Hs. destruct (Js.includes s "/") eqn:Hinc; [|done]. exfalso.
    apply includes_spec in Hinc as (a & b & ->).
    apply sepFree_append in Hs as [_ Hs].
    change ("/" +:+ b) with (String "/" b) in Hs. by destruct Hs. }
  assert (∀ s, Js.includes (dir +:+ "/" +:+ s) "/" = true) as Hdeep.
  { intros s. apply includes_spec. by exists dir, s. }
  assert (∀ s, sepFree "/" s →
            isSystemFile (dir +:+ "/" +:+ s)
            = String.eqb s ".object.yaml" || Js.endsWith s ".wal"
              || Js.endsWith s ".tmp") as Hbelow.
  { intros s Hs. unfold isSystemFile.
    rewrite Hdeep.
    change ("/" +:+ s) with (String "/" s). rewrite last_split by done.
    cbn [default existsb ALWAYS_SYSTEM_PATTERNS negb andb].
    rewrite !orb_false_r. unfold id.
    by destruct (String.eqb s ".object.yaml"), (Js.endsWith s ".wal"),
                (Js.endsWith s ".tmp"). }
  assert (∀ s, sepFree "/" s →
            isSystemFile s
            = String.eqb s ".object.yaml" || Js.endsWith s ".wal"
              || Js.endsWith s ".tmp" || Js.startsWith s "workspace.duckdb"
              || String.eqb s "workspace_context.yaml") as Hat.
  { intros s Hs. unfold isSystemFile.
    rewrite split_of_sepFree, Hroot by done.
    cbn [last default existsb ALWAYS_SYSTEM_PATTERNS ROOT_ONLY_SYSTEM_PATTERNS
         negb andb].
    rewrite !orb_false_r. unfold id.
    by destruct (String.eqb s ".object.yaml"), (Js.endsWith s ".wal"),
                (Js.endsWith s ".tmp"). }
  split; [by apply Hbelow|]. split; [by apply Hat|]. split.
  - by rewrite Hbelow.
  - rewrite Hat; [|by apply sepFree_append].
    rewrite startsWith_append. by rewrite orb_true_r.
Qed.

End FileKinds.

(** * What the discovery finds *)

Section Discovery.
Import Workspace.

Lemma walk_here env dir d node :
  ∃ below,
    walk env dir d node
    = (if existsSync env (NodePath.join [dir; "workspace.duckdb"])
       then [{| path := NodePath.join [dir; "workspace.duckdb"]; depth := d |}]
       else []) ++ below
    ∧ ∀ f, f ∈ below → S d ≤ depth f.
Proof.
  destruct node as [name|name [entries|]]; simpl.
  - exists []. split; [done|]. by intros f ?%elem_of_nil.
  - eexists. split; [done|]. intros f Hbelow.
    induction entries as [|entry entries IH]; [by apply elem_of_nil in Hbelow|].
    apply elem_of_app in Hbelow as [Hfirst|Hrest]; [|by apply IH].
    destruct entry as [?|sub ?]; [by apply elem_of_nil in Hfirst|].
    destruct (skipped sub); [by apply elem_of_nil in Hfirst|].
    by apply walk_depth in Hfirst as [? _].
  - exists []. split; [done|]. by intros f ?%elem_of_nil.
Qed.

(** What [walk] finds below a directory: the names that lead to it. *)
Lemma walk_reaches env node : ∀ dir d f,
  f ∈ walk env dir d node
  ↔ ∃ names,
      reaches node names
      ∧ depth f = d + length names
      ∧ path f = NodePath.join [descend dir names; "workspace.duckdb"]
      ∧ existsSync env (path f) = true.
Proof.
  assert (∀ dir d f,
    f ∈ (if existsSync env (NodePath.join [dir; "workspace.duckdb"])
         then [{| path := NodePath.join [dir; "workspace.duckdb"]; depth := d |}]
         else [])
    ↔ depth f = d + 0
      ∧ path f = NodePath.join [descend dir []; "workspace.duckdb"]
      ∧ existsSync env (path f) = true) as Hhere.
  { intros dir d f. simpl. rewrite Nat.add_0_r.
    destruct (existsSync env (NodePath.join [dir; "workspace.duckdb"])) eqn:Hex.
    - rewrite list_elem_of_singleton. split.
      + by intros ->.
      + destruct f as [p n]. simpl. by intros (-> & -> & _).
    - split; [by intros ?%elem_of_nil|]. intros (_ & Hp & Hf). congruence. }
  induction node as [name|name|name entries IH] using Dirent_nested_ind;
    intros dir d f; simpl.
  - rewrite app_nil_r, Hhere. split.
    + intros H. exists []. split; [constructor|done].
    + intros (names & Hr & H). inversion Hr; subst. done.
  - rewrite app_nil_r, Hhere. split.
    + intros H. exists []. split; [constructor|done].
    + intros (names & Hr & H). inversion Hr; subst. done.
  - rewrite elem_of_app, Hhere. split.
    + intros [H|Hbelow]; [exists []; split; [constructor|done]|].
      induction IH as [|entry entries Hentry _ IHentries];
        [by apply elem_of_nil in Hbelow|].
      apply elem_of_app in Hbelow as [Hfirst|Hrest].
      * destruct entry as [?|sub listing]; [by apply elem_of_nil in Hfirst|].
        destruct (skipped sub) eqn:Hskip; [by apply elem_of_nil in Hfirst|].
        apply Hentry in Hfirst as (names & Hr & Hd & Hp & Hex).
        exists (sub :: names). split; [|split; [simpl; lia|done]].
        econstructor; [by left|done..].
      * destruct (IHentries Hrest) as (names & Hr & H). exists names.
        split; [|done]. inversion Hr; subst; [constructor|].
        econstructor; [by right|done..].
    + intros (names & Hr & Hd & Hp & Hex).
      inversion Hr as [|? ? sub listing names' Hin Hskip Hsub]; subst; [by left|].
      right. clear Hr.
      induction IH as [|entry entries Hentry _ IHentries];
        [by apply elem_of_nil in Hin|].
      apply elem_of_cons in Hin as [<-|Hin].
      * apply elem_of_app. left. rewrite Hskip. apply Hentry.
        exists names'. split; [done|]. split; [simpl in Hd; lia|done].
      * apply elem_of_app. right. by apply IHentries.
Qed.

(** X5: the discovery finds exactly the databases that exist in the root
    and in the directories reached from it through readable directories
    whose names do not begin with a dot and are none of [tmp], [exports],
    [node_modules]; the depth it records is the number of directories
    on the way. *)
Theorem discoverDuckDBPaths_reached (env : Env) (f : Found) :
  f ∈ discovered env
  ↔ ∃ root names,
      resolveWorkspaceRoot env = Some root
      ∧ reaches (workspaceTree env) names
      ∧ depth f = length names
      ∧ path f = NodePath.join [descend root names; "workspace.duckdb"]
      ∧ existsSync env (path f) = true.
Proof.
  unfold discovered. destruct (resolveWorkspaceRoot env) as [root|].
  - rewrite sortByDepth_perm, walk_reaches. split.
    + intros (names & H). by exists root, names.
    + intros (root' & names & [= <-] & H). by exists names.
  - split; [by intros ?%elem_of_nil|]. by intros (? & ? & ? & _).
Qed.

End Discovery.

Section PrimaryDatabase.
Import Workspace.

Local Abbreviation slashFree := (sepFree "/"%char).

(** The last segment of a joined path, when it is a plain one. *)
Lemma join_last_segment dir seg :
  plainSegment seg → ∃ front, NodePath.join [dir; seg] = front +:+ seg.
Proof.
  intros Hseg. pose proof Hseg as (Hne & _ & _ & Hfree).
  unfold NodePath.join.
  assert (∃ d, Js.join "/" (filter (λ a, a ≠ "") [dir; seg]) = d +:+ seg
               ∧ Js.split "/" (d +:+ seg)
                 = (if decide (d = "") then [] else Js.split "/" dir) ++ [seg])
    as (d & -> & Hsplit).
  { rewrite filter_cons. destruct (decide (dir ≠ "")) as [Hdir|Hdir].
    - rewrite filter_cons_True, filter_nil by done.
      exists (dir +:+ "/"). rewrite append_assoc. split; [done|].
      change ("/" +:+ seg) with (String "/" seg).
      rewrite split_middle, (split_of_sepFree _ seg) by done.
      destruct (decide (dir +:+ "/" = "")) as [Heq|_]; [|done].
      by apply append_nonempty in Heq.
    - rewrite filter_cons_True, filter_nil by done.
      exists "". rewrite append_nil_l. split; [done|].
      by rewrite split_of_sepFree. }
  destruct (String.eqb_spec (d +:+ seg) "") as [Heq|_];
    [by apply append_nonempty in Heq|].
  unfold NodePath.normalize, NodePath.normalizeString.
  destruct (String.eqb_spec (d +:+ seg) "") as [Heq|_];
    [by apply append_nonempty in Heq|].
  rewrite Hsplit, normalizeSegments_app.
  set (stack := NodePath.normalizeSegments _ [] _).
  change (NodePath.normalizeSegments (negb (Js.startsWith (d +:+ seg) "/")) stack [seg])
    with (NodePath.pushSegment (negb (Js.startsWith (d +:+ seg) "/")) stack seg).
  rewrite pushSegment_plain, reverse_cons by done.
  rewrite lastCharIs_append by done. rewrite lastCharIs_sepFree by done.
  assert (∃ front, Js.join "/" (reverse stack ++ [seg]) = front +:+ seg)
    as [front Hfront].
  { destruct (reverse stack) as [|x l]; [by exists ""|].
    rewrite join_snoc by done. eexists. by rewrite <- append_assoc. }
  rewrite Hfront.
  destruct (String.eqb_spec (front +:+ seg) "") as [Heq|_];
    [by apply append_nonempty in Heq|].
  destruct (Js.startsWith (d +:+ seg) "/").
  - exists ("/" +:+ front). by rewrite append_assoc.
  - by exists front.
Qed.

(** X6: every path the discovery returns ends with the file name
    [workspace.duckdb], and [isDatabaseFile] holds of it. *)
Theorem discoverDuckDBPaths_databases (env : Env) (db : string) :
  db ∈ discoverDuckDBPaths env →
  Js.endsWith db "workspace.duckdb" = true ∧ isDatabaseFile db = true.
Proof.
  unfold discoverDuckDBPaths. intros (f & -> & Hf)%list_elem_of_fmap.
  unfold discovered in Hf.
  destruct (resolveWorkspaceRoot env) as [root|]; [|by apply elem_of_nil in Hf].
  rewrite sortByDepth_perm, walk_reaches in Hf.
  destruct Hf as (names & _ & _ & -> & _).
  destruct (join_last_segment (descend root names) "workspace.duckdb")
    as [front ->]; [by repeat split|].
  split.
  - clear. induction front as [|c front IH]; [done|].
    rewrite append_cons. cbn [Js.endsWith]. rewrite IH.
    by destruct (String.eqb _ _).
  - rewrite (isDatabaseFile_last _ "duckdb"); [done|].
    change "workspace.duckdb" with ("workspace" +:+ String "." "duckdb").
    rewrite <- append_assoc. apply last_split. by repeat split.
Qed.

Lemma sortByDepth_head x l :
  depth x = 0 → head (sortByDepth (x :: l)) = Some x.
Proof.
  intros Hx. simpl. destruct (sortByDepth l) as [|y l']; [done|].
  simpl. by rewrite Hx.
Qed.

Lemma duckdbPath_head (env : Env) :
  duckdbPath env = head (discoverDuckDBPaths env).
Proof.
  unfold duckdbPath, discoverDuckDBPaths, discovered.
  destruct (resolveWorkspaceRoot env) as [root|]; [|done].
  destruct (walk_here env root 0 (workspaceTree env)) as (below & Hwalk & _).
  destruct (existsSync env (NodePath.join [root; "workspace.duckdb"])); [|done].
  rewrite Hwalk. simpl app.
  destruct (sortByDepth (_ :: below)) as [|y l] eqn:Hsort;
    pose proof (sortByDepth_head {| path := NodePath.join [root; "workspace.duckdb"];
                                    depth := 0 |} below eq_refl) as Hfirst;
    rewrite Hsort in Hfirst; [done|].
  injection Hfirst as ->. done.
Qed.

(** X7: the primary database is the first file of the discovery: the
    database of the root when there is one, else the first of the
    shallowest ones; there is none exactly when the discovery finds
    nothing. *)
Theorem duckdbPath_first (env : Env) :
  duckdbPath env = head (discoverDuckDBPaths env)
  ∧ (duckdbPath env = None ↔ discoverDuckDBPaths env = [])
  ∧ (∀ root, resolveWorkspaceRoot env = Some root →
       existsSync env (NodePath.join [root; "workspace.duckdb"]) = true →
       duckdbPath env = Some (NodePath.join [root; "workspace.duckdb"])).
Proof.
  split; [apply duckdbPath_head|]. split.
  - rewrite duckdbPath_head. by destruct (discoverDuckDBPaths env).
  - intros root Hroot Hexists. unfold duckdbPath. by rewrite Hroot, Hexists.
Qed.

End PrimaryDatabase.

(** * The command line of the bridge *)

Section CommandLine.
Import Workspace.

Local Abbreviation quoteFree := (sepFree "'"%char).

Lemma words_quoted (s cur rest : string) :
  quoteFree s →
  Sh.words (Some cur) true (s +:+ String "'" rest)
  = Sh.words (Some (cur +:+ s)) false rest.
Proof.
  revert cur. induction s as [|c s IH]; intros cur Hs.
  - rewrite append_nil_l, append_nil_r. cbn [Sh.words]. by rewrite Ascii.eqb_refl.
  - destruct Hs as [Hc Hs]. rewrite append_cons. cbn [Sh.words].
    apply Ascii.eqb_neq in Hc as ->. unfold Sh.put. cbn [default].
    rewrite IH by done. by rewrite append_assoc.
Qed.

Lemma words_escaped (sql cur rest : string) :
  Sh.words (Some cur) true (shellEscape sql +:+ String "'" rest)
  = Sh.words (Some (cur +:+ sql)) false rest.
Proof.
  revert cur. induction sql as [|c sql IH]; intros cur.
  - rewrite append_nil_r. change (shellEscape "") with "".
    rewrite append_nil_l. cbn [Sh.words]. by rewrite Ascii.eqb_refl.
  - unfold shellEscape. cbn [Js.replaceQuotes]. fold (shellEscape sql).
    destruct (Ascii.eqb_spec c "'") as [->|Hc].
    + change (("'\''" +:+ shellEscape sql) +:+ String "'" rest)
        with (String "'" (String "\" (String "'" (String "'"
                (shellEscape sql +:+ String "'" rest))))).
      change (Sh.words (Some cur) true (String "'" (String "\" (String "'" (String "'"
                (shellEscape sql +:+ String "'" rest))))))
        with (Sh.words (Some (cur +:+ "'")) true
                (shellEscape sql +:+ String "'" rest)).
      rewrite IH. by rewrite append_assoc.
    + rewrite append_cons. cbn [Sh.words].
      apply Ascii.eqb_neq in Hc as ->. unfold Sh.put. cbn [default].
      rewrite IH. by rewrite append_assoc.
Qed.

(** X8: the shell hands the statement to the engine as the route wrote
    it.  When the path of the program and the path of the database hold
    no single quote, [/bin/sh] splits the command line of a query into
    the program, [-json], the database and the statement, whatever
    characters the statement holds; and the command line of a statement
    without output into the program, the database and the statement. *)
Theorem command_argv (bin db sql : string) :
  quoteFree bin → quoteFree db →
  Sh.argv (queryCommand bin db sql) = Some [bin; "-json"; db; sql]
  ∧ Sh.argv (execCommand bin db sql) = Some [bin; db; sql].
Proof.
  intros Hbin Hdb.
  assert (Sh.words None false (String "'" (db +:+ String "'"
              (String " " (String "'" (shellEscape sql +:+ "'")))))
            = Some [db; sql]) as Htail.
  { change (Sh.words None false (String "'" ?s)) with (Sh.words (Some "") true s).
    rewrite words_quoted by done. rewrite append_nil_l.
    change (Sh.words (Some db) false (String " " ?s))
      with ((λ ws, [db] ++ ws) <$> Sh.words None false s).
    change (Sh.words None false (String "'" ?s)) with (Sh.words (Some "") true s).
    rewrite words_escaped. by rewrite append_nil_l. }
  unfold Sh.argv, queryCommand, execCommand. split.
  - change ("'" +:+ bin +:+ "' -json '" +:+ db +:+ "' '" +:+ shellEscape sql +:+ "'")
      with (String "'" (bin +:+ String "'" (String " " ("-json" +:+ String " "
              (String "'" (db +:+ String "'" (String " " (String "'"
                 (shellEscape sql +:+ "'"))))))))).
    change (Sh.words None false (String "'" ?s)) with (Sh.words (Some "") true s).
    rewrite words_quoted by done. rewrite append_nil_l.
    change (Sh.words (Some bin) false (String " " ("-json" +:+ String " " ?s)))
      with ((λ ws, [bin] ++ ws) <$> ((λ ws, ["-json"] ++ ws) <$> Sh.words None false s)).
    by rewrite Htail.
  - change ("'" +:+ bin +:+ "' '" +:+ db +:+ "' '" +:+ shellEscape sql +:+ "'")
      with (String "'" (bin +:+ String "'" (String " "
              (String "'" (db +:+ String "'" (String " " (String "'"
                 (shellEscape sql +:+ "'")))))))).
    change (Sh.words None false (String "'" ?s)) with (Sh.words (Some "") true s).
    rewrite words_quoted by done. rewrite append_nil_l.
    change (Sh.words (Some bin) false (String " " ?s))
      with ((λ ws, [bin] ++ ws) <$> Sh.words None false s).
    by rewrite Htail.
Qed.

End CommandLine.

(** * The bridge under failures *)

Section BridgeUnderFailures.
Import Workspace.

Lemma answered_files {T} st1 st2 (sql : Database → list T) schedule dbPaths :
  files st1 = files st2 →
  answered st1 sql schedule dbPaths = answered st2 sql schedule dbPaths.
Proof.
  intros Hfiles. revert schedule.
  induction dbPaths as [|db rest IH]; intros schedule; [done|].
  simpl. unfold fileRows. by rewrite Hfiles, IH.
Qed.

Lemma answered_quiet {T} st (sql : Database → list T) dbPaths :
  answered st sql [] dbPaths = rowsIn st sql dbPaths.
Proof. induction dbPaths as [|db rest IH]; [done|]. simpl. by rewrite IH. Qed.

Lemma mergeRow_nokey dedupeKey rows seen merged :
  dedupeKey = None ∨ dedupeKey = Some "" →
  fold_left (mergeRow dedupeKey) rows (seen, merged) = (seen, merged ++ rows).
Proof.
  intros Hkey. revert merged.
  induction rows as [|row rows IH]; intros merged; simpl.
  - by rewrite app_nil_r.
  - destruct Hkey as [->| ->]; simpl; rewrite IH; by rewrite <- app_assoc.
Qed.

Lemma execSyncJson_run {T} db (sql : Database → list T) st :
  execSyncJson db sql st
  = ((if default false (head (faults st)) then None else sql <$> files st !! db),
     logCall (QueryCall db) st).
Proof.
  unfold execSyncJson, bind, spawn, nextFails.
  by destruct (faults st) as [|[] ?].
Qed.

Lemma mergeFiles_nokey sql dedupeKey dbPaths seen merged st :
  dedupeKey = None ∨ dedupeKey = Some "" →
  ∃ st',
    mergeFiles sql dedupeKey dbPaths (seen, merged) st
    = ((seen, merged ++ answered st sql (faults st) dbPaths), st')
    ∧ files st' = files st
    ∧ faults st' = drop (length dbPaths) (faults st)
    ∧ trace st' = trace st ++ (QueryCall <$> dbPaths).
Proof.
  intros Hkey. revert merged st.
  induction dbPaths as [|db rest IH]; intros merged st.
  - exists st. simpl. by rewrite !app_nil_r.
  - simpl. unfold bind. rewrite execSyncJson_run.
    destruct (IH (merged ++ default [] (if default false (head (faults st))
                                        then None else sql <$> files st !! db))
                (logCall (QueryCall db) st))
      as (st' & Hrun & Hfiles & Hfaults & Htrace).
    exists st'. rewrite mergeRow_nokey, Hrun by done.
    split; [|split; [done|split]].
    + f_equal. f_equal. rewrite <- app_assoc. f_equal.
      simpl. f_equal; [by destruct (default false (head (faults st)))|].
      by apply answered_files.
    + rewrite Hfaults. simpl. destruct (faults st); simpl; [by rewrite drop_nil|done].
    + rewrite Htrace. simpl. by rewrite <- app_assoc.
Qed.

(** X9: without a dedupe key, or with the empty string for one,
    [duckdbQueryAll] drops no row: it returns the rows of the discovered
    files, one file after the other, leaving out the files whose
    invocation fails.  It makes one query per discovered file, in the
    order of the discovery, and writes nothing. *)
Theorem duckdbQueryAll_every_row (env : Env) (st : Store)
    (sql : Database → list Row) (dedupeKey : option string) :
  dedupeKey = None ∨ dedupeKey = Some "" →
  is_Some (resolveDuckdbBin env) →
  let result := duckdbQueryAll env sql dedupeKey st in
  result.1 = answered st sql (faults st) (discoverDuckDBPaths env)
  ∧ (faults st = [] → result.1 = rowsIn st sql (discoverDuckDBPaths env))
  ∧ files result.2 = files st
  ∧ trace result.2 = trace st ++ (QueryCall <$> discoverDuckDBPaths env).
Proof.
  intros Hkey [bin Hbin] result.
  assert (result.1 = answered st sql (faults st) (discoverDuckDBPaths env)
          ∧ files result.2 = files st
          ∧ trace result.2 = trace st ++ (QueryCall <$> discoverDuckDBPaths env))
    as (Hrows & Hfiles & Htrace).
  { unfold result, duckdbQueryAll. rewrite Hbin.
    destruct (discoverDuckDBPaths env) as [|db rest] eqn:Hdbs.
    { simpl. by rewrite app_nil_r. }
    unfold bind.
    destruct (mergeFiles_nokey sql dedupeKey (db :: rest) [] [] st Hkey)
      as (st' & -> & Hfiles & _ & Htrace). done. }
  split; [done|]. split; [|done].
  intros Hq. by rewrite Hrows, Hq, answered_quiet.
Qed.

Lemma duckdbQueryAll_quiet env st (sql : Database → list Row) :
  is_Some (resolveDuckdbBin env) → faults st = [] →
  (duckdbQueryAll env sql None st).1 = rowsIn st sql (discoverDuckDBPaths env).
Proof.
  intros [bin Hbin] Hq. unfold duckdbQueryAll. rewrite Hbin.
  destruct (discoverDuckDBPaths env) as [|db rest]; [done|].
  unfold bind. rewrite mergeFiles_quiet by done.
  rewrite mergeRow_nokey by (by left). done.
Qed.

Lemma scanFor_trace sql dbPaths st r st' :
  scanFor sql dbPaths st = (r, st') →
  ∃ n, trace st' = trace st ++ (QueryCall <$> take n dbPaths)
       ∧ ∀ db, r = Some db → dbPaths !! (n - 1) = Some db ∧ 0 < n.
Proof.
  revert st. induction dbPaths as [|db rest IH]; intros st; simpl.
  - intros [= <- <-]. exists 0. by rewrite app_nil_r.
  - unfold bind. rewrite execSyncJson_run.
    destruct (if default false (head (faults st)) then None
              else sql <$> files st !! db) as [[|row rows]|].
    + intros (n & Htrace & Hdb)%IH. exists (S n). split.
      * rewrite Htrace. simpl. by rewrite <- app_assoc.
      * intros db' Hr. destruct (Hdb db' Hr) as [Hlook Hn]. split; [|lia].
        destruct n; [lia|]. simpl in *. by rewrite Nat.sub_0_r in Hlook.
    + intros [= <- <-]. exists 1. split; [done|]. intros ? [= <-]. split; [done|lia].
    + intros (n & Htrace & Hdb)%IH. exists (S n). split.
      * rewrite Htrace. simpl. by rewrite <- app_assoc.
      * intros db' Hr. destruct (Hdb db' Hr) as [Hlook Hn]. split; [|lia].
        destruct n; [lia|]. simpl in *. by rewrite Nat.sub_0_r in Hlook.
Qed.

Lemma scanFor_none sql dbPaths st st' :
  faults st = [] → scanFor sql dbPaths st = (None, st') →
  ∀ db, db ∈ dbPaths → ¬ hit st sql db.
Proof.
  revert st. induction dbPaths as [|db rest IH]; intros st Hq Hrun db' Hdb';
    [by apply elem_of_nil in Hdb'|].
  simpl in Hrun. unfold bind in Hrun. rewrite execSyncJson_quiet in Hrun by done.
  assert (sql <$> files st !! db = None ∨ sql <$> files st !! db = Some []) as Hmiss.
  { destruct (sql <$> files st !! db) as [[|row rows]|]; [by right|done|by left]. }
  assert (scanFor sql rest (logCall (QueryCall db) st) = (None, st')) as Hrest
    by (by destruct Hmiss as [Heq|Heq]; rewrite Heq in Hrun).
  apply elem_of_cons in Hdb' as [->|Hdb'].
  - intros (d & Hd & Hrows). rewrite Hd in Hmiss. simpl in Hmiss.
    destruct Hmiss as [?|[= ?]]; done.
  - intros Hhit. eapply (IH (logCall (QueryCall db) st)); [by apply logCall_quiet|done..].
Qed.

(** X10: whatever invocations fail, the locator only queries: it leaves
    every file as it is, asks the discovered files in their order up to
    the one it returns, and a file it returns is a discovered one that
    holds an object of the name.  When no invocation fails and it
    returns nothing, no discovered file holds such an object. *)
Theorem findDuckDBForObject_sound (env : Env) (st : Store) (objectName : string) :
  let result := findDuckDBForObject env objectName st in
  files result.2 = files st
  ∧ (∃ n, trace result.2
          = trace st ++ (QueryCall <$> take n (discoverDuckDBPaths env))
          ∧ ∀ db, result.1 = Some db →
              discoverDuckDBPaths env !! (n - 1) = Some db ∧ 0 < n)
  ∧ (∀ db, result.1 = Some db →
       db ∈ discoverDuckDBPaths env ∧ ownsObject st objectName db)
  ∧ (result.1 = None → is_Some (resolveDuckdbBin env) → faults st = [] →
     ∀ db, db ∈ discoverDuckDBPaths env → ¬ ownsObject st objectName db).
Proof.
  intros result. destruct result as [r st'] eqn:Hresult. unfold result in Hresult.
  pose proof (findDuckDBForObject_inv _ _ _ _ _ Hresult) as (Hfiles & _ & Hhit).
  assert (∃ n, trace st' = trace st ++ (QueryCall <$> take n (discoverDuckDBPaths env))
               ∧ ∀ db, r = Some db →
                   discoverDuckDBPaths env !! (n - 1) = Some db ∧ 0 < n)
    as (n & Htrace & Hat).
  { unfold findDuckDBForObject in Hresult.
    destruct (discoverDuckDBPaths env) as [|db0 dbs] eqn:Hdbs.
    { injection Hresult as <- <-. exists 0. by rewrite app_nil_r. }
    destruct (resolveDuckdbBin env).
    - by apply scanFor_trace in Hresult.
    - injection Hresult as <- <-. exists 0. by rewrite app_nil_r. }
  simpl. split; [done|]. split; [by exists n|]. split.
  - intros db Hr. destruct (Hat db Hr) as [Hlook _]. split.
    + by eapply list_elem_of_lookup_2.
    + apply hit_selectObjectId. by apply Hhit.
  - intros -> Hbin Hq db Hdb Howns%hit_selectObjectId.
    rewrite findDuckDBForObject_scan in Hresult by done.
    by eapply scanFor_none.
Qed.

End BridgeUnderFailures.

Section PrimaryBridge.
Import Workspace.

(** X11: the bridge without a file name works on the first discovered
    database and on no other.  [duckdbExec] changes that database by the
    statement when it answers [true] and changes nothing when it answers
    [false], as it does when there is no database.  When no invocation
    fails, [duckdbQuery] returns the rows of that database, which are the
    first rows of what [duckdbQueryAll] returns without a key. *)
Theorem primary_bridge (env : Env) (st : Store) :
  (∀ sql : Database → Database,
     let result := duckdbExec env sql st in
     (result.1 = true →
      ∃ db d, head (discoverDuckDBPaths env) = Some db
              ∧ files st !! db = Some d
              ∧ files result.2 = <[db := sql d]> (files st))
     ∧ (result.1 = false → files result.2 = files st)
     ∧ (discoverDuckDBPaths env = [] → result = (false, st)))
  ∧ (∀ sql : Database → list Row,
       is_Some (resolveDuckdbBin env) → faults st = [] →
       (duckdbQuery env sql st).1
       = default [] (fileRows st sql <$> head (discoverDuckDBPaths env))
       ∧ (duckdbQuery env sql st).1 `prefix_of` (duckdbQueryAll env sql None st).1).
Proof.
  split.
  - intros sql result. unfold result, duckdbExec. rewrite duckdbPath_head.
    destruct (discoverDuckDBPaths env) as [|db rest]; [done|].
    cbn [head]. unfold duckdbExecOnFile.
    destruct (resolveDuckdbBin env); [|done].
    unfold execSyncStmt, bind, spawn.
    destruct (files st !! db) as [d|] eqn:Hd; simpl; rewrite Hd; [|done].
    destruct (negb (nextFails st)); simpl; [|done].
    split; [|done]. intros _. exists db, d. split; [done|]. split; [done|].
    by apply alter_insert_Some.
  - intros sql [bin Hbin] Hq.
    assert ((duckdbQuery env sql st).1
            = default [] (fileRows st sql <$> head (discoverDuckDBPaths env)))
      as Hquery.
    { unfold duckdbQuery. rewrite duckdbPath_head, Hbin.
      destruct (discoverDuckDBPaths env) as [|db rest]; [done|].
      cbn [head]. unfold bind. by rewrite execSyncJson_quiet. }
    split; [done|]. rewrite Hquery.
    rewrite duckdbQueryAll_quiet by (done || by exists bin).
    destruct (discoverDuckDBPaths env) as [|db rest]; [by exists []|].
    exists (rowsIn st sql rest). done.
Qed.

End PrimaryBridge.

Section Atomicity.
Import Workspace Sql Http.

(** Membership in a list that is written out. *)
Local Ltac inList := apply (bool_decide_unpack _); vm_compute; exact I.

Lemma duckdbQueryOnFile_files {T} env db (sql : Database → list T) st :
  files (duckdbQueryOnFile env db sql st).2 = files st.
Proof.
  destruct (duckdbQueryOnFile env db sql st) as [rows st'] eqn:Hq.
  by apply duckdbQueryOnFile_inv in Hq as (? & _).
Qed.

Lemma findDuckDBForObject_files env name st :
  files (findDuckDBForObject env name st).2 = files st.
Proof.
  destruct (findDuckDBForObject env name st) as [r st'] eqn:Hq.
  by apply findDuckDBForObject_inv in Hq as (? & _).
Qed.

(** X12: the enum rename answers with one of five statuses, and every
    answer other than 200 leaves all files as they were: the two
    statements run only on the way to the answer 200. *)
Theorem enum_rename_refusal_writes_nothing (env : Env) (st : Store)
    (name fieldId : string) (body : EnumRename.Body) :
  let result := EnumRename.PATCH env name fieldId body st in
  status result.1 ∈ [200; 400; 404; 409; 500]
  ∧ (status result.1 ≠ 200 → files result.2 = files st).
Proof.
  intros result.
  assert (status result.1 = 200
          ∨ status result.1 ∈ [400; 404; 409; 500] ∧ files result.2 = files st)
    as Hcases.
  { unfold result, EnumRename.PATCH.
    destruct (validName name); simpl;
      [|right; split; [inList|done]].
    unfold bind.
    pose proof (findDuckDBForObject_files env name st) as Hfiles1.
    destruct (findDuckDBForObject env name st) as [[dbFile|] st1]; simpl in *;
      [|right; split; [inList|done]].
    destruct (EnumRename.oldValue body) as [old|];
      [|right; split; [inList|done]].
    destruct (EnumRename.newValue body) as [new|];
      [|right; split; [inList|done]].
    destruct (negb (Js.truthy old) || negb (Js.truthy new));
      [right; split; [inList|done]|].
    destruct (String.eqb (Js.trim old) (Js.trim new)); [by left|].
    pose proof (duckdbQueryOnFile_files env dbFile
                  (selectObjectId (sqlEscape name)) st1) as Hfiles2.
    destruct (duckdbQueryOnFile env dbFile _ st1) as [[|objectId objects] st2];
      simpl in *; [right; split; [inList|simpl; congruence]|].
    pose proof (duckdbQueryOnFile_files env dbFile
                  (EnumRename.selectField (sqlEscape fieldId) (sqlEscape objectId)) st2)
      as Hfiles3.
    destruct (duckdbQueryOnFile env dbFile _ st2) as [[|field fields] st3];
      simpl in *; [right; split; [inList|simpl; congruence]|].
    destruct (EnumRename.parseEnumValues _) as [enumValues|];
      [|right; split; [inList|simpl; congruence]].
    unfold EnumRename.renameValue.
    destruct (Js.indexOf enumValues (Js.trim old)) as [idx|];
      [|right; split; [inList|simpl; congruence]].
    destruct (Js.arrayIncludes enumValues (Js.trim new));
      [right; split; [inList|simpl; congruence]|].
    left. unfold bind.
    destruct (duckdbExecOnFile env dbFile _ st3) as [ok1 st4].
    by destruct (duckdbExecOnFile env dbFile _ st4) as [ok2 st5]. }
  split.
  - destruct Hcases as [->|[Hin _]]; [inList|by right].
  - intros Hne. by destruct Hcases as [?|[_ ?]].
Qed.

(** X13: the bulk deletion answers 200, 400 or 404, or its handler
    throws, which the framework answers with 500; every outcome other
    than the answer 200 leaves all files as they were.  The handler
    throws for a body that cannot be read, for the body [null] and for
    an array with an element that is no string, and only for these. *)
Theorem bulk_delete_refusal_writes_nothing (env : Env) (st : Store)
    (name : string) (payload : Payload BulkDelete.Body) :
  let result := BulkDelete.POST env name payload st in
  status result.1 ∈ [200; 400; 404; 500]
  ∧ (status result.1 ≠ 200 → files result.2 = files st)
  ∧ (status result.1 = 500 →
     result.1 = uncaught
     ∧ (payload = Rejected ∨ payload = JsonNull
        ∨ ∃ values, payload = Json {| BulkDelete.entryIds := Some values |}
                    ∧ BulkDelete.escapeAll values = None)).
Proof.
  intros result.
  assert (status result.1 = 200
          ∨ status result.1 ∈ [400; 404] ∧ files result.2 = files st
          ∨ result.1 = uncaught ∧ files result.2 = files st
            ∧ (payload = Rejected ∨ payload = JsonNull
               ∨ ∃ values, payload = Json {| BulkDelete.entryIds := Some values |}
                           ∧ BulkDelete.escapeAll values = None))
    as Hcases.
  { unfold result, BulkDelete.POST.
    destruct (validName name); simpl;
      [|right; left; split; [inList|done]].
    unfold bind.
    pose proof (findDuckDBForObject_files env name st) as Hfiles1.
    destruct (findDuckDBForObject env name st) as [[dbFile|] st1]; simpl in *;
      [|right; left; split; [inList|done]].
    destruct payload as [| |[[values|]]]; cbn [BulkDelete.entryIds].
    - right. right. split; [done|]. split; [done|]. by left.
    - right. right. split; [done|]. split; [done|]. right. by left.
    - destruct values as [|v values]; [right; left; split; [inList|done]|].
      cbv iota. remember (v :: values) as vals eqn:Hvals.
      pose proof (duckdbQueryOnFile_files env dbFile
                    (selectObjectId (sqlEscape name)) st1) as Hfiles2.
      destruct (duckdbQueryOnFile env dbFile _ st1) as [[|objectId objects] st2];
        simpl in *; [right; left; split; [inList|simpl; congruence]|].
      destruct (BulkDelete.escapeAll vals) as [idList|] eqn:Hescape.
      + left.
        destruct (duckdbExecOnFile env dbFile _ st2) as [ok1 st3].
        by destruct (duckdbExecOnFile env dbFile _ st3) as [ok2 st4].
      + right. right. split; [done|]. split; [simpl; congruence|].
        right. right. by exists vals.
    - right. left. split; [inList|done]. }
  split; [|split].
  - destruct Hcases as [->|[[Hin _]|[-> _]]]; [inList| |inList].
    apply elem_of_cons in Hin as [->|Hin]; [inList|].
    apply elem_of_cons in Hin as [->|Hin]; [inList|by apply elem_of_nil in Hin].
  - intros Hne. by destruct Hcases as [?|[[_ ?]|(_ & ? & _)]].
  - intros H500. destruct Hcases as [H200|[[Hin _]|(? & _ & ?)]]; [congruence| |done].
    rewrite H500 in Hin. exfalso. revert Hin. clear. intros Hin.
    apply elem_of_cons in Hin as [?|Hin]; [done|].
    apply elem_of_cons in Hin as [?|Hin]; [done|by apply elem_of_nil in Hin].
Qed.

End Atomicity.

(** * The creation of an entry *)

Section CreateEntryFacts.
Import Workspace Sql Http CreateEntry.

(** Membership in a list that is written out. *)
Local Ltac inList := apply (bool_decide_unpack _); vm_compute; exact I.





















End CreateEntryFacts.

(** * The upload *)

Section UploadFacts.
Import Workspace Http Upload.

Local Abbreviation slashFree := (sepFree "/"%char).

Lemma allChars_append p (a b : string) :
  allChars p (a +:+ b) = allChars p a && allChars p b.
Proof.
  induction a as [|c a IH]; [done|].
  rewrite append_cons. simpl. by rewrite IH, andb_assoc.
Qed.

Lemma allChars_sepFree p sep (s : string) :
  p sep = false → allChars p s = true → sepFree sep s.
Proof.
  intros Hsep. induction s as [|c s IH]; [done|]. simpl.
  intros [Hc Hs]%andb_true_iff. split; [|by apply IH].
  intros ->. congruence.
Qed.

Lemma string_of_uint_digits d :
  allChars Js.isDigit (NilEmpty.string_of_uint d) = true.
Proof. induction d; simpl; done. Qed.

Lemma numberToString_digits n : allChars Js.isDigit (numberToString n) = true.
Proof. apply string_of_uint_digits. Qed.

Lemma numberToString_head n :
  ∃ c t, numberToString n = String c t ∧ Js.isDigit c = true.
Proof.
  pose proof (numberToString_digits n) as Hdigits.
  unfold numberToString in *.
  destruct n as [|p]; [by exists "0"%char, ""|].
  pose proof (Unsigned.to_uint_nonnil p) as Hnil. simpl in *.
  destruct (Pos.to_uint p); [done|..]; simpl; by eexists _, _.
Qed.

Lemma replaceUnsafe_safe s : allChars isSafeChar (replaceUnsafe s) = true.
Proof.
  induction s as [|c s IH]; [done|]. simpl. rewrite IH, andb_true_r.
  by destruct (isSafeChar c) eqn:Hc.
Qed.

Lemma collapseUnderscores_safe s :
  allChars isSafeChar s = true → allChars isSafeChar (collapseUnderscores s) = true.
Proof.
  induction s as [|c s IH]; [done|].
  intros [Hc Hs]%andb_true_iff. specialize (IH Hs).
  cbn [collapseUnderscores]. destruct s as [|c' s]; [by simpl; rewrite Hc|].
  destruct (Ascii.eqb c "_" && Ascii.eqb c' "_"); [done|].
  cbn [allChars]. by rewrite Hc, IH.
Qed.

Lemma collapseUnderscores_head c s :
  ∃ t, collapseUnderscores (String c s) = String c t.
Proof.
  revert c. induction s as [|c' s IH]; intros c; [by exists ""|].
  cbn [collapseUnderscores].
  destruct (Ascii.eqb c "_" && Ascii.eqb c' "_") eqn:Hcc.
  - apply andb_true_iff in Hcc as [->%Ascii.eqb_eq ->%Ascii.eqb_eq]. apply IH.
  - by eexists.
Qed.

(** A string without two underscores in a row. *)
Lemma collapseUnderscores_single s :
  Js.includes (collapseUnderscores s) "__" = false.
Proof.
  induction s as [|c s IH]; [done|].
  cbn [collapseUnderscores]. destruct s as [|c' s]; [by destruct c as [[] [] [] [] [] [] [] []]|].
  destruct (Ascii.eqb c "_" && Ascii.eqb c' "_") eqn:Hcc; [done|].
  rewrite includes_cons, IH, orb_false_r.
  destruct (collapseUnderscores_head c' s) as [t ->].
  cbn [Js.startsWith]. rewrite startsWith_nil.
  rewrite (Ascii.eqb_sym "_" c), (Ascii.eqb_sym "_" c').
  by destruct (Ascii.eqb c "_"), (Ascii.eqb c' "_").
Qed.

Lemma collapseUnderscores_fixed s :
  Js.includes s "__" = false → collapseUnderscores s = s.
Proof.
  induction s as [|c s IH]; [done|].
  rewrite includes_cons. intros [Hhead Htail]%orb_false_iff.
  cbn [collapseUnderscores]. destruct s as [|c' s]; [done|].
  cbn [Js.startsWith] in Hhead. rewrite startsWith_nil in Hhead.
  rewrite (Ascii.eqb_sym "_" c), (Ascii.eqb_sym "_" c') in Hhead.
  destruct (Ascii.eqb c "_"), (Ascii.eqb c' "_"); try done; cbn [andb];
    by rewrite IH.
Qed.

Lemma replaceUnsafe_fixed s : allChars isSafeChar s = true → replaceUnsafe s = s.
Proof.
  induction s as [|c s IH]; [done|]. simpl.
  intros [-> Hs]%andb_true_iff. by rewrite IH.
Qed.

(** X16: the name under which an upload is stored is made of letters,
    digits, dots, underscores and hyphens only, and has no two
    underscores in a row; a name that is such already is kept as it is,
    so that cleaning a name twice gives what cleaning it once gives. *)
Theorem safeName_clean (name : string) :
  allChars isSafeChar (safeName name) = true
  ∧ Js.includes (safeName name) "__" = false
  ∧ safeName (safeName name) = safeName name
  ∧ (allChars isSafeChar name = true → Js.includes name "__" = false →
     safeName name = name).
Proof.
  assert (∀ s, allChars isSafeChar s = true → Js.includes s "__" = false →
            safeName s = s) as Hfixed.
  { intros s Hsafe Hsingle. unfold safeName.
    rewrite replaceUnsafe_fixed by done. by apply collapseUnderscores_fixed. }
  assert (allChars isSafeChar (safeName name) = true) as Hsafe.
  { apply collapseUnderscores_safe, replaceUnsafe_safe. }
  assert (Js.includes (safeName name) "__" = false) as Hsingle
    by apply collapseUnderscores_single.
  split; [done|]. split; [done|]. split; [by apply Hfixed|apply Hfixed].
Qed.

Lemma list_ascii_app (a b : string) :
  list_ascii_of_string (a +:+ b) = list_ascii_of_string a ++ list_ascii_of_string b.
Proof.
  induction a as [|c a IH]; [done|]. rewrite append_cons. simpl. by rewrite IH.
Qed.

Lemma sepFree_chars sep (s : string) :
  sepFree sep s → Forall (λ c, Ascii.eqb c sep = false) (list_ascii_of_string s).
Proof.
  induction s as [|c s IH]; [done|]. intros [Hc Hs]. simpl.
  constructor; [by apply Ascii.eqb_neq|by apply IH].
Qed.

Lemma dropWhile_all {A} (p : A → bool) l1 y l2 :
  Forall (λ x, p x = true) l1 → p y = false →
  NodePath.dropWhile p (l1 ++ y :: l2) = y :: l2.
Proof.
  intros Hl1 Hy. induction Hl1 as [|x l1 Hx _ IH]; simpl; [by rewrite Hy|].
  by rewrite Hx.
Qed.

Lemma dropWhile_none {A} (p : A → bool) l :
  match l with x :: _ => p x = false | [] => True end →
  NodePath.dropWhile p l = l.
Proof. destruct l as [|x l]; [done|]. simpl. by intros ->. Qed.

(** The directory of a path that ends with a segment. *)
Lemma dirname_segment first (t seg : string) :
  t ≠ "" → seg ≠ "" → slashFree seg →
  NodePath.dirname (String first (t +:+ String "/" seg)) = String first t.
Proof.
  intros Ht Hseg Hfree. unfold NodePath.dirname.
  change (String "/" seg) with ("/" +:+ seg).
  rewrite list_ascii_app. change (list_ascii_of_string ("/" +:+ seg))
    with ("/"%char :: list_ascii_of_string seg).
  rewrite reverse_app, reverse_cons, <- app_assoc. cbn [app].
  pose proof (sepFree_chars _ _ Hfree) as Hchars.
  apply Forall_reverse in Hchars.
  rewrite (dropWhile_none _ (reverse (list_ascii_of_string seg) ++ _)).
  2:{ destruct (reverse (list_ascii_of_string seg)) as [|x l] eqn:Hrev.
      - exfalso. apply (f_equal reverse) in Hrev.
        rewrite reverse_involutive in Hrev. by destruct seg.
      - by inversion Hchars. }
  rewrite dropWhile_all.
  - destruct (reverse (list_ascii_of_string t)) as [|x l] eqn:Hrev.
    + exfalso. apply (f_equal reverse) in Hrev.
      rewrite reverse_involutive in Hrev. by destruct t.
    + rewrite <- Hrev, reverse_involutive. by rewrite string_of_list_ascii_of_string.
  - eapply Forall_impl; [exact Hchars|]. simpl. by intros c ->.
  - done.
Qed.

Lemma stored_plain now name :
  plainSegment (numberToString now +:+ "-" +:+ safeName name)
  ∧ allChars isSafeChar (numberToString now +:+ "-" +:+ safeName name) = true
  ∧ Js.startsWith ("assets/" +:+ numberToString now +:+ "-" +:+ safeName name) ".."
    = false.
Proof.
  assert (allChars isSafeChar (numberToString now +:+ "-" +:+ safeName name) = true)
    as Hsafe.
  { rewrite !allChars_append. apply andb_true_iff. split; [|apply andb_true_iff; split].
    - pose proof (numberToString_digits now) as Hd.
      induction (numberToString now) as [|c s IH]; [done|].
      simpl in *. apply andb_true_iff in Hd as [Hc Hs].
      rewrite IH by done. unfold isSafeChar. by rewrite Hc, orb_true_r.
    - done.
    - apply collapseUnderscores_safe, replaceUnsafe_safe. }
  split; [|by split].
  destruct (numberToString_head now) as (c & t & Hnow & Hc).
  rewrite Hnow in *. rewrite append_cons.
  split; [done|]. split; [|split].
  - intros [= -> _]. done.
  - intros [= -> _]. done.
  - rewrite <- append_cons. by apply (allChars_sepFree isSafeChar).
Qed.

(** X17: an upload never leaves the directory [assets] of the workspace,
    whatever the name of the file.  For a file within the size limit, in
    a workspace that exists, the route resolves no path but
    [assets/<time>-<clean name>] below the resolved root; it never
    answers [Invalid path]; it creates the directory [assets], writes the
    bytes of the file there, and answers 200 with the relative path when
    both calls complete. *)
Theorem upload_lands_in_assets (env : Env) (root : string) (file : FileField)
    (now : N) (fs : FsCall → option (option string)) :
  resolveWorkspaceRoot env = Some root →
  (size file <=? MAX_SIZE)%N = true →
  let stored := numberToString now +:+ "-" +:+ safeName (name file) in
  let resolved := NodePath.resolve (cwd env) [root] in
  let mkdir := mkdirSync (childPath resolved "assets") in
  let write := writeFileSync (childPath resolved ("assets/" +:+ stored)) (data file) in
  plainSegment stored
  ∧ safeResolveNewPath env ("assets/" +:+ stored)
    = Some (childPath resolved ("assets/" +:+ stored))
  ∧ POST env (Some (Some file)) now fs
    = match fs mkdir with
      | Some thrown => {| response := failure thrown; completed := [] |}
      | None =>
          match fs write with
          | Some thrown => {| response := failure thrown; completed := [mkdir] |}
          | None =>
              {| response := json 200 [("ok", Js.Bool true);
                                       ("path", Js.Str ("assets/" +:+ stored))];
                 completed := [mkdir; write] |}
          end
      end.
Proof.
  intros Hroot Hsize stored resolved mkdir write.
  destruct (stored_plain now (name file)) as (Hplain & _ & Hdots). fold stored in Hplain, Hdots.
  assert (Forall plainSegment ["assets"; stored]) as Hsegs.
  { constructor; [by repeat split|]. constructor; [exact Hplain|constructor]. }
  assert (Js.join "/" ["assets"; stored] = "assets/" +:+ stored) as Hjoin by done.
  assert (NodePath.join ["assets"; stored] = "assets/" +:+ stored) as Hrel.
  { unfold NodePath.join.
    rewrite filter_cons_True, filter_cons_True, filter_nil by (done || apply Hplain).
    rewrite Hjoin. change (String.eqb ("assets/" +:+ stored) "") with false. cbv iota.
    rewrite <- Hjoin. by apply normalize_plain. }
  assert (safeResolveNewPath env ("assets/" +:+ stored)
          = Some (childPath resolved ("assets/" +:+ stored))) as Hnew.
  { destruct (plain_path env root ["assets"; stored]) as (Hnorm & Hinc & Hres);
      [done..|].
    rewrite Hjoin in Hnorm, Hinc, Hres. fold resolved in Hres.
    unfold safeResolveNewPath. rewrite Hroot, Hnorm, Hdots, Hinc. cbn [orb].
    rewrite Hres. unfold resolved. by rewrite startsWith_childPath. }
  assert (NodePath.dirname (childPath resolved ("assets/" +:+ stored))
          = childPath resolved "assets") as Hdir.
  { unfold childPath, resolved. rewrite resolve_root.
    change ("/" +:+ ?t) with (String "/" t).
    destruct (String.eqb_spec (String "/" (Js.join "/" (rootSegments env root))) "/")
      as [Heq|Hne].
    - change (String "/" ("assets/" +:+ stored))
        with (String "/" ("assets" +:+ String "/" stored)).
      apply dirname_segment; [done|apply Hplain..].
    - set (J := Js.join "/" (rootSegments env root)).
      assert (String "/" J +:+ String "/" ("assets/" +:+ stored)
              = String "/" ((J +:+ "/assets") +:+ String "/" stored)) as ->
        by (by rewrite append_cons, append_assoc).
      rewrite dirname_segment; [|by apply append_nonempty|apply Hplain..].
      by rewrite append_cons. }
  split; [done|]. split; [done|].
  unfold POST. rewrite Hroot.
  apply N.leb_le in Hsize. apply N.ltb_ge in Hsize. rewrite Hsize.
  fold stored. rewrite Hrel, Hnew, Hdir. done.
Qed.

End UploadFacts.

(** * The display field and the names of objects *)

Section DisplayField.
Import ObjectRoute.

Lemma find_first {A} (p : A → bool) (l : list A) x :
  List.find p l = Some x →
  ∃ i, l !! i = Some x ∧ p x = true
       ∧ ∀ k y, k < i → l !! k = Some y → p y = false.
Proof.
  induction l as [|z l IH]; [done|]. simpl.
  destruct (p z) eqn:Hz.
  - intros [= ->]. exists 0. split; [done|]. split; [done|]. intros k y Hk. lia.
  - intros (i & Hi & Hx & Hbefore)%IH. exists (S i). split; [done|]. split; [done|].
    intros [|k] y Hk; simpl; [by intros [= <-]|].
    apply Hbefore. lia.
Qed.

Lemma find_at {A} (p : A → bool) (l : list A) i x :
  l !! i = Some x → p x = true →
  (∀ k y, k < i → l !! k = Some y → p y = false) →
  List.find p l = Some x.
Proof.
  revert i. induction l as [|z l IH]; intros i; [done|].
  destruct i as [|i]; simpl.
  - intros [= ->] -> _. done.
  - intros Hi Hx Hbefore. rewrite (Hbefore 0 z) by (lia || done).
    apply (IH i); [done..|]. intros k y Hk Hy. apply (Hbefore (S k)); [lia|done].
Qed.

Lemma find_nowhere {A} (p : A → bool) (l : list A) :
  (∀ x, x ∈ l → p x = false) → List.find p l = None.
Proof.
  induction l as [|z l IH]; [done|]. intros Hall. simpl.
  rewrite (Hall z) by (by left). apply IH. intros x Hx. apply Hall. by right.
Qed.

Lemma find_some {A} (p : A → bool) (l : list A) i x :
  l !! i = Some x → p x = true →
  ∃ j y, j ≤ i ∧ l !! j = Some y ∧ List.find p l = Some y.
Proof.
  revert i. induction l as [|z l IH]; intros i; [done|]. simpl.
  destruct (p z) eqn:Hz.
  - intros _ _. exists 0, z. split; [lia|done].
  - destruct i as [|i]; simpl; [intros [= ->]; congruence|].
    intros Hi Hx. destruct (IH i Hi Hx) as (j & y & Hj & Hy & Hfind).
    exists (S j), y. split; [lia|done].
Qed.

(** The test of the route for the word [name] or [title] in the name
    of a field. *)
Local Abbreviation wordTest :=
  (λ f : FieldRow, testWord "name" false (name f) || testWord "title" false (name f)).

(** X18: the display field of an object is its explicit one when that is
    set and not empty, whether or not a field of that name exists.
    Otherwise it is the name of a field of the object, and [id] when the
    object has no field: the first field whose name holds the word [name]
    or [title] when there is one, else the first field of type [text]
    when there is one, else the first field. *)
Theorem resolveDisplayField_choice (obj : ObjectRow) (objFields : list FieldRow) :
  (∀ shown, display_field obj = Some shown → shown ≠ "" →
     resolveDisplayField obj objFields = shown)
  ∧ (display_field obj = None ∨ display_field obj = Some "" →
     (objFields = [] → resolveDisplayField obj objFields = "id")
     ∧ (objFields ≠ [] → resolveDisplayField obj objFields ∈ name <$> objFields)
     ∧ (∀ i f, objFields !! i = Some f → wordTest f = true →
          (∀ k g, k < i → objFields !! k = Some g → wordTest g = false) →
          resolveDisplayField obj objFields = name f)
     ∧ (∀ i f, (∀ g, g ∈ objFields → wordTest g = false) →
          objFields !! i = Some f → type f = "text" →
          (∀ k g, k < i → objFields !! k = Some g → type g ≠ "text") →
          resolveDisplayField obj objFields = name f)
     ∧ (∀ f, (∀ g, g ∈ objFields → wordTest g = false ∧ type g ≠ "text") →
          head objFields = Some f →
          resolveDisplayField obj objFields = name f)).
Proof.
  split.
  { intros shown Hshown Hne. unfold resolveDisplayField. rewrite Hshown.
    by rewrite truthy_nonempty. }
  intros Hunset.
  assert (resolveDisplayField obj objFields
          = match List.find wordTest objFields with
            | Some nameField => name nameField
            | None =>
                match List.find (λ f, String.eqb (type f) "text") objFields with
                | Some textField => name textField
                | None => match objFields with
                          | first :: _ => name first
                          | [] => "id"
                          end
                end
            end) as ->.
  { unfold resolveDisplayField. by destruct Hunset as [-> | ->]. }
  split; [by intros ->|]. split; [|split; [|split]].
  - intros Hne.
    destruct (List.find wordTest objFields) as [f|] eqn:Hword.
    { apply find_first in Hword as (i & Hi & _).
      apply list_elem_of_fmap. exists f. split; [done|]. by eapply list_elem_of_lookup_2. }
    destruct (List.find (λ f, String.eqb (type f) "text") objFields)
      as [f|] eqn:Htext.
    { apply find_first in Htext as (i & Hi & _).
      apply list_elem_of_fmap. exists f. split; [done|]. by eapply list_elem_of_lookup_2. }
    destruct objFields as [|f rest]; [done|]. by left.
  - intros i f Hi Hf Hbefore. by rewrite (find_at wordTest objFields i f).
  - intros i f Hnone Hi Hf Hbefore. rewrite find_nowhere by done.
    rewrite (find_at _ objFields i f); [done|done|by apply String.eqb_eq|].
    intros k g Hk Hg. apply String.eqb_neq. by eapply Hbefore.
  - intros f Hnone Hhead. rewrite !find_nowhere.
    + by destruct objFields as [|g rest]; simplify_eq/=.
    + intros g Hg. apply String.eqb_neq. by apply Hnone.
    + intros g Hg. by apply Hnone.
Qed.

Lemma dropNoCase_lower w s rest :
  dropNoCase w s = Some rest → Js.startsWith (Js.toLowerCase s) w = true.
Proof.
  revert s. induction w as [|a w IH]; intros s; [by rewrite startsWith_nil|].
  destruct s as [|b s]; [done|]. cbn [dropNoCase Js.toLowerCase Js.startsWith].
  destruct (Ascii.eqb_spec a (Js.lowerChar b)) as [->|]; [|done].
  apply IH.
Qed.

Lemma testWord_includes w prev s :
  testWord w prev s = true → Js.includes (Js.toLowerCase s) w = true.
Proof.
  revert prev. induction s as [|c s IH]; intros prev.
  - cbn [testWord]. rewrite orb_false_r. intros [_ Hw]%andb_true_iff.
    destruct (dropNoCase w "") as [rest|] eqn:Hdrop; [|done].
    apply dropNoCase_lower in Hdrop. by rewrite includes_nil.
  - cbn [testWord]. intros [[_ Hw]%andb_true_iff|Hs]%orb_true_iff.
    + destruct (dropNoCase w (String c s)) as [rest|] eqn:Hdrop; [|done].
      apply dropNoCase_lower in Hdrop.
      change (Js.toLowerCase (String c s))
        with (String (Js.lowerChar c) (Js.toLowerCase s)) in *.
      by rewrite includes_cons, Hdrop.
    + change (Js.toLowerCase (String c s))
        with (String (Js.lowerChar c) (Js.toLowerCase s)).
      rewrite includes_cons, (IH _ Hs). apply orb_true_r.
Qed.

Lemma resolveDisplayField_word obj objFields :
  display_field obj = None ∨ display_field obj = Some "" →
  (∀ i f, objFields !! i = Some f → wordTest f = true →
     (∀ k g, k < i → objFields !! k = Some g → wordTest g = false) →
     resolveDisplayField obj objFields = name f) ∧ True.
Proof.
  intros Hunset. split; [|done]. intros i f Hi Hf Hbefore.
  unfold resolveDisplayField.
  rewrite (find_at wordTest objFields i f) by done.
  by destruct Hunset as [-> | ->].
Qed.

(** X19: the title heuristic of the kanban card is the weaker one.
    Whenever the route chooses the display field of an object by the
    word [name] or [title] in the name of a field, the card finds a title
    field too, and it is that field or an earlier one. *)
Theorem title_heuristics (obj : ObjectRow) (objFields : list FieldRow)
    (i : nat) (f : FieldRow) :
  display_field obj = None ∨ display_field obj = Some "" →
  objFields !! i = Some f →
  wordTest f = true →
  (∀ k g, k < i → objFields !! k = Some g → wordTest g = false) →
  let fields := (λ g, {| Kanban.name := name g |}) <$> objFields in
  resolveDisplayField obj objFields = name f
  ∧ ∃ j g, j ≤ i ∧ objFields !! j = Some g
           ∧ Kanban.titleField fields = Some {| Kanban.name := name g |}.
Proof.
  intros Hunset Hi Hf Hbefore fields. split.
  { destruct (resolveDisplayField_word obj objFields) as (Hword & _); [done|].
    by eapply Hword. }
  assert (fields !! i = Some {| Kanban.name := name f |}) as Hi'.
  { unfold fields. by rewrite list_lookup_fmap, Hi. }
  destruct (find_some (λ g, Js.includes (Js.toLowerCase (Kanban.name g)) "name"
                            || Js.includes (Js.toLowerCase (Kanban.name g)) "title")
              fields i _ Hi') as (j & g' & Hj & Hg' & Hfind).
  { simpl. apply orb_true_iff in Hf as [Hf|Hf].
    - by rewrite (testWord_includes _ _ _ Hf).
    - rewrite (testWord_includes _ _ _ Hf). apply orb_true_r. }
  unfold fields in Hg'. rewrite list_lookup_fmap in Hg'.
  destruct (objFields !! j) as [g|] eqn:Hg; [|done]. injection Hg' as <-.
  by exists j, g.
Qed.

End DisplayField.

Section ObjectNames.
Import Workspace Sql Http.

Lemma allChars_forallb p (s : string) :
  allChars p s = forallb p (list_ascii_of_string s).
Proof. induction s as [|c s IH]; [done|]. simpl. by rewrite IH. Qed.

Lemma isIdentStart_letter c :
  isIdentStart c = Js.isAsciiLetter c || Ascii.eqb c "_".
Proof.
  unfold isIdentStart, Js.isAsciiLetter. f_equal.
  destruct (Ascii.eqb_spec c "_") as [->|Hne]; [done|].
  apply Nat.eqb_neq. intros Heq. apply Hne.
  rewrite <- (ascii_nat_embedding c), Heq. done.
Qed.

Lemma isIdentChar_word c : isIdentChar c = Js.isWordChar c.
Proof.
  unfold isIdentChar, Js.isWordChar. rewrite isIdentStart_letter.
  unfold Js.isDigit.
  by destruct (Js.isAsciiLetter c), (Ascii.eqb c "_"),
    ((48 <=? nat_of_ascii c) && (nat_of_ascii c <=? 57)).
Qed.

Lemma hyphen_invalid (s : string) :
  Js.includes s "-" = true → allChars isIdentChar s = false.
Proof.
  intros (a & b & ->)%includes_spec. rewrite allChars_append.
  change ("-" +:+ b) with (String "-" b). simpl. apply andb_false_r.
Qed.

(** X20: the routes that change an object are stricter about its name
    than the route that reads it.  Every name they accept, [GET] accepts;
    a name with a hyphen can pass the test of [GET], but the enum rename,
    the bulk deletion and the creation of an entry refuse it with 400,
    before any call of the engine and whatever the request holds. *)
Theorem hyphenated_names (name : string) :
  (validName name = true → ObjectRoute.validObjectName name = true)
  ∧ (Js.includes name "-" = true →
     validName name = false
     ∧ (∀ env st fieldId body,
          EnumRename.PATCH env name fieldId body st
          = (error 400 "Invalid object name", st))
     ∧ (∀ env st request,
          BulkDelete.POST env name request st
          = (error 400 "Invalid object name", st))
     ∧ (∀ env st uuid now request,
          CreateEntry.POST env uuid now name request st
          = (error 400 "Invalid object name", st)))
  ∧ (validName name = true →
     ObjectRoute.validObjectName (name +:+ "-" +:+ name) = true
     ∧ validName (name +:+ "-" +:+ name) = false).
Proof.
  assert (∀ s, validName s = true → ObjectRoute.validObjectName s = true) as Hweaker.
  { intros [|c s]; [done|]. unfold validName, ObjectRoute.validObjectName.
    rewrite isIdentStart_letter, allChars_forallb.
    intros [-> Hs]%andb_true_iff. simpl.
    rewrite forallb_forall in Hs. apply forallb_forall. intros x Hx.
    specialize (Hs x Hx). rewrite isIdentChar_word in Hs. by rewrite Hs. }
  assert (∀ s, Js.includes s "-" = true → validName s = false) as Hhyphen.
  { intros [|c s] Hs; [done|]. unfold validName.
    rewrite includes_cons in Hs. apply orb_true_iff in Hs as [Hs|Hs].
    - cbn [Js.startsWith] in Hs.
      destruct (Ascii.eqb_spec "-" c) as [<-|]; [done|done].
    - rewrite (hyphen_invalid s) by done. apply andb_false_r. }
  split; [apply Hweaker|]. split.
  - intros Hname%Hhyphen. split; [done|].
    unfold EnumRename.PATCH, BulkDelete.POST, CreateEntry.POST. rewrite Hname.
    done.
  - intros Hname. split.
    + pose proof (Hweaker _ Hname) as Hget.
      destruct name as [|c s]; [done|].
      unfold ObjectRoute.validObjectName in *. rewrite append_cons.
      apply andb_true_iff in Hget as [Hc Hs]. rewrite Hc. cbn [andb].
      rewrite list_ascii_app, forallb_app, Hs. cbn [andb].
      change (list_ascii_of_string ("-" +:+ String c s))
        with ("-"%char :: c :: list_ascii_of_string s).
      cbn [forallb]. rewrite Hs, andb_true_r.
      unfold Js.isWordChar. apply orb_true_iff in Hc as [Hc|Hc]; rewrite Hc; [done|].
      apply orb_true_iff. left. apply orb_true_r.
    + apply Hhyphen. apply includes_spec. by exists name, name.
Qed.

End ObjectNames.

Section RelationValues.
Import Workspace.


End RelationValues.

(** * Literals of the statements *)

Section Literals.
Import Sql.

Lemma lexLiteral_close (after : string) :
  Js.startsWith after "'" = false → lexLiteral (String "'" after) = Some ("", after).
Proof.
  intros Hafter. cbn [lexLiteral]. rewrite Ascii.eqb_refl.
  destruct after as [|c after]; [done|].
  cbn [Js.startsWith] in Hafter. rewrite startsWith_nil in Hafter.
  rewrite Ascii.eqb_sym. by destruct (Ascii.eqb "'" c).
Qed.

(** X22: a value escaped by [sqlEscape] and written between single
    quotes is one literal for the lexer of the engine, whatever quotes
    the value holds: the literal ends where the route closes it (what
    follows does not begin with a quote) and denotes the value.  Hence
    two values with the same escaped text are the same value. *)
Theorem sqlEscape_literal (value after : string) :
  Js.startsWith after "'" = false →
  lexLiteral (sqlEscape value +:+ "'" +:+ after) = Some (value, after)
  ∧ literal (sqlEscape value) = value
  ∧ (∀ other, sqlEscape other = sqlEscape value → other = value).
Proof.
  intros Hafter. split; [|split].
  - unfold sqlEscape. induction value as [|c value IH].
    + change (Js.replaceQuotes "''" "" +:+ "'" +:+ after) with (String "'" after).
      by apply lexLiteral_close.
    + cbn [Js.replaceQuotes].
      destruct (Ascii.eqb_spec c "'") as [->|Hc].
      * change (("''" +:+ Js.replaceQuotes "''" value) +:+ "'" +:+ after)
          with (String "'" (String "'" (Js.replaceQuotes "''" value +:+ "'" +:+ after))).
        cbn [lexLiteral]. rewrite !Ascii.eqb_refl, IH. done.
      * rewrite append_cons. cbn [lexLiteral].
        apply Ascii.eqb_neq in Hc as ->. rewrite IH. done.
  - apply literal_sqlEscape.
  - intros other Heq. rewrite <- (literal_sqlEscape other), Heq.
    apply literal_sqlEscape.
Qed.

End Literals.

(** * Requests one after the other *)

Section Sequences.
Import Workspace Sql Http.

Lemma quietly_ret {A} (a : A) : quietly (ret a).
Proof. by intros st. Qed.

Lemma quietly_bind {A B} (m : M A) (k : A → M B) :
  quietly m → (∀ a, quietly (k a)) → quietly (bind m k).
Proof.
  intros Hm Hk st Hq. unfold bind. specialize (Hm st Hq).
  destruct (m st) as [a st1]. by apply Hk.
Qed.

Lemma quietly_query {T} env db (sql : Database → list T) :
  quietly (duckdbQueryOnFile env db sql).
Proof.
  intros st Hq. destruct (duckdbQueryOnFile env db sql st) as [rows st'] eqn:Hrun.
  apply duckdbQueryOnFile_inv in Hrun as (_ & Hquiet & _). by apply Hquiet.
Qed.

Lemma quietly_exec env db sql : quietly (duckdbExecOnFile env db sql).
Proof.
  intros st Hq. destruct (duckdbExecOnFile env db sql st) as [ok st'] eqn:Hrun.
  apply duckdbExecOnFile_inv in Hrun as (Hquiet & _). by apply Hquiet.
Qed.

Lemma quietly_find env name : quietly (findDuckDBForObject env name).
Proof.
  intros st Hq. destruct (findDuckDBForObject env name st) as [r st'] eqn:Hrun.
  apply findDuckDBForObject_inv in Hrun as (_ & Hquiet & _). by apply Hquiet.
Qed.

Lemma quietly_bulk_delete env name request :
  quietly (BulkDelete.POST env name request).
Proof.
  unfold BulkDelete.POST. destruct (negb (validName name)); [apply quietly_ret|].
  apply quietly_bind; [apply quietly_find|]. intros [dbFile|]; [|apply quietly_ret].
  destruct request as [| |body]; try apply quietly_ret.
  destruct (BulkDelete.entryIds body) as [[|id0 ids]|]; try apply quietly_ret.
  apply quietly_bind; [apply quietly_query|]. intros [|objectId objects];
    [apply quietly_ret|].
  destruct (BulkDelete.escapeAll (id0 :: ids)) as [idList|]; [|apply quietly_ret].
  apply quietly_bind; [apply quietly_exec|]. intros ?.
  apply quietly_bind; [apply quietly_exec|]. intros ?. apply quietly_ret.
Qed.



Lemma quietly_rename env name fieldId body :
  quietly (EnumRename.PATCH env name fieldId body).
Proof.
  unfold EnumRename.PATCH. destruct (negb (validName name)); [apply quietly_ret|].
  apply quietly_bind; [apply quietly_find|]. intros [dbFile|]; [|apply quietly_ret].
  destruct (EnumRename.oldValue body) as [old|]; [|apply quietly_ret].
  destruct (EnumRename.newValue body) as [new|]; [|apply quietly_ret].
  destruct (negb (Js.truthy old) || negb (Js.truthy new)); [apply quietly_ret|].
  destruct (String.eqb (Js.trim old) (Js.trim new)); [apply quietly_ret|].
  apply quietly_bind; [apply quietly_query|]. intros [|objectId objects];
    [apply quietly_ret|].
  apply quietly_bind; [apply quietly_query|]. intros [|field fields];
    [apply quietly_ret|].
  destruct (EnumRename.parseEnumValues _) as [enumValues|]; [|apply quietly_ret].
  unfold EnumRename.renameValue.
  destruct (Js.indexOf enumValues (Js.trim old)) as [idx|]; [|apply quietly_ret].
  destruct (Js.arrayIncludes enumValues (Js.trim new)); [apply quietly_ret|].
  apply quietly_bind; [apply quietly_exec|]. intros ?.
  apply quietly_bind; [apply quietly_exec|]. intros ?. apply quietly_ret.
Qed.

(** With no failure to come, the loop of the locator returns the first
    file in which the query finds a row. *)
Lemma scanFor_find sql dbPaths st :
  faults st = [] →
  (scanFor sql dbPaths st).1
  = List.find (λ db, match sql <$> files st !! db with
                     | Some (_ :: _) => true
                     | _ => false
                     end) dbPaths.
Proof.
  revert st. induction dbPaths as [|db rest IH]; intros st Hq; [done|].
  simpl. unfold bind. rewrite execSyncJson_quiet by done.
  destruct (sql <$> files st !! db) as [[|row rows]|]; [|done|];
    by rewrite (IH (logCall (QueryCall db) st)) by (by apply logCall_quiet).
Qed.

Lemma find_same {A} (p q : A → bool) (l : list A) :
  (∀ x, p x = q x) → List.find p l = List.find q l.
Proof.
  intros Hpq. induction l as [|x l IH]; [done|]. simpl. by rewrite Hpq, IH.
Qed.

(** The locator answers by the objects of the files alone. *)
Lemma locator_stable env name st1 st2 :
  faults st1 = [] → faults st2 = [] →
  (∀ db, objects <$> files st1 !! db = objects <$> files st2 !! db) →
  (findDuckDBForObject env name st1).1 = (findDuckDBForObject env name st2).1.
Proof.
  intros Hq1 Hq2 Hobjects. unfold findDuckDBForObject.
  destruct (discoverDuckDBPaths env) as [|db0 dbs]; [done|].
  destruct (resolveDuckdbBin env); [|done].
  rewrite !scanFor_find by done. apply find_same. intros db.
  specialize (Hobjects db). unfold selectObjectId.
  destruct (files st1 !! db) as [d1|], (files st2 !! db) as [d2|]; simpl in *;
    try done. by injection Hobjects as ->.
Qed.

Lemma filter_keep {A} (P : A → Prop) `{!∀ x, Decision (P x)} (l : list A) :
  (∀ x, x ∈ l → P x) → filter P l = l.
Proof.
  induction l as [|x l IH]; intros Hall; [done|].
  rewrite filter_cons_True by (apply Hall; by left).
  f_equal. apply IH. intros y Hy. apply Hall. by right.
Qed.


(** A deletion leaves nothing for the same deletion. *)
Lemma deleted_deleted ids objectId d :
  BulkDelete.deleted ids objectId (BulkDelete.deleted ids objectId d)
  = BulkDelete.deleted ids objectId d.
Proof.
  unfold BulkDelete.deleted. simpl. f_equal.
  - apply filter_keep. by intros e [He _]%list_elem_of_filter.
  - apply filter_keep. by intros r [Hr _]%list_elem_of_filter.
Qed.

(** The locator after a write that keeps the objects of the file. *)
Lemma locator_after_write env name st st' dbFile d d' :
  faults st = [] → faults st' = [] →
  files st !! dbFile = Some d →
  files st' = <[dbFile := d']> (files st) →
  objects d' = objects d →
  (findDuckDBForObject env name st').1 = (findDuckDBForObject env name st).1.
Proof.
  intros Hq Hq' Hd Hfiles Hobjects. apply locator_stable; [done..|].
  intros db. rewrite Hfiles. destruct (decide (dbFile = db)) as [<-|Hne].
  - rewrite lookup_insert_eq, Hd. simpl. by rewrite Hobjects.
  - by rewrite lookup_insert_ne.
Qed.

(** X23: with no failing invocation, a bulk deletion that reaches the
    object, sent a second time, is answered as the first time and changes
    no file: the entries are gone already. *)
Theorem bulk_delete_twice (env : Env) (st : Store) (name : string)
    (ids : list string) (dbFile : string) (d : Database) (objectId : string) :
  BulkDelete.ObjectFound env st name dbFile d objectId →
  ids ≠ [] →
  faults st = [] →
  let request := Json {| BulkDelete.entryIds := Some (Js.Str <$> ids) |} in
  let first := BulkDelete.POST env name request st in
  let second := BulkDelete.POST env name request first.2 in
  files first.2 = <[dbFile := BulkDelete.deleted ids objectId d]> (files st)
  ∧ second.1 = first.1
  ∧ files second.2 = files first.2.
Proof.
  intros Hfound Hids Hq request first second.
  destruct (POST_outcomes env st name ids dbFile d objectId Hfound Hids)
    as (ran1 & ran2 & Hfiles & Hquiet).
  destruct (Hquiet Hq) as (-> & -> & Hanswer). clear Hquiet.
  rewrite deletes_deleted in Hfiles. fold request first in Hfiles, Hanswer.
  set (d1 := BulkDelete.deleted ids objectId d) in *.
  assert (faults first.2 = []) as Hq1 by (by apply quietly_bulk_delete).
  assert (BulkDelete.ObjectFound env first.2 name dbFile d1 objectId) as Hfound1.
  { destruct Hfound as [Hname Hfile Htables Hobject]. split.
    - done.
    - by rewrite (locator_after_write env name st first.2 dbFile d d1).
    - by rewrite Hfiles, lookup_insert_eq.
    - done. }
  destruct (POST_outcomes env first.2 name ids dbFile d1 objectId Hfound1 Hids)
    as (ran1 & ran2 & Hfiles2 & Hquiet2).
  destruct (Hquiet2 Hq1) as (-> & -> & Hanswer2). clear Hquiet2.
  rewrite deletes_deleted in Hfiles2. fold request second in Hfiles2, Hanswer2.
  split; [done|]. split; [by rewrite Hanswer, Hanswer2|].
  unfold d1 in Hfiles2. rewrite deleted_deleted in Hfiles2. fold d1 in Hfiles2.
  rewrite Hfiles2, Hfiles. apply insert_insert_eq.
Qed.




(** A rename that reaches the field, the engine running. *)
Lemma rename_outcome env st name fieldId old new dbFile d objectId field vals i :
  EnumRename.FieldFound env st name fieldId dbFile d objectId field vals →
  faults st = [] →
  old ≠ "" → new ≠ "" →
  Js.indexOf vals (Js.trim old) = Some i →
  Js.trim new ∉ vals →
  let request := {| EnumRename.oldValue := Some old; EnumRename.newValue := Some new |} in
  (EnumRename.PATCH env name fieldId request st).1
  = json 200 [("ok", Js.Bool true); ("updated", Js.Bool true)]
  ∧ files (EnumRename.PATCH env name fieldId request st).2
    = <[dbFile := EnumRename.renamed fieldId (Js.trim old) (Js.trim new) i vals d]>
        (files st).
Proof.
  intros Hfound Hq Hold Hnew Hidx Hfresh request.
  pose proof (indexOf_Some _ _ _ Hidx) as [Hi _].
  assert (Js.trim old ≠ Js.trim new) as Hdiff.
  { intros Heq. apply Hfresh. rewrite <- Heq. by eapply list_elem_of_lookup_2. }
  destruct (PATCH_validated env st name fieldId old new dbFile d objectId field vals)
    as (st3 & Hfiles3 & Hquiet3 & [bin Hbin] & [Hrun|(Hfaults & _)]);
    try done.
  unfold request. rewrite Hrun. unfold EnumRename.renameValue. rewrite Hidx.
  apply arrayIncludes_false in Hfresh as ->.
  unfold bind, duckdbExecOnFile. rewrite Hbin.
  destruct Hfound as [_ _ Htables _ _ _].
  erewrite execSyncStmt_quiet; [|by auto|by rewrite Hfiles3].
  erewrite execSyncStmt_quiet; [| |simpl; by rewrite lookup_alter_eq, Hfiles3, Htables].
  2: { simpl. by rewrite Hquiet3. }
  simpl. split; [done|].
  rewrite Hfiles3. erewrite alter_alter_insert by done.
  by rewrite updates_renamed.
Qed.

Lemma indexOf_insert_fresh (l : list string) x y i :
  Js.indexOf l x = Some i → y ∉ l → Js.indexOf (<[i := y]> l) y = Some i.
Proof.
  revert i. induction l as [|z l IH]; intros i; [done|]. simpl.
  intros Hidx Hfresh. apply not_elem_of_cons in Hfresh as [Hne Hfresh].
  destruct (String.eqb z x).
  - injection Hidx as <-. simpl. by rewrite String.eqb_refl.
  - destruct (Js.indexOf l x) as [i'|]; [|done]. injection Hidx as <-. simpl.
    assert (String.eqb z y = false) as -> by (by apply String.eqb_neq).
    by rewrite (IH i').
Qed.

Lemma insert_not_elem (l : list string) x y i :
  NoDup l → l !! i = Some x → x ≠ y → x ∉ <[i := y]> l.
Proof.
  intros Hnodup Hi Hne [j Hj]%list_elem_of_lookup_1.
  destruct (decide (i = j)) as [<-|Hij].
  - rewrite list_lookup_insert_eq in Hj by (by eapply lookup_lt_Some). congruence.
  - rewrite list_lookup_insert_ne in Hj by done.
    apply Hij. by eapply NoDup_lookup.
Qed.

Lemma selectField_renamed fieldId objectId vals d :
  EnumRename.selectField (sqlEscape fieldId) (sqlEscape objectId)
    {| objects := objects d;
       fields := EnumRename.renamedField fieldId vals <$> fields d;
       entries := entries d;
       entry_fields := entry_fields d |}
  = EnumRename.renamedField fieldId vals
    <$> EnumRename.selectField (sqlEscape fieldId) (sqlEscape objectId) d.
Proof.
  unfold EnumRename.selectField. simpl.
  induction (fields d) as [|f l IH]; [done|].
  rewrite fmap_cons.
  assert (fld_id (EnumRename.renamedField fieldId vals f) = fld_id f
          ∧ fld_object_id (EnumRename.renamedField fieldId vals f) = fld_object_id f)
    as [Hid Hobject] by (unfold EnumRename.renamedField; by case_decide).
  destruct (decide (fld_id f = literal (sqlEscape fieldId)
                    ∧ fld_object_id f = literal (sqlEscape objectId))) as [Hsel|Hsel].
  - rewrite (filter_cons_True _ f) by done.
    rewrite filter_cons_True by (by rewrite Hid, Hobject).
    by rewrite fmap_cons, IH.
  - rewrite (filter_cons_False _ f) by done.
    rewrite filter_cons_False by (by rewrite Hid, Hobject). done.
Qed.

(** X25: with no failing invocation, the rename of an enum value to a
    value the field does not have, followed by the rename back, is
    answered 200 both times and leaves every file as it was, provided the
    enum values have no duplicate, the field id is borne by one field
    only, and no stored value of the field was the new value already. *)
Theorem enum_rename_round_trip (env : Env) (st : Store)
    (name fieldId old new dbFile : string) (d : Database) (objectId : string)
    (field : FieldRow) (vals : list string) (i : nat) :
  EnumRename.FieldFound env st name fieldId dbFile d objectId field vals →
  faults st = [] →
  old ≠ "" → new ≠ "" →
  Js.indexOf vals (Js.trim old) = Some i →
  Js.trim new ∉ vals →
  NoDup vals →
  (∀ f, f ∈ fields d → fld_id f = fieldId → f = field) →
  (∀ r, r ∈ entry_fields d →
     ef_field_id r = fieldId → ef_value r ≠ Some (Js.trim new)) →
  let forth :=
    EnumRename.PATCH env name fieldId
      {| EnumRename.oldValue := Some old; EnumRename.newValue := Some new |} st in
  let back :=
    EnumRename.PATCH env name fieldId
      {| EnumRename.oldValue := Some new; EnumRename.newValue := Some old |} forth.2 in
  forth.1 = json 200 [("ok", Js.Bool true); ("updated", Js.Bool true)]
  ∧ back.1 = json 200 [("ok", Js.Bool true); ("updated", Js.Bool true)]
  ∧ files forth.2
    = <[dbFile := EnumRename.renamed fieldId (Js.trim old) (Js.trim new) i vals d]>
        (files st)
  ∧ files back.2 = files st.
Proof.
  intros Hfound Hq Hold Hnew Hidx Hfresh Hnodup Hkey Hvalues forth back.
  pose proof (indexOf_Some _ _ _ Hidx) as [Hi _].
  assert (Js.trim old ≠ Js.trim new) as Hdiff.
  { intros Heq. apply Hfresh. rewrite <- Heq. by eapply list_elem_of_lookup_2. }
  destruct (rename_outcome env st name fieldId old new dbFile d objectId field vals i)
    as [Hanswer Hfiles]; [done..|].
  fold forth in Hanswer, Hfiles.
  set (vals1 := <[i := Js.trim new]> vals).
  set (d1 := EnumRename.renamed fieldId (Js.trim old) (Js.trim new) i vals d) in *.
  assert (faults forth.2 = []) as Hq1 by (by apply quietly_rename).
  destruct Hfound as [Hname Hfile Htables Hobject Hfield Hparse].
  assert (fld_id field = fieldId) as Hfid.
  { apply head_cons in Hfield as [rest Hrest].
    assert (field ∈ EnumRename.selectField (sqlEscape fieldId) (sqlEscape objectId) d)
      as Hin by (rewrite Hrest; by left).
    apply list_elem_of_filter in Hin as [[Hlit _] _].
    by rewrite literal_sqlEscape in Hlit. }
  assert (EnumRename.FieldFound env forth.2 name fieldId dbFile d1 objectId
            (EnumRename.renamedField fieldId vals1 field) vals1) as Hfound1.
  { split.
    - done.
    - by rewrite (locator_after_write env name st forth.2 dbFile d d1).
    - by rewrite Hfiles, lookup_insert_eq.
    - done.
    - unfold d1, EnumRename.renamed.
      apply head_cons in Hfield as [rest Hrest].
      unfold EnumRename.selectField in *. simpl.
      pose proof (selectField_renamed fieldId objectId vals1 d) as Hsel.
      unfold EnumRename.selectField in Hsel. simpl in Hsel.
      fold vals1. rewrite Hsel, Hrest. done.
    - unfold EnumRename.renamedField. by rewrite decide_True. }
  destruct (rename_outcome env forth.2 name fieldId new old dbFile d1 objectId
              (EnumRename.renamedField fieldId vals1 field) vals1 i)
    as [Hanswer2 Hfiles2]; [done..| | |].
  { by apply (indexOf_insert_fresh vals (Js.trim old)). }
  { by apply insert_not_elem. }
  fold back in Hanswer2, Hfiles2.
  split; [done|]. split; [done|]. split; [done|].
  rewrite Hfiles2, Hfiles, insert_insert_eq.
  assert (EnumRename.renamed fieldId (Js.trim new) (Js.trim old) i vals1 d1 = d)
    as ->; [|by apply insert_id].
  assert (enum_values field = Some (ArrayText vals)) as Hcolumn.
  { unfold EnumRename.parseEnumValues in Hparse.
    destruct (enum_values field) as [[| |]|]; try done;
      injection Hparse as <-; done. }
  destruct d as [os fs es vs]. unfold d1, EnumRename.renamed. simpl in *. f_equal.
  - rewrite <- list_fmap_compose.
    rewrite <- (list_fmap_id fs) at 2. apply list_fmap_ext.
    intros _ f Hf%list_elem_of_lookup_2. simpl.
    unfold vals1. rewrite list_insert_insert_eq, list_insert_id by done.
    unfold EnumRename.renamedField at 2.
    destruct (decide (fld_id f = fieldId)) as [Hf_id|Hf_id].
    + rewrite (Hkey f Hf Hf_id). unfold EnumRename.renamedField.
      rewrite decide_True by done.
      destruct field. simpl in *. unfold EnumRename.setEnumValues. simpl.
      by rewrite Hcolumn.
    + unfold EnumRename.renamedField. by rewrite decide_False.
  - rewrite <- list_fmap_compose.
    rewrite <- (list_fmap_id vs) at 2. apply list_fmap_ext.
    intros _ r Hr%list_elem_of_lookup_2. simpl.
    unfold EnumRename.renamedEntry at 2.
    destruct (decide (ef_field_id r = fieldId ∧ ef_value r = Some (Js.trim old)))
      as [[Hr_field Hr_value]|Hr_other].
    + unfold EnumRename.renamedEntry. rewrite decide_True by done.
      destruct r. simpl in *. unfold EnumRename.setValue. simpl. by rewrite Hr_value.
    + unfold EnumRename.renamedEntry. rewrite decide_False; [done|].
      intros [Hr_field Hr_value]. by apply (Hvalues r).
Qed.

End Sequences.

(** * Reading a file of the workspace *)

Section ReadingFiles.
Import Workspace.

(** X26: [readWorkspaceFile] reads nothing but a file that exists and
    whose resolved path begins with the resolved root: what the file
    system holds elsewhere does not change its result.  The type of
    what it returns is decided by the text after the last dot of the
    relative path, in small letters: [md] and [mdx] give markdown,
    [yaml] and [yml] give yaml, all else text. *)
Theorem readWorkspaceFile_confined (env : Env) (read read' : string → option string)
    (root relativePath : string) :
  resolveWorkspaceRoot env = Some root →
  (∀ p, existsSync env p = true →
        Js.startsWith p (NodePath.resolve (cwd env) [root]) = true →
        read p = read' p) →
  readWorkspaceFile env read relativePath = readWorkspaceFile env read' relativePath
  ∧ (∀ f, readWorkspaceFile env read relativePath = Some f →
       ∃ absolute,
         safeResolvePath env relativePath = Some absolute
         ∧ existsSync env absolute = true
         ∧ Js.startsWith absolute (NodePath.resolve (cwd env) [root]) = true
         ∧ read absolute = Some (content f))
  ∧ (∀ stem ext f,
       sepFree "." ext →
       relativePath = stem +:+ "." +:+ ext →
       readWorkspaceFile env read relativePath = Some f →
       type f = (if bool_decide (Js.toLowerCase ext ∈ ["md"; "mdx"]) then markdown
                 else if bool_decide (Js.toLowerCase ext ∈ ["yaml"; "yml"]) then yaml
                 else text)).
Proof.
  intros Hroot Hsame.
  assert (∀ absolute, safeResolvePath env relativePath = Some absolute →
            existsSync env absolute = true
            ∧ Js.startsWith absolute (NodePath.resolve (cwd env) [root]) = true)
    as Hsafe.
  { intros absolute. unfold safeResolvePath. rewrite Hroot.
    destruct (_ || _); [done|].
    destruct (Js.startsWith _ _) eqn:Hstarts; [|done]. cbn [negb].
    destruct (existsSync env _) eqn:Hexists; [|done]. cbn [negb].
    by intros [= <-]. }
  split; [|split].
  - unfold readWorkspaceFile.
    destruct (safeResolvePath env relativePath) as [absolute|]; [|done].
    destruct (Hsafe absolute eq_refl) as [Hexists Hstarts].
    by rewrite (Hsame absolute).
  - intros f. unfold readWorkspaceFile.
    destruct (safeResolvePath env relativePath) as [absolute|]; [|done].
    destruct (Hsafe absolute eq_refl) as [Hexists Hstarts].
    destruct (read absolute) as [text|] eqn:Hread; [|done].
    intros [= <-]. by exists absolute.
  - intros stem ext f Hext -> . unfold readWorkspaceFile.
    destruct (safeResolvePath env _) as [absolute|]; [|done].
    destruct (read absolute) as [text|]; [|done].
    intros [= <-]. cbn [type]. unfold extension.
    change ("." +:+ ext) with (String "." ext). rewrite last_split by done.
    change (Js.toLowerCase <$> Some ext) with (Some (Js.toLowerCase ext)).
    set (e := Js.toLowerCase ext).
    destruct (decide (Some e = Some "md" ∨ Some e = Some "mdx")) as [Hmd|Hmd].
    + rewrite bool_decide_eq_true_2; [done|].
      destruct Hmd as [[= ->]|[= ->]]; [by left|by right; left].
    + rewrite bool_decide_eq_false_2.
      2:{ intros [->|[->|[]%elem_of_nil]%elem_of_cons]%elem_of_cons;
            (apply Hmd; by left) || (apply Hmd; by right). }
      destruct (decide (Some e = Some "yaml" ∨ Some e = Some "yml")) as [Hy|Hy].
      * rewrite bool_decide_eq_true_2; [done|].
        destruct Hy as [[= ->]|[= ->]]; [by left|by right; left].
      * rewrite bool_decide_eq_false_2; [done|].
        intros [->|[->|[]%elem_of_nil]%elem_of_cons]%elem_of_cons;
          (apply Hy; by left) || (apply Hy; by right).
Qed.

End ReadingFiles.

(** * Relative paths: scopes of the databases, prefix of the agent *)

Section RelativePaths.
Import Workspace.

Local Abbreviation slashFree := (sepFree "/"%char).

Lemma resolveLoop_extra extra rest acc :
  Forall (λ e, e ≠ "" ∧ slashFree e) extra →
  NodePath.resolveLoop (reverse extra ++ rest) acc
  = NodePath.resolveLoop rest (behind extra acc).
Proof.
  revert acc. induction extra as [|e extra IH] using rev_ind; intros acc Hextra;
    [done|].
  apply Forall_app in Hextra as [Hextra He].
  inversion_clear He as [|?? [Hne Hfree] _].
  rewrite reverse_app. change (reverse [e]) with [e].
  cbn [app NodePath.resolveLoop].
  apply String.eqb_neq in Hne as Heqb. rewrite Heqb.
  destruct e as [|c t]; [done|]. destruct Hfree as [Hc _].
  rewrite startsWith_slash by done.
  rewrite IH by done. unfold behind. by rewrite foldr_app.
Qed.

Lemma split_behind extra :
  Forall (λ e, e ≠ "" ∧ slashFree e) extra →
  Js.split "/" (behind extra "") = extra ++ [""].
Proof.
  induction extra as [|e extra IH]; intros Hextra; [done|].
  inversion_clear Hextra as [|?? [_ Hfree] Hrest]. cbn [behind foldr].
  change ("/" +:+ ?t) with (String "/" t).
  rewrite split_append by done. fold (behind extra ""). by rewrite IH.
Qed.

(** [resolve] from an absolute path of plain segments, through
    arguments of one segment each. *)
Lemma resolve_steps env l extra :
  Forall plainSegment l →
  Forall (λ e, e ≠ "" ∧ slashFree e) extra →
  NodePath.resolve (cwd env) (("/" +:+ Js.join "/" l) :: extra)
  = "/" +:+ Js.join "/" (reverse (NodePath.normalizeSegments false (reverse l) extra)).
Proof.
  intros Hl Hextra. unfold NodePath.resolve, NodePath.normalizeString.
  rewrite reverse_cons, <- app_assoc, resolveLoop_extra by done.
  change ("/" +:+ Js.join "/" l) with (String "/" (Js.join "/" l)).
  cbn [app NodePath.resolveLoop String.eqb].
  rewrite startsWith_slash_cons. cbn [negb fst snd].
  change (String "/" (Js.join "/" l) +:+ "/" +:+ behind extra "")
    with (String "/" (Js.join "/" l +:+ String "/" (behind extra ""))).
  rewrite split_slash_cons, normalizeSegments_skip.
  rewrite split_middle, split_behind, normalizeSegments_app by done.
  assert (NodePath.normalizeSegments false [] (Js.split "/" (Js.join "/" l))
          = reverse l) as ->.
  { destruct l as [|x l']; [done|].
    rewrite split_join by (done || by apply plain_slashFree).
    by rewrite normalizeSegments_plain, app_nil_r. }
  by rewrite normalizeSegments_app, normalizeSegments_last.
Qed.

Lemma resolve_self env l :
  Forall plainSegment l →
  NodePath.resolve (cwd env) ["/" +:+ Js.join "/" l] = "/" +:+ Js.join "/" l.
Proof.
  intros Hl. rewrite resolve_steps by done.
  change (NodePath.normalizeSegments false (reverse l) []) with (reverse l).
  by rewrite reverse_involutive.
Qed.

Lemma pop_plain stack seg :
  plainSegment seg → NodePath.pushSegment false (seg :: stack) ".." = stack.
Proof.
  intros (_ & _ & Hdots & _). unfold NodePath.pushSegment.
  change (String.eqb ".." "" || String.eqb ".." ".") with false.
  change (String.eqb ".." "..") with true. cbv iota.
  by apply String.eqb_neq in Hdots as ->.
Qed.

Lemma resolve_parent env l seg :
  Forall plainSegment l → plainSegment seg →
  NodePath.resolve (cwd env) ["/" +:+ Js.join "/" (l ++ [seg]); ".."]
  = "/" +:+ Js.join "/" l.
Proof.
  intros Hl Hseg. rewrite resolve_steps.
  - rewrite reverse_app. change (reverse [seg]) with [seg].
    change (NodePath.normalizeSegments false ([seg] ++ reverse l) [".."])
      with (NodePath.pushSegment false (seg :: reverse l) "..").
    by rewrite pop_plain, reverse_involutive.
  - apply Forall_app. split; [done|by apply Forall_singleton].
  - by repeat constructor.
Qed.

Lemma resolve_grandparent env l :
  Forall plainSegment l →
  NodePath.resolve (cwd env) ["/" +:+ Js.join "/" l; ".."; ".."]
  = "/" +:+ Js.join "/" (take (length l - 2) l).
Proof.
  intros Hl. rewrite resolve_steps by (done || by repeat constructor).
  f_equal. f_equal.
  change (NodePath.normalizeSegments false (reverse l) [".."; ".."])
    with (NodePath.pushSegment false
            (NodePath.pushSegment false (reverse l) "..") "..").
  induction l as [|a l _] using rev_ind; [done|].
  apply Forall_app in Hl as [Hl Ha]. inversion_clear Ha as [|?? Ha' _].
  rewrite reverse_app. change (reverse [a]) with [a]. cbn [app].
  rewrite pop_plain by done.
  induction l as [|b l _] using rev_ind; [done|].
  apply Forall_app in Hl as [Hl Hb]. inversion_clear Hb as [|?? Hb' _].
  rewrite reverse_app. change (reverse [b]) with [b]. cbn [app].
  rewrite pop_plain, reverse_involutive by done.
  rewrite !length_app. cbn [length].
  replace (length l + 1 + 1 - 2) with (length l) by lia.
  by rewrite <- app_assoc, take_app_length.
Qed.

Lemma plain_nonempty l : Forall plainSegment l → Forall (λ seg, seg ≠ "") l.
Proof. intros Hl. eapply Forall_impl; [exact Hl|]. by intros ? (? & _). Qed.

Lemma segments_absolute l :
  Forall plainSegment l → NodePath.segments ("/" +:+ Js.join "/" l) = l.
Proof.
  intros Hl. unfold NodePath.segments.
  change ("/" +:+ Js.join "/" l) with (String "/" (Js.join "/" l)).
  rewrite split_slash_cons, filter_cons_False by (by intros ?).
  destruct l as [|x l']; [done|].
  rewrite split_join by (done || by apply plain_slashFree).
  apply filter_keep. intros seg Hseg.
  apply plain_nonempty in Hl. by eapply Forall_forall in Hl.
Qed.

Lemma dropCommon_spec (from to : list string) :
  ∃ common,
    from = common ++ (NodePath.dropCommon from to).1
    ∧ to = common ++ (NodePath.dropCommon from to).2
    ∧ ((NodePath.dropCommon from to).1 = [] ↔ from `prefix_of` to).
Proof.
  revert to. induction from as [|f from IH]; intros to.
  - exists []. simpl. split; [done|]. split; [done|].
    split; [intros _; apply prefix_nil|done].
  - destruct to as [|t to].
    + exists []. simpl. split; [done|]. split; [done|].
      split; [done|]. by intros ?%prefix_nil_inv.
    + cbn [NodePath.dropCommon]. destruct (String.eqb_spec f t) as [->|Hne].
      * destruct (IH to) as (common & Hfrom & Hto & Hprefix).
        exists (t :: common). cbn [app]. split; [by f_equal|]. split; [by f_equal|].
        rewrite Hprefix. split; [apply prefix_cons|].
        by intros ?%prefix_cons_inv_2.
      * exists []. simpl. split; [done|]. split; [done|].
        split; [done|]. by intros ?%prefix_cons_inv_1.
Qed.

Lemma dropCommon_below (from below : list string) :
  NodePath.dropCommon from (from ++ below) = ([], below).
Proof.
  induction from as [|f from IH]; [by destruct below|].
  cbn [app NodePath.dropCommon]. by rewrite String.eqb_refl.
Qed.

(** [relative] between two absolute paths of plain segments. *)
Lemma relative_absolute env from to :
  Forall plainSegment from → Forall plainSegment to →
  NodePath.relative (cwd env) ("/" +:+ Js.join "/" from) ("/" +:+ Js.join "/" to)
  = if decide (from = to) then ""
    else let '(up, down) := NodePath.dropCommon from to in
         Js.join "/" (replicate (length up) ".." ++ down).
Proof.
  intros Hfrom Hto. unfold NodePath.relative.
  rewrite !resolve_self by done.
  assert (String.eqb ("/" +:+ Js.join "/" from) ("/" +:+ Js.join "/" to)
          = bool_decide (from = to)) as ->.
  { destruct (String.eqb_spec ("/" +:+ Js.join "/" from) ("/" +:+ Js.join "/" to))
      as [Heq|Hne].
    - rewrite bool_decide_eq_true_2; [done|].
      by rewrite <- (segments_absolute from), <- (segments_absolute to), Heq.
    - rewrite bool_decide_eq_false_2; [done|]. by intros ->. }
  destruct (decide (from = to)) as [Heq|Hne].
  - by rewrite bool_decide_eq_true_2.
  - rewrite bool_decide_eq_false_2 by done.
    by rewrite !segments_absolute.
Qed.

Lemma join_absolute rs seg :
  Forall plainSegment rs → plainSegment seg →
  NodePath.join ["/" +:+ Js.join "/" rs; seg] = "/" +:+ Js.join "/" (rs ++ [seg]).
Proof.
  intros Hrs Hseg. pose proof Hseg as (Hne & _).
  unfold NodePath.join.
  rewrite filter_cons_True by done.
  rewrite filter_cons_True, filter_nil by done.
  change (Js.join "/" ["/" +:+ Js.join "/" rs; seg])
    with (("/" +:+ Js.join "/" rs) +:+ "/" +:+ seg).
  destruct (String.eqb_spec (("/" +:+ Js.join "/" rs) +:+ "/" +:+ seg) "")
    as [Heq|_]; [done|].
  destruct rs as [|r rs'].
  - change (("/" +:+ Js.join "/" []) +:+ "/" +:+ seg) with (String "/" (String "/" seg)).
    unfold NodePath.normalize, NodePath.normalizeString.
    rewrite startsWith_slash_cons, !split_slash_cons, !normalizeSegments_skip.
    pose proof Hseg as (_ & _ & _ & Hfree).
    rewrite split_of_sepFree by done.
    change (NodePath.normalizeSegments (negb true) [] [seg])
      with (NodePath.pushSegment false [] seg).
    rewrite pushSegment_plain by done.
    rewrite !lastCharIs_cons by (done || by destruct seg).
    rewrite lastCharIs_sepFree by done.
    change (Js.join "/" (reverse [seg])) with seg.
    apply String.eqb_neq in Hne as ->. done.
  - assert (("/" +:+ Js.join "/" (r :: rs')) +:+ "/" +:+ seg
            = "/" +:+ Js.join "/" ((r :: rs') ++ [seg])) as ->
      by (by rewrite join_snoc).
    apply normalize_absolute; [by destruct rs'|].
    apply Forall_app. split; [done|by apply Forall_singleton].
Qed.

Lemma descend_absolute rs names :
  Forall plainSegment rs → Forall plainSegment names →
  descend ("/" +:+ Js.join "/" rs) names = "/" +:+ Js.join "/" (rs ++ names).
Proof.
  revert rs. induction names as [|name names IH]; intros rs Hrs Hnames.
  - by rewrite app_nil_r.
  - inversion_clear Hnames as [|?? Hname Hrest]. unfold descend. cbn [fold_left].
    fold (descend (NodePath.join ["/" +:+ Js.join "/" rs; name]) names).
    rewrite join_absolute by done. rewrite IH; [by rewrite <- app_assoc|..|done].
    apply Forall_app. split; [done|by apply Forall_singleton].
Qed.

(** X27: when the root of the workspace is an absolute path in normal
    form, the scope of a database found below it is the text of the
    directories that lead from the root to it, joined by separators, and
    the scope of the database of the root is the empty string. *)
Theorem duckdbRelativeScope_discovered (env : Env) (rs names : list string) :
  Forall plainSegment rs →
  Forall plainSegment names →
  resolveWorkspaceRoot env = Some ("/" +:+ Js.join "/" rs) →
  let root := "/" +:+ Js.join "/" rs in
  duckdbRelativeScope env (NodePath.join [descend root names; "workspace.duckdb"])
  = Js.join "/" names
  ∧ duckdbRelativeScope env (NodePath.join [root; "workspace.duckdb"]) = "".
Proof.
  intros Hrs Hnames Hroot root.
  assert (∀ below, Forall plainSegment below →
            duckdbRelativeScope env
              (NodePath.join [descend root below; "workspace.duckdb"])
            = Js.join "/" below) as Hscope.
  { intros below Hbelow. unfold duckdbRelativeScope. rewrite Hroot.
    change (Js.truthy ("/" +:+ Js.join "/" rs)) with true. cbn [negb].
    unfold root. rewrite descend_absolute by done.
    assert (Forall plainSegment (rs ++ below)) as Hall by (by apply Forall_app).
    rewrite join_absolute by (done || by repeat split).
    rewrite resolve_parent by (done || by repeat split).
    rewrite relative_absolute by done.
    destruct (decide (rs = rs ++ below)) as [Heq|Hne].
    - rewrite <- (app_nil_r rs) in Heq at 1. by apply app_inv_head in Heq as <-.
    - rewrite dropCommon_below. cbn [length replicate app].
      destruct (String.eqb_spec (Js.join "/" below) ".") as [Hdot|_]; [|done].
      exfalso. destruct below as [|b below']; [done|].
      assert (Js.split "/" (Js.join "/" (b :: below')) = ["."]) as Hsplit
        by (by rewrite Hdot).
      rewrite split_join in Hsplit by (done || by apply plain_slashFree).
      injection Hsplit as -> _. by inversion_clear Hbelow as [|?? (_ & ? & _) _]. }
  split; [by apply Hscope|]. by apply (Hscope []).
Qed.

(** X28: for a root and a working directory that are absolute paths in
    normal form, the prefix told to the agent is the path of the root
    relative to the repository when the root lies strictly below the
    repository and that path does not begin with two dots, and the root
    itself in every other case.  The repository is the working
    directory, or two directories above it when the text of the working
    directory ends with [apps/web]. *)
Theorem resolveAgentWorkspacePrefix_cases (env : Env) (cs rs : list string) :
  Forall plainSegment cs →
  Forall plainSegment rs →
  cwdTail env = Js.join "/" cs →
  resolveWorkspaceRoot env = Some ("/" +:+ Js.join "/" rs) →
  let root := "/" +:+ Js.join "/" rs in
  let repo := if Js.endsWith (cwd env) "apps/web"
              then take (length cs - 2) cs else cs in
  (∀ below, rs = repo ++ below → below ≠ [] →
     resolveAgentWorkspacePrefix env
     = Some (if Js.startsWith (Js.join "/" below) ".." then root
             else Js.join "/" below))
  ∧ (¬ (∃ below, rs = repo ++ below ∧ below ≠ []) →
     resolveAgentWorkspacePrefix env = Some root).
Proof.
  intros Hcs Hrs Hcwd Hroot root repo.
  assert (Forall plainSegment repo) as Hrepo.
  { unfold repo. destruct (Js.endsWith _ _); [|done]. by apply Forall_take. }
  assert (resolveAgentWorkspacePrefix env
          = let rel := NodePath.relative (cwd env) ("/" +:+ Js.join "/" repo) root in
            if Js.startsWith rel ".." then Some root
            else Some (if Js.truthy rel then rel else root)) as ->.
  { unfold resolveAgentWorkspacePrefix. rewrite Hroot.
    change (Js.truthy ("/" +:+ Js.join "/" rs)) with true. cbn [negb].
    change ("/" +:+ Js.join "/" rs) with (String "/" (Js.join "/" rs)).
    rewrite startsWith_slash_cons.
    change (NodePath.join ["apps"; "web"]) with "apps/web".
    assert (cwd env = "/" +:+ Js.join "/" cs) as Hc
      by (unfold cwd; by rewrite Hcwd).
    unfold repo. destruct (Js.endsWith (cwd env) "apps/web").
    - rewrite (f_equal (λ p, NodePath.resolve (cwd env) [p; ".."; ".."]) Hc).
      by rewrite resolve_grandparent.
    - by rewrite <- Hc. }
  unfold root. rewrite relative_absolute by done. cbv zeta.
  split.
  - intros below -> Hbelow.
    destruct (decide (repo = repo ++ below)) as [Heq|_].
    { rewrite <- (app_nil_r repo) in Heq at 1. by apply app_inv_head in Heq as <-. }
    rewrite dropCommon_below. cbn [length replicate app].
    destruct (Js.startsWith (Js.join "/" below) ".."); [done|].
    rewrite truthy_nonempty; [done|]. intros Hempty.
    apply Forall_app in Hrs as [_ Hplain].
    by apply join_plain_empty in Hempty.
  - intros Hout. destruct (decide (repo = rs)) as [Heq|Hne]; [done|].
    destruct (dropCommon_spec repo rs) as (common & Hfrom & Hto & Hprefix).
    destruct (NodePath.dropCommon repo rs) as [up down]. cbn [fst snd] in *.
    destruct up as [|u up].
    + exfalso. apply Hout. exists down. rewrite app_nil_r in Hfrom.
      split; [congruence|]. intros ->. rewrite app_nil_r in Hto. congruence.
    + cbn [length replicate app].
      destruct (join_front "/" ".." (replicate (length up) ".." ++ down)) as [t ->].
      by rewrite startsWith_append.
Qed.

End RelativePaths.

(** * The parser of simple YAML *)

Section SimpleYaml.
Import Workspace Http.

Lemma span_append p (a b : string) :
  allChars p a = true →
  span p (a +:+ b) = (a +:+ (span p b).1, (span p b).2).
Proof.
  induction a as [|c a IH]; intros Ha.
  - rewrite !append_nil_l. by destruct (span p b).
  - cbn [allChars] in Ha. apply andb_true_iff in Ha as [Hc Ha].
    rewrite !append_cons. cbn [span]. by rewrite Hc, IH.
Qed.

Lemma span_all p (s : string) : allChars p s = true → span p s = (s, "").
Proof.
  induction s as [|c s IH]; intros Hs; [done|].
  cbn [allChars] in Hs. apply andb_true_iff in Hs as [Hc Hs].
  cbn [span]. by rewrite Hc, IH.
Qed.

Lemma span_stop p c (s : string) : p c = false → span p (String c s) = ("", String c s).
Proof. intros Hc. cbn [span]. by rewrite Hc. Qed.

Lemma wordChar_class c :
  Js.isWordChar c = true →
  Js.isWhiteSpace c = false ∧ Ascii.eqb "#" c = false ∧ isKeyChar c = true.
Proof.
  destruct c as [[] [] [] [] [] [] [] []]; vm_compute; intros; repeat split;
    congruence.
Qed.

Lemma whiteSpace_class c :
  Js.isWhiteSpace c = true → isKeyChar c = false.
Proof. destruct c as [[] [] [] [] [] [] [] []]; vm_compute; congruence. Qed.

Lemma trimEnd_head c (s : string) :
  Js.isWhiteSpace c = false → ∃ t, Js.trimEnd (String c s) = String c t.
Proof.
  intros Hc. cbn [Js.trimEnd]. rewrite Hc.
  destruct (Js.trimEnd s); by eexists.
Qed.

(** A line that begins with a character of a key is no comment and not
    blank. *)
Lemma kept_line c (s : string) :
  Js.isWordChar c = true →
  Js.startsWith (Js.trim (String c s)) "#" || negb (Js.truthy (Js.trim (String c s)))
  = false.
Proof.
  intros (Hspace & Hhash & _)%wordChar_class.
  unfold Js.trim. cbn [Js.trimStart]. rewrite Hspace.
  destruct (trimEnd_head c s Hspace) as [t ->].
  cbn [Js.startsWith]. by rewrite Hhash.
Qed.

(** The start of a match: the key, the white space and the colon. *)
Lemma matchLine_key c k pad (after : string) :
  Js.isWordChar c = true →
  allChars isKeyChar k = true →
  allChars Js.isWhiteSpace pad = true →
  matchLine (String c k +:+ pad +:+ ":" +:+ after)
  = match (span Js.isWhiteSpace after).2 with
    | String _ _ =>
        Some (String c k,
              (span (λ c, negb (isLineTerminator c)) (span Js.isWhiteSpace after).2).1)
    | EmptyString =>
        match lastDot (span Js.isWhiteSpace after).1 with
        | Some d => Some (String c k, String d "")
        | None => None
        end
    end.
Proof.
  intros Hc Hk Hpad. pose proof (wordChar_class c Hc) as (_ & _ & Hkey).
  assert (span isKeyChar (pad +:+ ":" +:+ after) = ("", pad +:+ ":" +:+ after))
    as Hstop.
  { destruct pad as [|w pad'].
    - rewrite append_nil_l. by apply span_stop.
    - cbn [allChars] in Hpad. apply andb_true_iff in Hpad as [Hw _].
      rewrite append_cons. apply span_stop. by apply whiteSpace_class. }
  unfold matchLine. rewrite append_cons, Hc. cbn [negb].
  rewrite <- append_cons.
  rewrite (span_append isKeyChar (String c k))
    by (cbn [allChars]; by rewrite Hkey, Hk).
  rewrite Hstop. cbn [fst snd]. rewrite append_nil_r.
  rewrite (span_append Js.isWhiteSpace pad) by done.
  change (":" +:+ after) with (String ":" after).
  rewrite span_stop by done. cbn [fst snd].
  by destruct (span Js.isWhiteSpace after) as [blank found].
Qed.

Lemma endsWith_append (a p : string) : Js.endsWith (a +:+ p) p = true.
Proof.
  induction a as [|c a IH].
  - rewrite append_nil_l. destruct p; cbn [Js.endsWith]; by rewrite String.eqb_refl.
  - rewrite append_cons. cbn [Js.endsWith]. rewrite IH.
    by destruct (String.eqb _ _).
Qed.

Lemma dropLast_snoc (s : string) c : dropLast (s +:+ String c "") = s.
Proof.
  induction s as [|a s IH]; [done|].
  rewrite append_cons. cbn [dropLast]. rewrite IH.
  by destruct s.
Qed.

Lemma trimEnd_snoc (s : string) c :
  Js.isWhiteSpace c = false → Js.trimEnd (s +:+ String c "") = s +:+ String c "".
Proof.
  intros Hc. induction s as [|a s IH].
  - rewrite append_nil_l. cbn [Js.trimEnd]. by rewrite Hc.
  - rewrite append_cons. cbn [Js.trimEnd]. rewrite IH.
    by destruct s.
Qed.

(** The value behind a pair of quotes. *)
Lemma scalar_quoted (q : ascii) (inner : string) :
  q = "034"%char ∨ q = "'"%char →
  scalar (String q (inner +:+ String q "")) = classify inner.
Proof.
  intros Hq. unfold scalar.
  assert (Js.isWhiteSpace q = false) as Hspace by (by destruct Hq as [->| ->]).
  assert (Js.trim (String q (inner +:+ String q "")) = String q (inner +:+ String q ""))
    as ->.
  { unfold Js.trim. cbn [Js.trimStart]. rewrite Hspace.
    rewrite <- append_cons. by apply trimEnd_snoc. }
  assert (quotedBy (String q "") (String q (inner +:+ String q "")) = true) as Hquoted.
  { unfold quotedBy. apply andb_true_iff. split.
    - apply (startsWith_append (String q "")).
    - rewrite <- append_cons. apply endsWith_append. }
  assert (quotedBy doubleQuote (String q (inner +:+ String q ""))
          || quotedBy "'" (String q (inner +:+ String q "")) = true) as ->.
  { destruct Hq as [-> | ->].
    - unfold doubleQuote. by rewrite Hquoted.
    - rewrite Hquoted. apply orb_true_r. }
  cbn [slice1]. by rewrite dropLast_snoc.
Qed.

(** X29: a line assigns to a key when it begins with the key, a
    character of a word followed by such characters and hyphens, then has
    a colon, with white space or none before and after it, and then a
    text; the value is read off that text.  A line that begins with
    anything else (white space, a hyphen, a quote, a hash) assigns
    nothing, and neither does a key whose colon ends the line.  Quotes
    around a value keep its white space, but not its type: the text
    between them is parsed for a boolean, [null] or a number all the
    same. *)
Theorem parseSimpleYaml_line (c : ascii) (k pad1 pad2 : string) :
  Js.isWordChar c = true →
  allChars isKeyChar k = true →
  allChars Js.isWhiteSpace pad1 = true →
  allChars Js.isWhiteSpace pad2 = true →
  let key := String c k in
  (∀ f found,
     Js.isWhiteSpace f = false →
     allChars (λ c, negb (isLineTerminator c)) (String f found) = true →
     entry (key +:+ pad1 +:+ ":" +:+ pad2 +:+ String f found)
     = Some (key, scalar (String f found)))
  ∧ entry (key +:+ pad1 +:+ ":") = None
  ∧ (∀ other rest, Js.isWordChar other = false → entry (String other rest) = None)
  ∧ (∀ q inner,
       q = "034"%char ∨ q = "'"%char →
       allChars (λ c, negb (isLineTerminator c)) inner = true →
       entry (key +:+ pad1 +:+ ":" +:+ pad2 +:+ String q (inner +:+ String q ""))
       = Some (key, classify inner)).
Proof.
  intros Hc Hk Hpad1 Hpad2 key.
  assert (∀ f found,
            Js.isWhiteSpace f = false →
            allChars (λ c, negb (isLineTerminator c)) (String f found) = true →
            entry (key +:+ pad1 +:+ ":" +:+ pad2 +:+ String f found)
            = Some (key, scalar (String f found))) as Hline.
  { intros f found Hf Hfound. unfold entry, key.
    rewrite append_cons, kept_line by done. rewrite <- append_cons.
    rewrite matchLine_key by done.
    rewrite (span_append Js.isWhiteSpace pad2) by done.
    rewrite span_stop by done. cbn [fst snd].
    by rewrite span_all by done. }
  split; [exact Hline|]. split; [|split].
  - unfold entry, key. rewrite append_cons, kept_line by done.
    rewrite <- append_cons.
    pose proof (matchLine_key c k pad1 "" Hc Hk Hpad1) as Hmatch.
    change (":" +:+ "") with ":" in Hmatch. by rewrite Hmatch.
  - intros other rest Hother. unfold entry, matchLine. rewrite Hother.
    by destruct (_ || _).
  - intros q inner Hq Hinner.
    rewrite Hline.
    + by rewrite scalar_quoted.
    + by destruct Hq as [-> | ->].
    + cbn [allChars]. apply andb_true_iff. split; [by destruct Hq as [-> | ->]|].
      rewrite allChars_append, Hinner. cbn [allChars].
      by destruct Hq as [-> | ->].
Qed.

(** What the loop has assigned to a key, in a result with or without
    prototype. *)
Lemma assign_lookup k v result key :
  key ≠ "__proto__" →
  own (assign k v result) !! key
  = if decide (k = key) then Some v else own result !! key.
Proof.
  intros Hkey. unfold assign.
  destruct (String.eqb_spec k "__proto__") as [->|Hk]; cbn [andb].
  - rewrite decide_False by done.
    destruct (nullProto result); cbn [negb].
    + cbn [own]. by rewrite lookup_insert_ne.
    + by destruct v.
  - cbn [own]. destruct (decide (k = key)) as [->|Hne].
    + by rewrite lookup_insert_eq.
    + by rewrite lookup_insert_ne.
Qed.

(** X30: the value the parser gives a key is the one that the last line
    assigning to the key gives it, whatever the lines around it are; a
    key that no line assigns to is absent.  This holds of every key but
    [__proto__], which on a plain object is no property of its own. *)
Theorem parseSimpleYaml_last_wins (content key : string) :
  key ≠ "__proto__" →
  own (parseSimpleYaml content) !! key
  = last (snd <$> filter (λ kv, kv.1 = key) (omap entry (Js.split "010" content))).
Proof.
  intros Hkey. unfold parseSimpleYaml.
  induction (Js.split "010" content) as [|line lines IH] using rev_ind; [done|].
  rewrite fold_left_app, omap_app, filter_app, fmap_app. cbn [fold_left].
  assert (omap entry [line] = from_option (λ kv, [kv]) [] (entry line)) as ->
    by (simpl; by destruct (entry line)).
  destruct (entry line) as [[k v]|]; cbn [from_option].
  - rewrite assign_lookup by done. rewrite filter_cons.
    destruct (decide ((k, v).1 = key)) as [Hk|Hk]; cbn [fst] in Hk.
    + rewrite decide_True by done. rewrite filter_nil. cbn [fmap list_fmap].
      by rewrite last_snoc.
    + rewrite decide_False by done. rewrite filter_nil. cbn [fmap list_fmap].
      by rewrite app_nil_r.
  - rewrite filter_nil. cbn [fmap list_fmap]. by rewrite app_nil_r.
Qed.

End SimpleYaml.

(** * The further theorems at work on the small workspace *)

Section MoreWitnesses.
Import Workspace Sql Http.

Lemma demo_root : resolveWorkspaceRoot Demo.env = Some "/ws".
Proof. reflexivity. Defined.

Lemma plain_assets : plainSegment "assets".
Proof. by repeat split. Defined.

(** A new file of the directory [assets] is resolved below the root, and
    a file whose name begins with two dots is refused. *)
Lemma safeResolveNewPath_plain_witness :
  safeResolveNewPath Demo.env "assets/new.png" = Some "/ws/assets/new.png"
  ∧ safeResolvePath Demo.env "assets/new.png" = None
  ∧ safeResolveNewPath Demo.env "..notes/a.md" = None.
Proof.
  destruct (safeResolveNewPath_plain Demo.env "/ws" ["assets"; "new.png"])
    as [Hnew Hold].
  - exact demo_root.
  - discriminate.
  - repeat constructor; discriminate.
  - destruct (safeResolveNewPath_plain Demo.env "/ws" ["..notes"; "a.md"])
      as [Hdots _].
    + exact demo_root.
    + discriminate.
    + repeat constructor; discriminate.
    + split; [exact Hnew|]. split; [exact Hold|exact Hdots].
Defined.

(** With the root [/ws], a path below [/ws2] is returned. *)
Lemma safeResolveNewPath_sibling_witness :
  safeResolveNewPath Demo.env "/ws2/secret.txt" = Some "/ws2/secret.txt"
  ∧ Js.startsWith "/ws2/secret.txt" "/ws/" = false.
Proof.
  destruct (safeResolveNewPath_sibling Demo.env "/ws" "2" ["secret.txt"])
    as (Hnew & Hout & _).
  - exact demo_root.
  - vm_compute. discriminate.
  - discriminate.
  - vm_compute. split; [discriminate|exact I].
  - discriminate.
  - repeat constructor; discriminate.
  - split; [exact Hnew|exact Hout].
Defined.

(** Capital letters in the extension, and dots before it, do not
    matter. *)
Lemma isDatabaseFile_extension_witness :
  isDatabaseFile "backup.2024.DuckDB" = true.
Proof.
  destruct (isDatabaseFile_extension "backup.2024" "DuckDB") as [Hext Hname].
  - vm_compute. repeat split; discriminate.
  - transitivity (isDatabaseFile "DuckDB"); [exact Hname|reflexivity].
Defined.

(** The database of the sub-project is not protected; the one of the
    root is. *)
Lemma isSystemFile_by_depth_witness :
  isSystemFile "proj/workspace.duckdb" = false
  ∧ isSystemFile "workspace.duckdb.wal" = true.
Proof.
  destruct (isSystemFile_by_depth "proj" ".wal") as (_ & _ & Hnested & Hroot).
  - vm_compute. repeat split; discriminate.
  - split; [exact Hnested|exact Hroot].
Defined.

(** The database of the sub-project is found one directory down. *)
Lemma discoverDuckDBPaths_reached_witness :
  {| path := "/ws/proj/workspace.duckdb"; depth := 1 |} ∈ discovered Demo.env.
Proof.
  apply (discoverDuckDBPaths_reached Demo.env).
  exists "/ws", ["proj"]. split; [reflexivity|]. split.
  - eapply reaches_below; [|reflexivity|apply reaches_here].
    right. right. left.
  - split; [reflexivity|]. split; reflexivity.
Defined.

Lemma discoverDuckDBPaths_databases_witness :
  Js.endsWith "/ws/proj/workspace.duckdb" "workspace.duckdb" = true
  ∧ isDatabaseFile "/ws/proj/workspace.duckdb" = true.
Proof.
  apply (discoverDuckDBPaths_databases Demo.env "/ws/proj/workspace.duckdb").
  vm_compute. right. left.
Defined.

Lemma duckdbPath_first_witness :
  duckdbPath Demo.env = Some "/ws/workspace.duckdb".
Proof.
  destruct (duckdbPath_first Demo.env) as (_ & _ & Hroot).
  apply (Hroot "/ws"); reflexivity.
Defined.

(** A statement with a quoted literal reaches the engine as it is. *)
Lemma command_argv_witness :
  Sh.argv (queryCommand "/usr/bin/duckdb" "/ws/workspace.duckdb"
             "SELECT id FROM objects WHERE name = 'O''Neil' LIMIT 1")
  = Some ["/usr/bin/duckdb"; "-json"; "/ws/workspace.duckdb";
          "SELECT id FROM objects WHERE name = 'O''Neil' LIMIT 1"].
Proof.
  destruct (command_argv "/usr/bin/duckdb" "/ws/workspace.duckdb"
              "SELECT id FROM objects WHERE name = 'O''Neil' LIMIT 1")
    as [Hquery _].
  - vm_compute. repeat split; discriminate.
  - vm_compute. repeat split; discriminate.
  - exact Hquery.
Defined.

(** When the query of the root store fails, the objects of the
    sub-project alone are returned. *)
Lemma duckdbQueryAll_every_row_witness :
  (duckdbQueryAll Demo.env Demo.objectRows None Demo.firstFails).1
  = Demo.objectRows Demo.projDb
  ∧ trace (duckdbQueryAll Demo.env Demo.objectRows None Demo.firstFails).2
    = [QueryCall "/ws/workspace.duckdb"; QueryCall "/ws/proj/workspace.duckdb"].
Proof.
  destruct (duckdbQueryAll_every_row Demo.env Demo.firstFails Demo.objectRows None)
    as (Hrows & _ & _ & Htrace).
  - left. reflexivity.
  - exact demo_bin.
  - split; [exact Hrows|exact Htrace].
Defined.

(** When the query of the root store fails, the locator answers with the
    store of the sub-project, which holds a [Task] too. *)
Lemma findDuckDBForObject_sound_witness :
  (findDuckDBForObject Demo.env "Task" Demo.firstFails).1
  = Some "/ws/proj/workspace.duckdb"
  ∧ ownsObject Demo.firstFails "Task" "/ws/proj/workspace.duckdb"
  ∧ files (findDuckDBForObject Demo.env "Task" Demo.firstFails).2 = files Demo.firstFails.
Proof.
  destruct (findDuckDBForObject_sound Demo.env Demo.firstFails "Task")
    as (Hfiles & _ & Hsome & _).
  split; [reflexivity|]. split; [|exact Hfiles].
  apply (Hsome "/ws/proj/workspace.duckdb"). reflexivity.
Defined.

Lemma primary_bridge_witness :
  (duckdbQuery Demo.env Demo.objectRows Demo.store).1
  = Demo.objectRows Demo.rootDb
  ∧ (duckdbQuery Demo.env Demo.objectRows Demo.store).1
    `prefix_of` (duckdbQueryAll Demo.env Demo.objectRows None Demo.store).1.
Proof.
  destruct (primary_bridge Demo.env Demo.store) as [_ Hquery].
  apply (Hquery Demo.objectRows); [exact demo_bin|reflexivity].
Defined.

(** The rename of a value the field does not have is refused, and
    nothing is written. *)
Lemma enum_rename_refusal_writes_nothing_witness :
  let request := {| EnumRename.oldValue := Some "archived";
                    EnumRename.newValue := Some "closed" |} in
  status (EnumRename.PATCH Demo.env "Task" "f1" request Demo.store).1 = 404
  ∧ files (EnumRename.PATCH Demo.env "Task" "f1" request Demo.store).2
    = files Demo.store.
Proof.
  intros request.
  destruct (enum_rename_refusal_writes_nothing Demo.env Demo.store "Task" "f1" request)
    as [_ Hfiles].
  split; [reflexivity|]. apply Hfiles. vm_compute. discriminate.
Defined.

(** An empty array is refused, and a number among the ids makes the
    handler throw; neither writes. *)
Lemma bulk_delete_refusal_writes_nothing_witness :
  let empty := Json {| BulkDelete.entryIds := Some [] |} in
  let mixed := Json {| BulkDelete.entryIds := Some [Js.Str "e1"; Js.Num 7] |} in
  status (BulkDelete.POST Demo.env "Task" empty Demo.store).1 = 400
  ∧ files (BulkDelete.POST Demo.env "Task" empty Demo.store).2 = files Demo.store
  ∧ (BulkDelete.POST Demo.env "Task" mixed Demo.store).1 = uncaught
  ∧ files (BulkDelete.POST Demo.env "Task" mixed Demo.store).2 = files Demo.store
  ∧ (BulkDelete.POST Demo.env "Task" JsonNull Demo.store).1 = uncaught.
Proof.
  intros empty mixed.
  destruct (bulk_delete_refusal_writes_nothing Demo.env Demo.store "Task" empty)
    as (_ & Hfiles & _).
  destruct (bulk_delete_refusal_writes_nothing Demo.env Demo.store "Task" mixed)
    as (_ & Hfiles' & Hthrown).
  destruct (bulk_delete_refusal_writes_nothing Demo.env Demo.store "Task" JsonNull)
    as (_ & _ & Hnull).
  split; [reflexivity|]. split; [apply Hfiles; vm_compute; discriminate|].
  split; [apply Hthrown; reflexivity|].
  split; [apply Hfiles'; vm_compute; discriminate|].
  apply Hnull. reflexivity.
Defined.




Lemma safeName_clean_witness :
  Upload.safeName "my report (final).pdf" = "my_report_final_.pdf"
  ∧ Upload.safeName "my_report_final_.pdf" = "my_report_final_.pdf".
Proof.
  destruct (safeName_clean "my_report_final_.pdf") as (_ & _ & _ & Hkept).
  split; [reflexivity|]. apply Hkept; reflexivity.
Defined.

(** A file named to climb out of the workspace lands in [assets]. *)
Lemma upload_lands_in_assets_witness :
  let file := {| Upload.name := "../../etc/passwd"; Upload.data := "root" |} in
  Upload.POST Demo.env (Some (Some file)) 1700000000123 (λ _, None)
  = {| Upload.response :=
         json 200 [("ok", Js.Bool true);
                   ("path", Js.Str "assets/1700000000123-.._.._etc_passwd")];
       Upload.completed :=
         [Upload.mkdirSync "/ws/assets";
          Upload.writeFileSync "/ws/assets/1700000000123-.._.._etc_passwd" "root"] |}.
Proof.
  intros file.
  destruct (upload_lands_in_assets Demo.env "/ws" file 1700000000123 (λ _, None))
    as (_ & _ & Hpost).
  - exact demo_root.
  - reflexivity.
  - exact Hpost.
Defined.

Lemma resolveDisplayField_choice_witness :
  ObjectRoute.resolveDisplayField {| ObjectRoute.display_field := Some "code" |}
    Demo.someFields = "code"
  ∧ ObjectRoute.resolveDisplayField {| ObjectRoute.display_field := None |}
      Demo.someFields = "Full Name".
Proof.
  destruct (resolveDisplayField_choice {| ObjectRoute.display_field := Some "code" |}
              Demo.someFields) as [Hexplicit _].
  destruct (resolveDisplayField_choice {| ObjectRoute.display_field := None |}
              Demo.someFields) as [_ Hunset].
  split.
  - apply Hexplicit; [reflexivity|discriminate].
  - destruct Hunset as (_ & _ & Hword & _); [by left|].
    apply (Hword 2 {| ObjectRoute.name := "Full Name"; ObjectRoute.type := "number" |});
      [reflexivity|reflexivity|].
    intros [|[|k]] g Hk Hg; [| |lia];
      vm_compute in Hg; injection Hg as <-; reflexivity.
Defined.

Lemma title_heuristics_witness :
  ObjectRoute.resolveDisplayField {| ObjectRoute.display_field := None |}
    Demo.someFields = "Full Name"
  ∧ ∃ j g, j ≤ 2 ∧ Demo.someFields !! j = Some g
           ∧ Kanban.titleField ((λ g, {| Kanban.name := ObjectRoute.name g |})
                                  <$> Demo.someFields)
             = Some {| Kanban.name := ObjectRoute.name g |}.
Proof.
  apply (title_heuristics {| ObjectRoute.display_field := None |} Demo.someFields 2
           {| ObjectRoute.name := "Full Name"; ObjectRoute.type := "number" |}).
  - by left.
  - reflexivity.
  - reflexivity.
  - intros [|[|k]] g Hk Hg; [| |lia];
      vm_compute in Hg; injection Hg as <-; reflexivity.
Defined.

Lemma hyphenated_names_witness :
  ObjectRoute.validObjectName "Task-Task" = true
  ∧ ∀ env st request,
      BulkDelete.POST env "Task-Task" request st
      = (error 400 "Invalid object name", st).
Proof.
  destruct (hyphenated_names "Task") as (_ & _ & Hexample).
  destruct (hyphenated_names "Task-Task") as (_ & Hhyphen & _).
  split; [apply Hexample; reflexivity|].
  destruct Hhyphen as (_ & _ & Hbulk & _); [reflexivity|exact Hbulk].
Defined.


(** A value with a quote in it, in a statement that goes on. *)
Lemma sqlEscape_literal_witness :
  lexLiteral "it''s' AND object_id = 'o1'" = Some ("it's", " AND object_id = 'o1'")
  ∧ literal "it''s" = "it's".
Proof.
  destruct (sqlEscape_literal "it's" " AND object_id = 'o1'") as (Hlex & Hvalue & _).
  - reflexivity.
  - split; [exact Hlex|exact Hvalue].
Defined.

(** Two of the three tasks deleted, twice. *)
Lemma bulk_delete_twice_witness :
  let request := Json {| BulkDelete.entryIds := Some [Js.Str "e1"; Js.Str "e3"] |} in
  let first := BulkDelete.POST Demo.env "Task" request Demo.store in
  let second := BulkDelete.POST Demo.env "Task" request first.2 in
  second.1 = json 200 [("ok", Js.Bool true); ("deletedCount", Js.Num 2)]
  ∧ files second.2 = files first.2.
Proof.
  intros request first second.
  destruct (bulk_delete_twice Demo.env Demo.store "Task" ["e1"; "e3"]
              "/ws/workspace.duckdb" Demo.rootDb "o1")
    as (_ & Hanswer & Hfiles).
  - exact demo_object_found.
  - discriminate.
  - reflexivity.
  - split; [|exact Hfiles].
    transitivity first.1; [exact Hanswer|reflexivity].
Defined.


(** ["doing"] renamed and renamed back. *)
Lemma enum_rename_round_trip_witness :
  let forth :=
    EnumRename.PATCH Demo.env "Task" "f1"
      {| EnumRename.oldValue := Some "doing";
         EnumRename.newValue := Some "in_progress" |} Demo.store in
  let back :=
    EnumRename.PATCH Demo.env "Task" "f1"
      {| EnumRename.oldValue := Some "in_progress";
         EnumRename.newValue := Some "doing" |} forth.2 in
  files forth.2 ≠ files Demo.store ∧ files back.2 = files Demo.store.
Proof.
  intros forth back.
  destruct (enum_rename_round_trip Demo.env Demo.store "Task" "f1" "doing"
              "in_progress" "/ws/workspace.duckdb" Demo.rootDb "o1"
              Demo.statusField ["todo"; "doing"; "done"] 1)
    as (_ & _ & Hforth & Hback).
  - exact demo_field_found.
  - reflexivity.
  - discriminate.
  - discriminate.
  - reflexivity.
  - apply (bool_decide_unpack _). vm_compute. exact I.
  - apply (bool_decide_unpack _). vm_compute. exact I.
  - intros f [->|[]%elem_of_nil]%elem_of_cons _. reflexivity.
  - refine (proj1 (Forall_forall
                     (λ r, ef_field_id r = "f1" → ef_value r ≠ Some "in_progress")
                     (entry_fields Demo.rootDb)) _).
    apply (bool_decide_unpack _). vm_compute. exact I.
  - split; [|exact Hback].
    intros Heq. fold forth in Hforth. rewrite Hforth in Heq.
    apply (f_equal (λ m, m !! "/ws/workspace.duckdb")) in Heq.
    rewrite lookup_insert_eq in Heq. vm_compute in Heq. discriminate.
Defined.

(** A file of the workspace is read, whatever lies outside of it. *)
Lemma readWorkspaceFile_confined_witness :
  let env := {| OPENCLAW_WORKSPACE := Some "/ws"; homedir := "/home/node";
                cwdTail := "app";
                existsSync := λ p, bool_decide (p ∈ ["/ws"; "/ws/README.MD"]);
                workspaceTree := Demo.tree; whichDuckdb := false |} in
  let inside := λ p : string,
    if String.eqb p "/ws/README.MD" then Some "# Tasks" else None in
  let everywhere := λ p : string,
    if String.eqb p "/etc/passwd" then Some "root" else inside p in
  readWorkspaceFile env everywhere "README.MD"
  = readWorkspaceFile env inside "README.MD"
  ∧ readWorkspaceFile env inside "README.MD"
    = Some {| content := "# Tasks"; type := markdown |}.
Proof.
  intros env inside everywhere.
  destruct (readWorkspaceFile_confined env everywhere inside "/ws" "README.MD")
    as (Hsame & _ & Htype).
  - reflexivity.
  - intros p Hp%bool_decide_eq_true _.
    apply elem_of_cons in Hp as [->|Hp]; [reflexivity|].
    apply elem_of_cons in Hp as [->|Hp]; [reflexivity|].
    by apply elem_of_nil in Hp.
  - split; [exact Hsame|]. reflexivity.
Defined.

(** The scopes of the two databases of the small workspace. *)
Lemma duckdbRelativeScope_discovered_witness :
  duckdbRelativeScope Demo.env "/ws/proj/workspace.duckdb" = "proj"
  ∧ duckdbRelativeScope Demo.env "/ws/workspace.duckdb" = "".
Proof.
  destruct (duckdbRelativeScope_discovered Demo.env ["ws"] ["proj"])
    as [Hproj Hroot].
  - repeat constructor; discriminate.
  - repeat constructor; discriminate.
  - reflexivity.
  - split; [exact Hproj|exact Hroot].
Defined.

(** A server started in [apps/web] of a repository that holds the
    workspace. *)
Lemma resolveAgentWorkspacePrefix_cases_witness :
  let env := {| OPENCLAW_WORKSPACE := Some "/repo/data/ws"; homedir := "/home/node";
                cwdTail := "repo/apps/web";
                existsSync := λ p, String.eqb p "/repo/data/ws";
                workspaceTree := Demo.tree; whichDuckdb := false |} in
  resolveAgentWorkspacePrefix env = Some "data/ws"
  ∧ resolveAgentWorkspacePrefix Demo.env = Some "/ws".
Proof.
  intros env.
  destruct (resolveAgentWorkspacePrefix_cases env ["repo"; "apps"; "web"]
              ["repo"; "data"; "ws"]) as [Hinside _].
  - repeat constructor; discriminate.
  - repeat constructor; discriminate.
  - reflexivity.
  - reflexivity.
  - destruct (resolveAgentWorkspacePrefix_cases Demo.env ["app"] ["ws"])
      as [_ Houtside].
    + repeat constructor; discriminate.
    + repeat constructor; discriminate.
    + reflexivity.
    + reflexivity.
    + split.
      * apply (Hinside ["data"; "ws"]); [reflexivity|discriminate].
      * apply Houtside. intros (below & Hbelow & _). discriminate.
Defined.

(** A number, plain and between quotes, and the head of a nested
    mapping. *)
Lemma parseSimpleYaml_line_witness :
  entry "count: 42" = Some ("count", YNumber "42")
  ∧ entry "count : '42'" = Some ("count", YNumber "42")
  ∧ entry "count:" = None
  ∧ entry "  count: 42" = None.
Proof.
  destruct (parseSimpleYaml_line "c" "ount" "" " ")
    as (Hplain & _ & Hother & _); [reflexivity..|].
  destruct (parseSimpleYaml_line "c" "ount" " " " ")
    as (_ & _ & _ & Hquoted); [reflexivity..|].
  destruct (parseSimpleYaml_line "c" "ount" "" "")
    as (_ & Hhead & _ & _); [reflexivity..|].
  split; [|split; [|split]].
  - apply (Hplain "4"%char "2"); reflexivity.
  - apply (Hquoted "'"%char "42"); [by right|reflexivity].
  - exact Hhead.
  - apply (Hother " "%char " count: 42"). reflexivity.
Defined.

(** Of two lines for one key the second counts. *)
Lemma parseSimpleYaml_last_wins_witness :
  own (parseSimpleYaml ("name: people" +:+ String "010" "icon: users"
                        +:+ String "010" "name: contacts")) !! "name"
  = Some (YString "contacts").
Proof.
  rewrite (parseSimpleYaml_last_wins _ "name"); [reflexivity|discriminate].
Defined.

End MoreWitnesses.
